(** * superagent-work: the SQLite-backed work tracker of [work.ts]

    A shallow embedding of [src/work.ts]: the JavaScript string and JSON
    primitives the program calls, the [work] table, the JSONL export and
    import, the commands and their dispatcher, followed by the properties
    of the storage layer and of the dependency queries.

    Conventions of the embedding.
    - A JavaScript string is the list of its UTF-16 code units ([jsstring]).
    - A JavaScript number is an integer [Z]; the program only produces
      integral numbers.  The readers of numbers ([parseInt], the JSON
      parser) answer [Unmodelled] outside the safe range, where a double
      no longer is an integer, and on a fraction or an exponent.
    - A parsed object is the list of its properties in the order of their
      first occurrence (the reordering of integer-like keys is not
      modelled; the program reads properties by name only).
    - The table stores a text as it is bound, and the file holds the text
      that is written: the UTF-8 encoding on both ways is left out.
    - An exception or [process.exit(1)] is a [Throw]; the state changes made
      before it stay (SQLite runs in autocommit mode, nothing is rolled
      back).
    - [new Date().toISOString()] is an input: every command receives the
      successive answers of [now()] as a function [clk : nat -> jsstring]. *)

From Stdlib Require Import List ZArith NArith Lia Bool String Ascii.
From Stdlib Require Import DecimalN DecimalPos DecimalFacts.
From Stdlib Require Import Permutation Sorted.
Import ListNotations.

Local Open Scope N_scope.

(** ** JavaScript strings *)

Definition jsstring := list N.

(** Code units of an ASCII literal. *)
Definition u (s : string) : jsstring :=
  List.map N_of_ascii (list_ascii_of_string s).

Fixpoint jseqb (a b : jsstring) : bool :=
  match a, b with
  | [], [] => true
  | x :: a', y :: b' => (x =? y) && jseqb a' b'
  | _, _ => false
  end.

(** [s.startsWith(p)] *)
Fixpoint startsWith (p s : jsstring) : bool :=
  match p, s with
  | [], _ => true
  | x :: p', y :: s' => (x =? y) && startsWith p' s'
  | _ :: _, [] => false
  end.

(** [s.padStart(n, "0")] *)
Definition padStart0 (n : nat) (s : jsstring) : jsstring :=
  List.repeat 48 (n - List.length s) ++ s.

(** [parts.join(sep)] *)
Fixpoint join (sep : jsstring) (parts : list jsstring) : jsstring :=
  match parts with
  | [] => []
  | [p] => p
  | p :: rest => p ++ sep ++ join sep rest
  end.

(** [s.split(sep)] for a separator of one code unit. *)
Fixpoint split (sep : N) (s : jsstring) : list jsstring :=
  match s with
  | [] => [[]]
  | c :: r =>
      if c =? sep then [] :: split sep r
      else match split sep r with
           | [] => [[c]]
           | w :: ws => (c :: w) :: ws
           end
  end.

(** WhiteSpace and LineTerminator of ECMAScript, as [String.prototype.trim]
    and [parseInt] strip them. *)
Definition isWhiteSpace (c : N) : bool :=
  (c =? 9) || (c =? 10) || (c =? 11) || (c =? 12) || (c =? 13) || (c =? 32)
  || (c =? 160) || (c =? 5760) || ((8192 <=? c) && (c <=? 8202))
  || (c =? 8232) || (c =? 8233) || (c =? 8239) || (c =? 8287)
  || (c =? 12288) || (c =? 65279).

Fixpoint trimStart (s : jsstring) : jsstring :=
  match s with
  | c :: r => if isWhiteSpace c then trimStart r else s
  | [] => []
  end.

Definition trimEnd (s : jsstring) : jsstring := rev (trimStart (rev s)).

(** [s.trim()] *)
Definition trim (s : jsstring) : jsstring := trimEnd (trimStart s).

(** ** Decimal numerals *)

Definition isDigit (c : N) : bool := (48 <=? c) && (c <=? 57).

Fixpoint uint_units (d : Decimal.uint) : jsstring :=
  match d with
  | Decimal.Nil => []
  | Decimal.D0 d => 48 :: uint_units d
  | Decimal.D1 d => 49 :: uint_units d
  | Decimal.D2 d => 50 :: uint_units d
  | Decimal.D3 d => 51 :: uint_units d
  | Decimal.D4 d => 52 :: uint_units d
  | Decimal.D5 d => 53 :: uint_units d
  | Decimal.D6 d => 54 :: uint_units d
  | Decimal.D7 d => 55 :: uint_units d
  | Decimal.D8 d => 56 :: uint_units d
  | Decimal.D9 d => 57 :: uint_units d
  end.

Definition digit_cons (c : N) : Decimal.uint -> Decimal.uint :=
  if c =? 48 then Decimal.D0 else if c =? 49 then Decimal.D1
  else if c =? 50 then Decimal.D2 else if c =? 51 then Decimal.D3
  else if c =? 52 then Decimal.D4 else if c =? 53 then Decimal.D5
  else if c =? 54 then Decimal.D6 else if c =? 55 then Decimal.D7
  else if c =? 56 then Decimal.D8 else Decimal.D9.

Fixpoint units_uint (s : jsstring) : Decimal.uint :=
  match s with
  | [] => Decimal.Nil
  | c :: r => digit_cons c (units_uint r)
  end.

(** Value of a run of decimal digits; leading zeros allowed. *)
Definition digits_value (s : jsstring) : N := N.of_uint (units_uint s).

(** The longest prefix of decimal digits, and what follows it. *)
Fixpoint span_digits (s : jsstring) : jsstring * jsstring :=
  match s with
  | c :: r =>
      if isDigit c then let (ds, t) := span_digits r in (c :: ds, t)
      else ([], s)
  | [] => ([], [])
  end.

(** [String(n)] for an integral number. *)
Definition String_of_number (z : Z) : jsstring :=
  match z with
  | Z0 => [48]
  | Zpos p => uint_units (N.to_uint (Npos p))
  | Zneg p => 45 :: uint_units (N.to_uint (Npos p))
  end.

(** Integers a double represents exactly: |z| <= 2^53 - 1. *)
Definition isSafeInteger (z : Z) : bool :=
  ((-9007199254740991 <=? z) && (z <=? 9007199254740991))%Z.

(** ** Outcomes *)

(** What a command prints on stderr before [process.exit(1)]. *)
Inductive report : Type :=
| Usage (cmd : jsstring)
| NotFound (id : jsstring)
| BlockerNotFound (id : jsstring)
| UnknownField (field : jsstring)
| UnknownCommand (cmd : jsstring)
| NoJsonlFile.

Inductive exn : Type :=
| Exit1 (r : report)
| SyntaxError
| TypeError
| ConstraintError
| Unmodelled.

Inductive result (A : Type) : Type :=
| Ok (a : A)
| Throw (e : exn).
Arguments Ok {A} a.
Arguments Throw {A} e.

Definition rbind {A B} (r : result A) (k : A -> result B) : result B :=
  match r with
  | Ok a => k a
  | Throw e => Throw e
  end.

Fixpoint mapM {A B} (f : A -> result B) (l : list A) : result (list B) :=
  match l with
  | [] => Ok []
  | a :: l' =>
      rbind (f a) (fun b => rbind (mapM f l') (fun bs => Ok (b :: bs)))
  end.

(** ** parseInt *)

Definition hexval (c : N) : option N :=
  if isDigit c then Some (c - 48)
  else if (97 <=? c) && (c <=? 102) then Some (c - 87)
  else if (65 <=? c) && (c <=? 70) then Some (c - 55)
  else None.

Fixpoint hex_prefix_value (acc : option N) (s : jsstring) : option N :=
  match s with
  | c :: r =>
      match hexval c with
      | Some d =>
          hex_prefix_value
            (Some (16 * match acc with Some a => a | None => 0 end + d)) r
      | None => acc
      end
  | [] => acc
  end.

(** An optional sign in front of a numeral. *)
Definition strip_sign (s : jsstring) : bool * jsstring :=
  match s with
  | c :: r =>
      if c =? 45 then (true, r) else if c =? 43 then (false, r) else (false, s)
  | [] => (false, [])
  end.

(** [parseInt(s, radix)] with [radix] 10 or left out ([None]); [Ok None] is
    NaN.  Without a radix a [0x] prefix selects base 16. *)
Definition parseInt (s : jsstring) (radix : option N) : result (option Z) :=
  let (neg, s1) := strip_sign (trimStart s) in
  let decimal :=
    match fst (span_digits s1) with
    | [] => None
    | ds => Some (digits_value ds)
    end in
  let magnitude :=
    match radix, s1 with
    | None, z :: x :: r =>
        if (z =? 48) && ((x =? 120) || (x =? 88))
        then hex_prefix_value None r
        else decimal
    | _, _ => decimal
    end in
  match magnitude with
  | None => Ok None
  | Some m =>
      let z := if neg then (- Z.of_N m)%Z else Z.of_N m in
      if isSafeInteger z then Ok (Some z) else Throw Unmodelled
  end.

(** ** JSON values, [JSON.stringify] and [JSON.parse] *)

(** A value of JavaScript that [JSON.parse] can produce.  An object is the
    list of its own properties in creation order. *)
#[warnings="-register-all"]
Inductive json : Type :=
| JNull
| JBool (b : bool)
| JNum (z : Z)
| JStr (s : jsstring)
| JArr (els : list json)
| JObj (props : list (jsstring * json)).

Definition hexdigit (n : N) : N := if n <? 10 then 48 + n else 87 + n.

(** UnicodeEscape: a backslash, [u] and four lowercase hexadecimal digits. *)
Definition unicode_escape (c : N) : jsstring :=
  [92; 117; hexdigit ((c / 4096) mod 16); hexdigit ((c / 256) mod 16);
   hexdigit ((c / 16) mod 16); hexdigit (c mod 16)].

Definition isLeadingSurrogate (c : N) : bool := (55296 <=? c) && (c <=? 56319).
Definition isTrailingSurrogate (c : N) : bool := (56320 <=? c) && (c <=? 57343).

Definition quote_unit (c : N) : jsstring :=
  if c =? 8 then [92; 98]
  else if c =? 9 then [92; 116]
  else if c =? 10 then [92; 110]
  else if c =? 12 then [92; 102]
  else if c =? 13 then [92; 114]
  else if c =? 34 then [92; 34]
  else if c =? 92 then [92; 92]
  else if c <? 32 then unicode_escape c
  else [c].

(** The body of QuoteJSONString: it walks the code points of the string, a
    surrogate pair passes as it is, a lone surrogate is escaped. *)
Fixpoint quote_body (s : jsstring) : jsstring :=
  match s with
  | [] => []
  | c :: r =>
      if isLeadingSurrogate c then
        match r with
        | d :: r' =>
            if isTrailingSurrogate d then c :: d :: quote_body r'
            else unicode_escape c ++ quote_body r
        | [] => unicode_escape c
        end
      else if isTrailingSurrogate c then unicode_escape c ++ quote_body r
      else quote_unit c ++ quote_body r
  end.

Definition QuoteJSONString (s : jsstring) : jsstring :=
  34 :: quote_body s ++ [34].

Fixpoint join_comma (parts : list jsstring) : jsstring :=
  match parts with
  | [] => []
  | [p] => p
  | p :: rest => p ++ 44 :: join_comma rest
  end.

(** [JSON.stringify(v)] without indentation. *)
Fixpoint stringify (v : json) : jsstring :=
  match v with
  | JNull => u "null"
  | JBool true => u "true"
  | JBool false => u "false"
  | JNum z => String_of_number z
  | JStr s => QuoteJSONString s
  | JArr els => 91 :: join_comma (List.map stringify els) ++ [93]
  | JObj props =>
      123 :: join_comma
               (List.map (fun p => QuoteJSONString (fst p) ++ 58 :: stringify (snd p))
                  props) ++ [125]
  end.

(** JSON whitespace: space, tab, line feed, carriage return. *)
Definition isJsonWs (c : N) : bool :=
  (c =? 32) || (c =? 9) || (c =? 10) || (c =? 13).

Fixpoint skip_ws (s : jsstring) : jsstring :=
  match s with
  | c :: r => if isJsonWs c then skip_ws r else s
  | [] => []
  end.

Definition unescape (e : N) : option N :=
  if e =? 34 then Some 34
  else if e =? 92 then Some 92
  else if e =? 47 then Some 47
  else if e =? 98 then Some 8
  else if e =? 102 then Some 12
  else if e =? 110 then Some 10
  else if e =? 114 then Some 13
  else if e =? 116 then Some 9
  else None.

Definition consR (c : N) (r : result (jsstring * jsstring))
  : result (jsstring * jsstring) :=
  rbind r (fun p => Ok (c :: fst p, snd p)).

(** The characters of a JSON string after its opening quote, up to and
    including the closing quote. *)
Fixpoint parse_string_body (s : jsstring) : result (jsstring * jsstring) :=
  match s with
  | [] => Throw SyntaxError
  | c :: r =>
      if c =? 34 then Ok ([], r)
      else if c =? 92 then
        match r with
        | [] => Throw SyntaxError
        | e :: r1 =>
            if e =? 117 then
              match r1 with
              | h1 :: h2 :: h3 :: h4 :: r2 =>
                  match hexval h1, hexval h2, hexval h3, hexval h4 with
                  | Some a, Some b, Some c', Some d =>
                      consR (a * 4096 + b * 256 + c' * 16 + d)
                        (parse_string_body r2)
                  | _, _, _, _ => Throw SyntaxError
                  end
              | _ => Throw SyntaxError
              end
            else
              match unescape e with
              | Some x => consR x (parse_string_body r1)
              | None => Throw SyntaxError
              end
        end
      else if c <? 32 then Throw SyntaxError
      else consR c (parse_string_body r)
  end.

(** A JSON number.  Only integer literals in the safe range are read; a
    fraction or an exponent is [Unmodelled]. *)
Definition number_of_digits (neg : bool) (ds rest : jsstring)
  : result (json * jsstring) :=
  let fractional :=
    match rest with
    | c :: _ => (c =? 46) || (c =? 101) || (c =? 69)
    | [] => false
    end in
  let z := Z.of_N (digits_value ds) in
  if fractional then Throw Unmodelled
  else if isSafeInteger z then Ok (JNum (if neg then (- z)%Z else z), rest)
  else Throw Unmodelled.

Definition parse_number (s : jsstring) : result (json * jsstring) :=
  let (neg, s1) :=
    match s with
    | c :: r => if c =? 45 then (true, r) else (false, s)
    | [] => (false, [])
    end in
  match s1 with
  | [] => Throw SyntaxError
  | c :: r =>
      if c =? 48 then number_of_digits neg [48] r
      else if isDigit c then
        let (ds, rest) := span_digits s1 in number_of_digits neg ds rest
      else Throw SyntaxError
  end.

(** CreateDataProperty on the object under construction: a repeated key
    keeps its place and takes the later value. *)
Fixpoint obj_set (k : jsstring) (v : json) (props : list (jsstring * json))
  : list (jsstring * json) :=
  match props with
  | [] => [(k, v)]
  | (k', v') :: rest =>
      if jseqb k' k then (k', v) :: rest else (k', v') :: obj_set k v rest
  end.

Section Loops.
(** The parser of one value, as the loops over elements and members call
    it. *)
Variable pv : jsstring -> result (json * jsstring).

(** Elements of an array after the opening bracket (not empty). *)
Fixpoint parse_elements (k : nat) (acc : list json) (s : jsstring)
  : result (json * jsstring) :=
  match k with
  | O => Throw Unmodelled
  | S k' =>
      match pv s with
      | Throw e => Throw e
      | Ok (v, r) =>
          match skip_ws r with
          | c :: r' =>
              if c =? 44 then parse_elements k' (acc ++ [v]) r'
              else if c =? 93 then Ok (JArr (acc ++ [v]), r')
              else Throw SyntaxError
          | [] => Throw SyntaxError
          end
      end
  end.

(** Members of an object after the opening brace (not empty). *)
Fixpoint parse_members (k : nat) (acc : list (jsstring * json))
  (s : jsstring) : result (json * jsstring) :=
  match k with
  | O => Throw Unmodelled
  | S k' =>
      match skip_ws s with
      | q :: r0 =>
          if q =? 34 then
            match parse_string_body r0 with
            | Throw e => Throw e
            | Ok (key, r1) =>
                match skip_ws r1 with
                | q' :: r2 =>
                    if q' =? 58 then
                      match pv r2 with
                      | Throw e => Throw e
                      | Ok (v, r3) =>
                          match skip_ws r3 with
                          | c :: r4 =>
                              if c =? 44 then
                                parse_members k' (obj_set key v acc) r4
                              else if c =? 125 then
                                Ok (JObj (obj_set key v acc), r4)
                              else Throw SyntaxError
                          | [] => Throw SyntaxError
                          end
                      end
                    else Throw SyntaxError
                | [] => Throw SyntaxError
                end
            end
          else Throw SyntaxError
      | [] => Throw SyntaxError
      end
  end.
End Loops.

Definition expect_literal (lit : jsstring) (v : json) (s : jsstring)
  : result (json * jsstring) :=
  if startsWith lit s then Ok (v, skipn (List.length lit) s)
  else Throw SyntaxError.

(** One JSON value.  [n] bounds the nesting depth; the loops are bounded by
    the length of the text. *)
Fixpoint parse_value (n : nat) (s : jsstring) : result (json * jsstring) :=
  match n with
  | O => Throw Unmodelled
  | S n' =>
      match skip_ws s with
      | [] => Throw SyntaxError
      | c :: r =>
          if c =? 123 then
            match skip_ws r with
            | c' :: r' =>
                if c' =? 125 then Ok (JObj [], r')
                else parse_members (parse_value n') (List.length r) [] r
            | [] => Throw SyntaxError
            end
          else if c =? 91 then
            match skip_ws r with
            | c' :: r' =>
                if c' =? 93 then Ok (JArr [], r')
                else parse_elements (parse_value n') (List.length r) [] r
            | [] => Throw SyntaxError
            end
          else if c =? 34 then
            rbind (parse_string_body r) (fun p => Ok (JStr (fst p), snd p))
          else if c =? 116 then expect_literal (u "true") (JBool true) (c :: r)
          else if c =? 102 then expect_literal (u "false") (JBool false) (c :: r)
          else if c =? 110 then expect_literal (u "null") JNull (c :: r)
          else parse_number (c :: r)
      end
  end.

(** [JSON.parse(text)] *)
Definition JSON_parse (text : jsstring) : result json :=
  match parse_value (S (List.length text)) text with
  | Throw e => Throw e
  | Ok (v, r) =>
      match skip_ws r with
      | [] => Ok v
      | _ :: _ => Throw SyntaxError
      end
  end.

(** [o.k] on a parsed value: [None] is [undefined]. *)
Fixpoint assoc (k : jsstring) (props : list (jsstring * json)) : option json :=
  match props with
  | [] => None
  | (k', v) :: rest => if jseqb k' k then Some v else assoc k rest
  end.

Definition prop (o : json) (k : jsstring) : option json :=
  match o with
  | JObj props => assoc k props
  | _ => None
  end.

(** JavaScript truthiness of a parsed value. *)
Definition truthy (v : json) : bool :=
  match v with
  | JNull => false
  | JBool b => b
  | JNum z => negb (z =? 0)%Z
  | JStr s => match s with [] => false | _ :: _ => true end
  | JArr _ | JObj _ => true
  end.

(** ** The [work] table *)

Module Work.
(** One row of [CREATE TABLE work]; a nullable column is an [option]. *)
Record t : Type := mk {
  id : jsstring;
  title : jsstring;
  status : jsstring;
  priority : Z;
  type : jsstring;
  created : jsstring;
  updated : jsstring;
  description : option jsstring;
  blocked_by : option jsstring;
  labels : option jsstring;
  closed_reason : option jsstring;
  log : option jsstring
}.
End Work.

(** The rows in rowid order. *)
Definition table := list Work.t.

(** [interface WorkItem]; an optional field left [undefined] is [None]. *)
Record WorkItem : Type := mkItem {
  id : jsstring;
  title : jsstring;
  status : jsstring;
  priority : Z;
  type : jsstring;
  created : jsstring;
  updated : jsstring;
  description : option jsstring;
  blocked_by : option json;
  labels : option json;
  closed_reason : option jsstring;
  log : option json
}.

(** [x || undefined] on a nullable text column. *)
Definition orUndefined (x : option jsstring) : option jsstring :=
  match x with
  | Some ((_ :: _) as s) => Some s
  | _ => None
  end.

(** [x ? JSON.parse(x) : undefined] *)
Definition parseOrUndefined (x : option jsstring) : result (option json) :=
  match x with
  | Some ((_ :: _) as s) => rbind (JSON_parse s) (fun v => Ok (Some v))
  | _ => Ok None
  end.

(** [rowToWorkItem] (lines 77-92): the columns of a row, the JSON columns
    parsed; a parse error is thrown. *)
Definition rowToWorkItem (row : Work.t) : result WorkItem :=
  rbind (parseOrUndefined (Work.blocked_by row)) (fun bb =>
  rbind (parseOrUndefined (Work.labels row)) (fun ls =>
  rbind (parseOrUndefined (Work.log row)) (fun lg =>
  Ok {| id := Work.id row;
        title := Work.title row;
        status := Work.status row;
        priority := Work.priority row;
        type := Work.type row;
        created := Work.created row;
        updated := Work.updated row;
        description := orUndefined (Work.description row);
        blocked_by := bb;
        labels := ls;
        closed_reason := orUndefined (Work.closed_reason row);
        log := lg |}))).

(** The property of an optional field, when it is defined. *)
Definition optProp {A} (k : string) (f : A -> json) (x : option A)
  : list (jsstring * json) :=
  match x with
  | Some a => [(u k, f a)]
  | None => []
  end.

(** The object [JSON.stringify] sees: the properties of the literal built by
    [rowToWorkItem] in their order, those that are [undefined] left out. *)
Definition toJSON (i : WorkItem) : json :=
  JObj ([(u "id", JStr (id i)); (u "title", JStr (title i));
         (u "status", JStr (status i)); (u "priority", JNum (priority i));
         (u "type", JStr (type i)); (u "created", JStr (created i));
         (u "updated", JStr (updated i))]
        ++ optProp "description" JStr (description i)
        ++ optProp "blocked_by" (fun v => v) (blocked_by i)
        ++ optProp "labels" (fun v => v) (labels i)
        ++ optProp "closed_reason" JStr (closed_reason i)
        ++ optProp "log" (fun v => v) (log i)).

(** *** SQL expressions and statements *)

(** The spaces SQLite skips in front of a number. *)
Definition sqlite_isspace (c : N) : bool :=
  (c =? 32) || ((9 <=? c) && (c <=? 13)).

Fixpoint skip_spaces (s : jsstring) : jsstring :=
  match s with
  | c :: r => if sqlite_isspace c then skip_spaces r else s
  | [] => []
  end.

(** [CAST(id AS INTEGER)] on a text: the longest integer prefix after
    leading spaces, 0 when there is none, saturating at the 64-bit bounds. *)
Definition castInteger (s : jsstring) : Z :=
  let (neg, s1) := strip_sign (skip_spaces s) in
  let m := Z.of_N (digits_value (fst (span_digits s1))) in
  let z := if neg then (- m)%Z else m in
  Z.max (-9223372036854775808) (Z.min z 9223372036854775807).

Section Sorting.
Variable A : Type.
Variable le : A -> A -> bool.

Fixpoint insert_sorted (x : A) (l : list A) : list A :=
  match l with
  | [] => [x]
  | y :: l' => if le x y then x :: l else y :: insert_sorted x l'
  end.

(** [ORDER BY]: rows with equal keys stay in scan order. *)
Definition orderBy (l : list A) : list A := fold_right insert_sorted [] l.
End Sorting.
Arguments insert_sorted {A} le x l.
Arguments orderBy {A} le l.

(** [ORDER BY CAST(id AS INTEGER)] *)
Definition le_id (a b : Work.t) : bool :=
  (castInteger (Work.id a) <=? castInteger (Work.id b))%Z.

(** [ORDER BY priority, CAST(id AS INTEGER)] *)
Definition le_priority_id (a b : Work.t) : bool :=
  (Work.priority a <? Work.priority b)%Z
  || ((Work.priority a =? Work.priority b)%Z && le_id a b).

(** [status = 'closed'], and [status != 'closed'] for its negation. *)
Definition isClosed (r : Work.t) : bool := jseqb (Work.status r) (u "closed").

(** [SELECT * FROM work WHERE id = ?] with [.get] *)
Definition selectById (key : jsstring) (t : table) : option Work.t :=
  find (fun r => jseqb (Work.id r) key) t.

(** [UPDATE work SET ... WHERE id = ?] *)
Definition updateById (key : jsstring) (f : Work.t -> Work.t) (t : table)
  : table :=
  List.map (fun r => if jseqb (Work.id r) key then f r else r) t.

(** [INSERT INTO work]: the primary key refuses a second row of the same
    id. *)
Definition insertRow (r : Work.t) (t : table) : result table :=
  if existsb (fun r' => jseqb (Work.id r') (Work.id r)) t
  then Throw ConstraintError
  else Ok (t ++ [r]).

(** [SELECT MAX(CAST(id AS INTEGER)) FROM work]: NULL on the empty table. *)
Definition selectMaxId (t : table) : option Z :=
  match t with
  | [] => None
  | r :: t' =>
      Some (fold_left (fun m r' => Z.max m (castInteger (Work.id r'))) t'
              (castInteger (Work.id r)))
  end.

(** [nextId] (lines 104-108): [row?.maxId || 0], plus one, as a string
    padded to three digits. *)
Definition nextId (t : table) : jsstring :=
  let maxId :=
    match selectMaxId t with
    | Some m => if (m =? 0)%Z then 0%Z else m
    | None => 0%Z
    end in
  padStart0 3 (String_of_number (maxId + 1)).

(** [padId] (lines 126-128) *)
Definition padId (id : jsstring) : jsstring := padStart0 3 id.

(** ** Export *)

(** The text [exportToJsonl] writes for a list of items. *)
Definition encodeJsonl (items : list WorkItem) : jsstring :=
  let content := join [10] (List.map (fun i => stringify (toJSON i)) items) in
  match content with
  | [] => []
  | _ :: _ => content ++ [10]
  end.

(** The records [import] reads from the text of the file:
    [content.split("\n").map((line) => JSON.parse(line))] on the trimmed
    text, and none when that is empty. *)
Definition decodeJsonl (text : jsstring) : result (list json) :=
  match trim text with
  | [] => Ok []
  | (_ :: _) as content => mapM JSON_parse (split 10 content)
  end.

(** The items [exportToJsonl] serializes: the whole table by numeric id. *)
Definition allItems (t : table) : result (list WorkItem) :=
  mapM rowToWorkItem (orderBy le_id t).

(** ** The state of a checkout and the command monad *)

(** [.work/work.db] and [.work/work.jsonl]; the directory [.work] exists and
    the table is created. *)
Record World : Type := mkWorld {
  db : table;
  jsonl : option jsstring
}.

(** A command: from the state to the state it leaves and what it returns or
    throws. *)
Definition M (A : Type) : Type := World -> World * result A.

Definition ret {A} (a : A) : M A := fun w => (w, Ok a).

Definition bind {A B} (m : M A) (k : A -> M B) : M B :=
  fun w =>
    match m w with
    | (w', Ok a) => k a w'
    | (w', Throw e) => (w', Throw e)
    end.

(** An expression that may throw. *)
Definition lift {A} (r : result A) : M A := fun w => (w, r).

(** [console.error(...); process.exit(1)] *)
Definition exit1 {A} (r : report) : M A := fun w => (w, Throw (Exit1 r)).

(** [db.query(...)]: a read of the table. *)
Definition query {A} (q : table -> A) : M A := fun w => (w, Ok (q (db w))).

(** [db.run(...)] for a statement that cannot fail. *)
Definition run (stmt : table -> table) : M unit :=
  fun w => ({| db := stmt (db w); jsonl := jsonl w |}, Ok tt).

(** [db.run("INSERT ...")]: nothing is written when the key is taken. *)
Definition runInsert (r : Work.t) : M unit :=
  fun w =>
    match insertRow r (db w) with
    | Ok t => ({| db := t; jsonl := jsonl w |}, Ok tt)
    | Throw e => (w, Throw e)
    end.

(** [writeFileSync(jsonlPath, content)] *)
Definition writeFileSync (content : jsstring) : M unit :=
  fun w => ({| db := db w; jsonl := Some content |}, Ok tt).

Declare Scope cmd_scope.
Delimit Scope cmd_scope with cmd.
Notation "x <- m ;; k" := (bind m (fun x => k))
  (at level 61, m at next level, right associativity) : cmd_scope.
Notation "m ;; k" := (bind m (fun _ => k))
  (at level 61, right associativity) : cmd_scope.
Local Open Scope cmd_scope.

(** [exportToJsonl] (lines 94-102) *)
Definition exportToJsonl : M unit :=
  t <- query (fun t => t) ;;
  items <- lift (allItems t) ;;
  writeFileSync (encodeJsonl items).

(** ** Commands *)

(** What a command prints on stdout. *)
Inductive output : Type :=
| AlreadyExists
| Created (id title : jsstring)
| NoWorkItemsFound
| Listed (items : list WorkItem)
| Shown (item : WorkItem)
| Started (id title : jsstring)
| Closed (id title : jsstring)
| Reopened (id title : jsstring)
| Logged (id : jsstring)
| AlreadyBlocked (id blocker : jsstring)
| NowBlocked (id blocker : jsstring)
| NotBlocked (id blocker : jsstring)
| BlockerRemoved (id blocker : jsstring)
| NoReadyItems
| ReadyItems (items : list WorkItem)
| NoBlockedItems
| BlockedItems (items : list (WorkItem * list json))
| Updated (id : jsstring)
| NoItemsToImport
| Imported (n : nat)
| Exported
| Help.

(** [!s] for an argument that may be missing. *)
Definition missing (a : option jsstring) : bool :=
  match a with
  | Some (_ :: _) => false
  | _ => true
  end.

(** [args.find((a) => a.startsWith(flag))?.split("=")[1]] *)
Definition flagValue (flag : string) (args : list jsstring) : option jsstring :=
  match find (startsWith (u flag)) args with
  | Some a => nth_error (split 61 a) 1
  | None => None
  end.

(** [!a.startsWith("--")] *)
Definition notFlag (a : jsstring) : bool := negb (startsWith (u "--") a).

(** The row of [padId(id)], or the "not found" exit. *)
Definition requireRow (id : jsstring) : M Work.t :=
  row <- query (selectById (padId id)) ;;
  match row with
  | Some r => ret r
  | None => exit1 (NotFound id)
  end.

(** The [UPDATE] statements of the commands, as functions on the row: each
    sets the columns it names and [updated]. *)
Definition setStatus (s now : jsstring) (r : Work.t) : Work.t :=
  Work.mk (Work.id r) (Work.title r) s (Work.priority r) (Work.type r)
    (Work.created r) now (Work.description r) (Work.blocked_by r)
    (Work.labels r) (Work.closed_reason r) (Work.log r).

Definition setStatusReason (s now : jsstring) (reason : option jsstring)
  (r : Work.t) : Work.t :=
  Work.mk (Work.id r) (Work.title r) s (Work.priority r) (Work.type r)
    (Work.created r) now (Work.description r) (Work.blocked_by r)
    (Work.labels r) reason (Work.log r).

Definition setLog (l : option jsstring) (now : jsstring) (r : Work.t) : Work.t :=
  Work.mk (Work.id r) (Work.title r) (Work.status r) (Work.priority r) (Work.type r)
    (Work.created r) now (Work.description r) (Work.blocked_by r)
    (Work.labels r) (Work.closed_reason r) l.

Definition setBlockedBy (b : option jsstring) (now : jsstring) (r : Work.t)
  : Work.t :=
  Work.mk (Work.id r) (Work.title r) (Work.status r) (Work.priority r) (Work.type r)
    (Work.created r) now (Work.description r) b
    (Work.labels r) (Work.closed_reason r) (Work.log r).

Definition setTitle (v now : jsstring) (r : Work.t) : Work.t :=
  Work.mk (Work.id r) v (Work.status r) (Work.priority r) (Work.type r)
    (Work.created r) now (Work.description r) (Work.blocked_by r)
    (Work.labels r) (Work.closed_reason r) (Work.log r).

Definition setPriority (v : Z) (now : jsstring) (r : Work.t) : Work.t :=
  Work.mk (Work.id r) (Work.title r) (Work.status r) v (Work.type r)
    (Work.created r) now (Work.description r) (Work.blocked_by r)
    (Work.labels r) (Work.closed_reason r) (Work.log r).

Definition setType (v now : jsstring) (r : Work.t) : Work.t :=
  Work.mk (Work.id r) (Work.title r) (Work.status r) (Work.priority r) v
    (Work.created r) now (Work.description r) (Work.blocked_by r)
    (Work.labels r) (Work.closed_reason r) (Work.log r).

Definition setDescription (v now : jsstring) (r : Work.t) : Work.t :=
  Work.mk (Work.id r) (Work.title r) (Work.status r) (Work.priority r) (Work.type r)
    (Work.created r) now (Some v) (Work.blocked_by r)
    (Work.labels r) (Work.closed_reason r) (Work.log r).

(** A number bound to the [priority INTEGER NOT NULL] column: NaN is stored
    as NULL, which the column refuses. *)
Definition bindPriority (n : option Z) : result Z :=
  match n with
  | Some z => Ok z
  | None => Throw ConstraintError
  end.

(** The arguments of a command. *)
Definition argv := list jsstring.
(** A JavaScript array of parsed values. *)
Definition jsons := list json.

Module commands.
Section WithClock.
(** The successive answers of [now()] during the command. *)
Variable clk : nat -> jsstring.

(** [add] (lines 165-188) *)
Definition add (args : argv) : M output :=
  let typeFlag := flagValue "--type=" args in
  let priorityFlag := flagValue "--priority=" args in
  let title := join [32] (filter notFlag args) in
  match title with
  | [] => exit1 (Usage (u "add"))
  | _ :: _ =>
      id <- query nextId ;;
      let timestamp := clk 0 in
      prio <- lift (if missing priorityFlag then Ok 2%Z
                    else rbind (parseInt (match priorityFlag with
                                          | Some p => p
                                          | None => []
                                          end) None) bindPriority) ;;
      runInsert (Work.mk id title (u "open") prio
                   (if missing typeFlag then u "task"
                    else match typeFlag with Some t => t | None => [] end)
                   timestamp timestamp None None None None None) ;;
      exportToJsonl ;;
      ret (Created id title)
  end.

(** [list] (lines 190-214): only the flag [--status=] is read. *)
Definition list (args : argv) : M output :=
  let statusFilter := flagValue "--status=" args in
  rows <- query (fun t =>
            orderBy le_priority_id
              (filter (fun r =>
                         match statusFilter with
                         | Some ((_ :: _) as s) => jseqb (Work.status r) s
                         | _ => negb (isClosed r)
                         end) t)) ;;
  match rows with
  | [] => ret NoWorkItemsFound
  | _ :: _ => items <- lift (mapM rowToWorkItem rows) ;; ret (Listed items)
  end.

(** [String(v)] on a parsed value, as a template literal, [join] and
    [new Date(v)] compute it: it throws exactly when it meets an object
    with a property [toString] of its own, which is not callable; an
    array is joined, its [null] entries as the empty text. *)
Fixpoint printable (v : json) : bool :=
  match v with
  | JArr els => forallb printable els
  | JObj props => negb (existsb (fun p => jseqb (fst p) (u "toString")) props)
  | _ => true
  end.

(** [v?.length] is truthy. *)
Definition hasLength (v : option json) : bool :=
  match v with
  | Some (JStr (_ :: _)) => true
  | Some (JArr (_ :: _)) => true
  | Some (JObj props) =>
      match prop (JObj props) (u "length") with
      | Some x => truthy x
      | None => false
      end
  | _ => false
  end.

(** [if (v?.length) console.log(`...${v.join(", ")}`)]: only an array
    has [join]. *)
Definition printJoined (v : option json) : result unit :=
  if hasLength v then
    match v with
    | Some (JArr els) =>
        if forallb printable els then Ok tt else Throw TypeError
    | _ => Throw TypeError
    end
  else Ok tt.

(** One entry of the log as lines 246-250 print it: [entry.agent] when it
    is truthy, [new Date(entry.time)] and [entry.text]; reading a
    property of [null] throws. *)
Definition printEntry (entry : json) : result unit :=
  match entry with
  | JNull => Throw TypeError
  | _ =>
      let shown (v : option json) :=
        match v with
        | Some x => printable x
        | None => true
        end in
      if match prop entry (u "agent") with
         | Some a => if truthy a then printable a else true
         | None => true
         end
         && shown (prop entry (u "time")) && shown (prop entry (u "text"))
      then Ok tt
      else Throw TypeError
  end.

(** [if (item.log?.length) { ...; item.log.forEach(...) }]: only an array
    has [forEach]. *)
Definition printLog (v : option json) : result unit :=
  if hasLength v then
    match v with
    | Some (JArr els) => rbind (mapM printEntry els) (fun _ => Ok tt)
    | _ => Throw TypeError
    end
  else Ok tt.

(** [show] (lines 216-252): what it prints is the item; the lines for
    [blocked_by], [labels] and [log] throw on values that are not lists
    of printable entries. *)
Definition show (args : argv) : M output :=
  match nth_error args 0 with
  | Some ((_ :: _) as id) =>
      row <- requireRow id ;;
      item <- lift (rowToWorkItem row) ;;
      lift (printJoined (blocked_by item)) ;;
      lift (printJoined (labels item)) ;;
      lift (printLog (log item)) ;;
      ret (Shown item)
  | _ => exit1 (Usage (u "show"))
  end.

(** [start] (lines 254-273) *)
Definition start (args : argv) : M output :=
  match nth_error args 0 with
  | Some ((_ :: _) as id) =>
      row <- requireRow id ;;
      run (updateById (padId id) (setStatus (u "in_progress") (clk 0))) ;;
      exportToJsonl ;;
      ret (Started (padId id) (Work.title row))
  | _ => exit1 (Usage (u "start"))
  end.

(** [close] (lines 275-296) *)
Definition close (args : argv) : M output :=
  match nth_error args 0 with
  | Some ((_ :: _) as id) =>
      row <- requireRow id ;;
      let reason :=
        if (1 <? List.length args)%nat then Some (join [32] (skipn 1 args))
        else None in
      run (updateById (padId id)
             (setStatusReason (u "closed") (clk 0) reason)) ;;
      exportToJsonl ;;
      ret (Closed (padId id) (Work.title row))
  | _ => exit1 (Usage (u "close"))
  end.

(** [reopen] (lines 298-318) *)
Definition reopen (args : argv) : M output :=
  match nth_error args 0 with
  | Some ((_ :: _) as id) =>
      row <- requireRow id ;;
      run (updateById (padId id) (setStatusReason (u "open") (clk 0) None)) ;;
      exportToJsonl ;;
      ret (Reopened (padId id) (Work.title row))
  | _ => exit1 (Usage (u "reopen"))
  end.

(** [row.x ? JSON.parse(row.x) : []] followed by a call of an array
    method: a parsed value that is no array has no [push]. *)
Definition parseOrEmpty (x : option jsstring) : result jsons :=
  rbind (parseOrUndefined x) (fun v =>
    match v with
    | None => Ok []
    | Some (JArr l) => Ok l
    | Some _ => Throw TypeError
    end).

(** The entry [log] appends: [time], [text] and, with [--agent=], [agent]. *)
Definition logEntry (time : jsstring) (agentFlag : option jsstring)
  (message : jsstring) : json :=
  JObj ([(u "time", JStr time); (u "text", JStr message)]
        ++ if missing agentFlag then []
           else [(u "agent",
                  JStr (match agentFlag with Some a => a | None => [] end))]).

(** [log] (lines 320-355) *)
Definition log (args : argv) : M output :=
  let id := nth_error args 0 in
  let agentFlag := flagValue "--agent=" args in
  let message := join [32] (filter notFlag (skipn 1 args)) in
  match id, message with
  | Some ((_ :: _) as id), _ :: _ =>
      row <- requireRow id ;;
      let entry := logEntry (clk 0) agentFlag message in
      existingLog <- lift (parseOrEmpty (Work.log row)) ;;
      run (updateById (padId id)
             (setLog (Some (stringify (JArr (existingLog ++ [entry]))))
                (clk 1))) ;;
      exportToJsonl ;;
      ret (Logged (padId id))
  | _, _ => exit1 (Usage (u "log"))
  end.

(** [row.blocked_by ? JSON.parse(row.blocked_by) : []] followed by
    [includes] or [indexOf] and then [push] or [splice].  A string has
    [includes] and [indexOf] of its own, with another meaning: outside the
    model. *)
Definition parseBlockedBy (x : option jsstring) : result jsons :=
  rbind (parseOrUndefined x) (fun v =>
    match v with
    | None => Ok []
    | Some (JArr l) => Ok l
    | Some (JStr _) => Throw Unmodelled
    | Some _ => Throw TypeError
    end).

(** [x === s] for a parsed value and a string. *)
Definition isString (s : jsstring) (x : json) : bool :=
  match x with
  | JStr s' => jseqb s' s
  | _ => false
  end.

(** [block] (lines 357-397) *)
Definition block (args : argv) : M output :=
  match nth_error args 0, nth_error args 1 with
  | Some ((_ :: _) as id), Some ((_ :: _) as blockerId) =>
      row <- requireRow id ;;
      blockerRow <- query (selectById (padId blockerId)) ;;
      match blockerRow with
      | None => exit1 (BlockerNotFound blockerId)
      | Some _ =>
          blockedBy <- lift (parseBlockedBy (Work.blocked_by row)) ;;
          let paddedBlockerId := padId blockerId in
          if existsb (isString paddedBlockerId) blockedBy
          then ret (AlreadyBlocked (padId id) paddedBlockerId)
          else
            run (updateById (padId id)
                   (setBlockedBy
                      (Some (stringify
                               (JArr (blockedBy ++ [JStr paddedBlockerId]))))
                      (clk 0))) ;;
            exportToJsonl ;;
            ret (NowBlocked (padId id) paddedBlockerId)
      end
  | _, _ => exit1 (Usage (u "block"))
  end.

(** [l.splice(l.indexOf(s), 1)] when [s] occurs in [l]. *)
Fixpoint removeFirst (s : jsstring) (l : jsons) : jsons :=
  match l with
  | [] => []
  | x :: l' => if isString s x then l' else x :: removeFirst s l'
  end.

(** [unblock] (lines 399-433) *)
Definition unblock (args : argv) : M output :=
  match nth_error args 0, nth_error args 1 with
  | Some ((_ :: _) as id), Some ((_ :: _) as blockerId) =>
      row <- requireRow id ;;
      blockedBy <- lift (parseBlockedBy (Work.blocked_by row)) ;;
      let paddedBlockerId := padId blockerId in
      if negb (existsb (isString paddedBlockerId) blockedBy)
      then ret (NotBlocked (padId id) paddedBlockerId)
      else
        let rest := removeFirst paddedBlockerId blockedBy in
        run (updateById (padId id)
               (setBlockedBy
                  (match rest with
                   | [] => None
                   | _ :: _ => Some (stringify (JArr rest))
                   end)
                  (clk 0))) ;;
        exportToJsonl ;;
        ret (BlockerRemoved (padId id) paddedBlockerId)
  | _, _ => exit1 (Usage (u "unblock"))
  end.

(** The ids in [new Set(... WHERE status = 'closed' ...)]. *)
Definition closedIds (t : table) : Datatypes.list jsstring :=
  List.map Work.id (filter isClosed t).

(** [closedIds.has(v)] *)
Definition has (ids : Datatypes.list jsstring) (v : json) : bool :=
  match v with
  | JStr s => existsb (jseqb s) ids
  | _ => false
  end.

(** The truth value of [v?.length]. *)
Definition lengthTruthy (v : option json) : bool :=
  match v with
  | Some (JArr l) => match l with [] => false | _ :: _ => true end
  | Some (JStr s) => match s with [] => false | _ :: _ => true end
  | Some (JObj props) =>
      match assoc (u "length") props with
      | Some x => truthy x
      | None => false
      end
  | _ => false
  end.

(** [v.every(p)] and [v.some(p)] exist on arrays only. *)
Definition asArray (v : option json) : result jsons :=
  match v with
  | Some (JArr l) => Ok l
  | _ => Throw TypeError
  end.

(** The filter of [ready]: no blocker, or all of them closed. *)
Definition isReady (closed : Datatypes.list jsstring) (item : WorkItem)
  : result bool :=
  if negb (lengthTruthy (blocked_by item)) then Ok true
  else rbind (asArray (blocked_by item)) (fun l => Ok (forallb (has closed) l)).

(** The filter of [blocked]: some blocker that is not closed. *)
Definition isBlocked (closed : Datatypes.list jsstring) (item : WorkItem)
  : result bool :=
  if negb (lengthTruthy (blocked_by item)) then Ok false
  else rbind (asArray (blocked_by item))
         (fun l => Ok (existsb (fun b => negb (has closed b)) l)).

(** [items.filter(p)] for a predicate that may throw. *)
Fixpoint filterM {A} (p : A -> result bool) (l : Datatypes.list A)
  : result (Datatypes.list A) :=
  match l with
  | [] => Ok []
  | a :: l' =>
      rbind (p a) (fun b =>
      rbind (filterM p l') (fun r => Ok (if b then a :: r else r)))
  end.

(** [ready] (lines 435-462) *)
Definition ready (args : argv) : M output :=
  rows <- query (fun t =>
            orderBy le_priority_id (filter (fun r => negb (isClosed r)) t)) ;;
  closed <- query closedIds ;;
  items <- lift (mapM rowToWorkItem rows) ;;
  readyItems <- lift (filterM (isReady closed) items) ;;
  match readyItems with
  | [] => ret NoReadyItems
  | _ :: _ => ret (ReadyItems readyItems)
  end.

(** [blocked_by IS NOT NULL] *)
Definition hasBlockedBy (r : Work.t) : bool :=
  match Work.blocked_by r with
  | Some _ => true
  | None => false
  end.

(** [item.blocked_by!.filter(id => !closedIds.has(id))] *)
Definition openBlockers (closed : Datatypes.list jsstring) (item : WorkItem)
  : jsons :=
  match blocked_by item with
  | Some (JArr l) => filter (fun b => negb (has closed b)) l
  | _ => []
  end.

(** [blocked] (lines 464-494) *)
Definition blocked (args : argv) : M output :=
  rows <- query (fun t =>
            orderBy le_priority_id
              (filter (fun r => negb (isClosed r) && hasBlockedBy r) t)) ;;
  closed <- query closedIds ;;
  items <- lift (mapM rowToWorkItem rows) ;;
  blockedItems <- lift (filterM (isBlocked closed) items) ;;
  match blockedItems with
  | [] => ret NoBlockedItems
  | _ :: _ =>
      ret (BlockedItems
             (List.map (fun i => (i, openBlockers closed i)) blockedItems))
  end.

(** [validFields] (line 515) *)
Definition validFields : Datatypes.list jsstring :=
  [u "title"; u "priority"; u "type"; u "description"].

(** [UPDATE work SET ${field} = ?, updated = ?] for a valid field. *)
Definition setField (field value now : jsstring) : result (Work.t -> Work.t) :=
  if jseqb field (u "priority") then
    rbind (rbind (parseInt value (Some 10)) bindPriority)
      (fun z => Ok (setPriority z now))
  else if jseqb field (u "title") then Ok (setTitle value now)
  else if jseqb field (u "type") then Ok (setType value now)
  else Ok (setDescription value now).

(** [edit] (lines 496-527) *)
Definition edit (args : argv) : M output :=
  match nth_error args 0, nth_error args 1, join [32] (skipn 2 args) with
  | Some ((_ :: _) as id), Some ((_ :: _) as field), (_ :: _) as value =>
      row <- requireRow id ;;
      if negb (existsb (jseqb field) validFields)
      then exit1 (UnknownField field)
      else
        stmt <- lift (setField field value (clk 0)) ;;
        run (updateById (padId id) stmt) ;;
        exportToJsonl ;;
        ret (Updated (padId id))
  | _, _, _ => exit1 (Usage (u "edit"))
  end.

(** *** Import *)

(** A value bound to a TEXT column: a number is stored as its text.
    [Ok None] is NULL. *)
Definition bindText (v : option json) : result (option jsstring) :=
  match v with
  | None | Some JNull => Ok None
  | Some (JStr s) => Ok (Some s)
  | Some (JNum z) => Ok (Some (String_of_number z))
  | Some _ => Throw Unmodelled
  end.

(** A value bound to the INTEGER column. *)
Definition bindInteger (v : option json) : result (option Z) :=
  match v with
  | None | Some JNull => Ok None
  | Some (JNum z) => Ok (Some z)
  | Some _ => Throw Unmodelled
  end.

(** [v || null] *)
Definition orNull (v : option json) : option json :=
  match v with
  | Some x => if truthy x then Some x else None
  | None => None
  end.

(** [v ? JSON.stringify(v) : null] *)
Definition stringifyOrNull (v : option json) : option jsstring :=
  match orNull v with
  | Some x => Some (stringify x)
  | None => None
  end.

(** A NOT NULL column refuses NULL. *)
Definition notNull {A} (x : option A) : result A :=
  match x with
  | Some a => Ok a
  | None => Throw ConstraintError
  end.

(** The row [stmt.run(item.id, ..., item.log ...)] asks SQLite to insert.
    Reading a property of [null] throws; a NULL in a NOT NULL column is
    refused; a NULL id is outside the model. *)
Definition rowOfItem (item : json) : result Work.t :=
  match item with
  | JNull => Throw TypeError
  | _ =>
      rbind (bindText (prop item (u "id"))) (fun id =>
      rbind (bindText (prop item (u "title"))) (fun title =>
      rbind (bindText (prop item (u "status"))) (fun status =>
      rbind (bindInteger (prop item (u "priority"))) (fun priority =>
      rbind (bindText (prop item (u "type"))) (fun type =>
      rbind (bindText (prop item (u "created"))) (fun created =>
      rbind (bindText (prop item (u "updated"))) (fun updated =>
      rbind (bindText (orNull (prop item (u "description")))) (fun description =>
      rbind (bindText (orNull (prop item (u "closed_reason")))) (fun reason =>
      match id with
      | None => Throw Unmodelled
      | Some id =>
          rbind (notNull title) (fun title =>
          rbind (notNull status) (fun status =>
          rbind (notNull priority) (fun priority =>
          rbind (notNull type) (fun type =>
          rbind (notNull created) (fun created =>
          rbind (notNull updated) (fun updated =>
          Ok (Work.mk id title status priority type created updated
                description
                (stringifyOrNull (prop item (u "blocked_by")))
                (stringifyOrNull (prop item (u "labels")))
                reason
                (stringifyOrNull (prop item (u "log"))))))))))
      end)))))))))
  end.

(** [for (const item of items) stmt.run(...)] *)
Fixpoint insertAll (items : jsons) : M unit :=
  match items with
  | [] => ret tt
  | item :: rest =>
      row <- lift (rowOfItem item) ;;
      runInsert row ;;
      insertAll rest
  end.

(** [import] (lines 529-574) *)
Definition import (args : argv) : M output :=
  file <- (fun w => (w, Ok (jsonl w))) ;;
  match file with
  | None => exit1 NoJsonlFile
  | Some text =>
      match trim text with
      | [] => ret NoItemsToImport
      | _ :: _ =>
          items <- lift (decodeJsonl text) ;;
          run (fun _ => []) ;;
          insertAll items ;;
          ret (Imported (List.length items))
      end
  end.

(** [export] (lines 576-581) *)
Definition export (args : argv) : M output :=
  exportToJsonl ;; ret Exported.

(** [init] in a directory that holds [.work] already. *)
Definition init (args : argv) : M output := ret AlreadyExists.

(** [help] prints the usage. *)
Definition help (args : argv) : M output := ret Help.

(** The own properties of the object [commands]. *)
Definition entries : Datatypes.list (jsstring * (argv -> M output)) :=
  [(u "init", init); (u "add", add); (u "list", list); (u "show", show);
   (u "start", start); (u "close", close); (u "reopen", reopen);
   (u "log", log); (u "block", block); (u "unblock", unblock);
   (u "ready", ready); (u "blocked", blocked); (u "edit", edit);
   (u "import", import); (u "export", export); (u "help", help)].

(** [commands[cmd]] among the own properties. *)
Fixpoint lookup (cmd : jsstring)
  (l : Datatypes.list (jsstring * (argv -> M output)))
  : option (argv -> M output) :=
  match l with
  | [] => None
  | (k, f) :: rest => if jseqb k cmd then Some f else lookup cmd rest
  end.

(** Names [commands[cmd]] finds on [Object.prototype]; what they do when
    called is outside the model. *)
Definition inherited : Datatypes.list jsstring :=
  [u "constructor"; u "__proto__"; u "hasOwnProperty"; u "isPrototypeOf";
   u "propertyIsEnumerable"; u "toLocaleString"; u "toString"; u "valueOf";
   u "__defineGetter__"; u "__defineSetter__"; u "__lookupGetter__";
   u "__lookupSetter__"].

(** The main dispatch on [process.argv.slice(2)] (lines 612-623). *)
Definition main (argv : argv) : M output :=
  match argv with
  | [] => help []
  | cmd :: args =>
      if match cmd with [] => true | _ :: _ => false end
         || jseqb cmd (u "help") || jseqb cmd (u "--help")
         || jseqb cmd (u "-h")
      then help []
      else
        match lookup cmd entries with
        | Some f => f args
        | None =>
            if existsb (jseqb cmd) inherited then lift (Throw Unmodelled)
            else exit1 (UnknownCommand cmd)
        end
  end.
End WithClock.
End commands.

(** ** Well-formed values *)

Fixpoint distinct (ks : list jsstring) : bool :=
  match ks with
  | [] => true
  | k :: r => negb (existsb (jseqb k) r) && distinct r
  end.

(** A value as [JSON.parse] builds them: the numbers are safe integers and
    an object holds a key once. *)
Fixpoint json_ok (v : json) : bool :=
  match v with
  | JNum z => isSafeInteger z
  | JArr els => forallb json_ok els
  | JObj props =>
      distinct (List.map fst props)
      && forallb (fun p => json_ok (snd p)) props
  | _ => true
  end.

Definition opt_ok (v : option json) : bool :=
  match v with
  | Some x => json_ok x
  | None => true
  end.

(** A work item whose numbers are safe integers and whose parsed fields are
    values of JSON. *)
Definition item_ok (i : WorkItem) : bool :=
  isSafeInteger (priority i) && opt_ok (blocked_by i) && opt_ok (labels i)
  && opt_ok (log i).

Fixpoint depth (v : json) : nat :=
  match v with
  | JArr els => S (fold_right (fun x m => Nat.max (depth x) m) O els)
  | JObj props => S (fold_right (fun p m => Nat.max (depth (snd p)) m) O props)
  | _ => O
  end.

Section JsonInduction.
Variable P : json -> Prop.
Hypothesis HNull : P JNull.
Hypothesis HBool : forall b, P (JBool b).
Hypothesis HNum : forall z, P (JNum z).
Hypothesis HStr : forall s, P (JStr s).
Hypothesis HArr : forall els, Forall P els -> P (JArr els).
Hypothesis HObj :
  forall props, Forall (fun p => P (snd p)) props -> P (JObj props).

Fixpoint json_induction (v : json) : P v :=
  match v with
  | JNull => HNull
  | JBool b => HBool b
  | JNum z => HNum z
  | JStr s => HStr s
  | JArr els =>
      HArr els ((fix all (l : list json) : Forall P l :=
               match l with
               | [] => Forall_nil P
               | x :: l' => Forall_cons x (json_induction x) (all l')
               end) els)
  | JObj props =>
      HObj props ((fix all (l : list (jsstring * json))
               : Forall (fun p => P (snd p)) l :=
               match l with
               | [] => Forall_nil _
               | p :: l' =>
                   @Forall_cons _ (fun p => P (snd p)) p l'
                     (json_induction (snd p)) (all l')
               end) props)
  end.
End JsonInduction.

(** ** Reading a record back *)

(** The object [o] holds the fields of the item [i]: every property the
    program reads has the value of the field, and an [undefined] field is
    absent. *)
Definition same_fields (o : json) (i : WorkItem) : Prop :=
  prop o (u "id") = Some (JStr (id i))
  /\ prop o (u "title") = Some (JStr (title i))
  /\ prop o (u "status") = Some (JStr (status i))
  /\ prop o (u "priority") = Some (JNum (priority i))
  /\ prop o (u "type") = Some (JStr (type i))
  /\ prop o (u "created") = Some (JStr (created i))
  /\ prop o (u "updated") = Some (JStr (updated i))
  /\ prop o (u "description") = option_map JStr (description i)
  /\ prop o (u "blocked_by") = blocked_by i
  /\ prop o (u "labels") = labels i
  /\ prop o (u "closed_reason") = option_map JStr (closed_reason i)
  /\ prop o (u "log") = log i.

(** Two sample items: one with every optional field, one with none. *)
Definition sample_full : WorkItem :=
  {| id := u "001"; title := u "Fix" ++ [32; 34; 98; 117; 103; 34]; status := u "closed";
     priority := 1; type := u "bug";
     created := u "2025-01-04T12:00:00.000Z";
     updated := u "2025-01-05T08:30:00.000Z";
     description := Some [76; 105; 110; 101; 10; 233; 55357; 56832; 55296];
     blocked_by := Some (JArr [JStr (u "002"); JStr (u "007")]);
     labels := Some (JArr [JStr (u "urgent")]);
     closed_reason := Some (u "done");
     log := Some (JArr [JObj [(u "time", JStr (u "T1"));
                              (u "text", JStr (u "hello"));
                              (u "agent", JStr (u "me"))]]) |}.

Definition sample_plain : WorkItem :=
  {| id := u "002"; title := u "Second"; status := u "open";
     priority := 2; type := u "task";
     created := u "2025-01-04T12:00:00.000Z";
     updated := u "2025-01-04T12:00:00.000Z";
     description := None; blocked_by := None; labels := None;
     closed_reason := None; log := None |}.

(** ** Well-typed stores *)

(** A row whose JSON columns hold JSON and whose [blocked_by] is a list, as
    the commands write them. *)
Definition row_ok (r : Work.t) : bool :=
  match rowToWorkItem r with
  | Ok i =>
      match blocked_by i with
      | None | Some (JArr _) => true
      | Some _ => false
      end
  | Throw _ => false
  end.

(** The blockers of an item: the entries of [blocked_by], none when it is
    absent. *)
Definition blockers (i : WorkItem) : list json :=
  match blocked_by i with
  | Some (JArr l) => l
  | _ => []
  end.

(** The blocker [b] names a row of the table whose status is closed. *)
Definition closedIn (t : table) (b : json) : Prop :=
  exists r, In r t /\ b = JStr (Work.id r) /\ Work.status r = u "closed".

(** The file is the export of the table. *)
Definition exported (w : World) : Prop :=
  exists items,
    allItems (db w) = Ok items /\ jsonl w = Some (encodeJsonl items).

(** The largest numeric id of the table, 0 when it is empty. *)
Definition maxNumericId (t : table) : Z :=
  fold_right (fun r m => Z.max (castInteger (Work.id r)) m) 0%Z t.

(** An id as the allocator writes them: decimal digits, with a value that
    leaves room for the next one among the safe integers. *)
Definition id_ok (s : jsstring) : bool :=
  match s with
  | [] => false
  | _ :: _ => forallb isDigit s && (digits_value s <? 9007199254740991)
  end.

Definition ids_ok (t : table) : bool :=
  forallb (fun r => id_ok (Work.id r)) t.

Definition priorities_ok (t : table) : bool :=
  forallb (fun r => isSafeInteger (Work.priority r)) t.

(** Sample rows: only the id, the status, the priority and the blockers
    vary. *)
Definition sample_row (id status : string) (p : Z) (bb : list string) : Work.t :=
  Work.mk (u id) (u "Sample") (u status) p (u "task") (u "T0") (u "T0") None
    (match bb with
     | [] => None
     | _ :: _ => Some (stringify (JArr (List.map (fun b => JStr (u b)) bb)))
     end)
    None None None.

(** 001 is closed; 002 waits for 001 and 003; 003 is open; 004 waits for
    001 only; 005 waits for 999, which no row has. *)
Definition sample_table : table :=
  [sample_row "001" "closed" 2 [];
   sample_row "002" "open" 1 ["001"; "003"];
   sample_row "003" "in_progress" 2 [];
   sample_row "004" "open" 0 ["001"];
   sample_row "005" "open" 2 ["999"]]%string.

Definition sample_world : World :=
  {| db := sample_table; jsonl := Some [] |}.

(** The items a query printed. *)
Definition listed (o : result output) : list WorkItem :=
  match o with
  | Ok (Listed l) | Ok (ReadyItems l) => l
  | Ok (BlockedItems l) => List.map fst l
  | _ => []
  end.

(** The items [blocked] printed, each with its open blockers. *)
Definition reported (o : result output) : list (WorkItem * list json) :=
  match o with
  | Ok (BlockedItems l) => l
  | _ => []
  end.

(** ** The line of an item in a listing *)

(** The mark in front of the line: a check mark for [closed], a triangle
    for [in_progress], a circle for any other status. *)
Definition statusIcon (status : jsstring) : N :=
  if jseqb status (u "closed") then 10003
  else if jseqb status (u "in_progress") then 9654
  else 9675.

(** [formatWork] (lines 114-124); [list], [ready] and [blocked] call it
    without [verbose]. *)
Definition formatWork (item : WorkItem) (verbose : bool) : jsstring :=
  let line :=
    statusIcon (status item) :: 32 :: id item ++ u " [P"
    ++ String_of_number (priority item) ++ u "] " ++ title item in
  match verbose, description item with
  | true, Some ((_ :: _) as d) => line ++ 10 :: u "   " ++ d
  | _, _ => line
  end.

(** ** Finding the store of a checkout *)

(** An absolute path: its components from the innermost to the outermost;
    the empty list is the root directory. *)
Definition path := list jsstring.

Fixpoint patheqb (a b : path) : bool :=
  match a, b with
  | [], [] => true
  | x :: a', y :: b' => jseqb x y && patheqb a' b'
  | _, _ => false
  end.

(** [findWorkDir] (lines 30-40) from the directory [dir]: the loop stops at
    the root without looking into it.  [existsSync] answers for the paths
    the loop asks about. *)
Fixpoint findWorkDir (existsSync : path -> bool) (dir : path) : option path :=
  match dir with
  | [] => None
  | _ :: parent =>
      if existsSync (u ".work" :: dir) then Some (u ".work" :: dir)
      else findWorkDir existsSync parent
  end.

Module checkout.
(** The [.work] directories of a file system, each with the store it
    holds. *)
Definition Disk := path -> option World.

Definition existsSync (d : Disk) (p : path) : bool :=
  match d p with
  | Some _ => true
  | None => false
  end.

(** What [init] prints. *)
Inductive message : Type :=
| DirectoryExists
| Initialized.

(** The store [init] creates: an empty table and an empty file. *)
Definition fresh : World := {| db := []; jsonl := Some [] |}.

(** [init] (lines 132-163) in the current directory [cwd]. *)
Definition init (cwd : path) (d : Disk) : Disk * message :=
  let workDir := u ".work" :: cwd in
  if existsSync d workDir then (d, DirectoryExists)
  else (fun p => if patheqb p workDir then Some fresh else d p, Initialized).

(** The answer of a function that may end the program with "No .work
    directory found". *)
Inductive located (A : Type) : Type :=
| Found (a : A)
| NotInitialized.
Arguments Found {A} a.
Arguments NotInitialized {A}.

(** [getWorkDir] (lines 42-49) *)
Definition getWorkDir (d : Disk) (cwd : path) : located path :=
  match findWorkDir (existsSync d) cwd with
  | Some workDir => Found workDir
  | None => NotInitialized
  end.

(** [getDb] (lines 51-75): the store of the directory found; the
    database and its table are created when they are missing, which a
    table without rows stands for. *)
Definition getDb (d : Disk) (cwd : path) : located (path * World) :=
  match getWorkDir d cwd with
  | Found workDir =>
      match d workDir with
      | Some w => Found (workDir, w)
      | None => NotInitialized
      end
  | NotInitialized => NotInitialized
  end.

(** The checks of its arguments that a command makes before it opens
    the store: whether it exits with its usage message. *)
Definition usageExit (cmd : jsstring) (args : argv) : bool :=
  let empty (s : jsstring) :=
    match s with [] => true | _ :: _ => false end in
  if jseqb cmd (u "add") then empty (join [32] (filter notFlag args))
  else if existsb (jseqb cmd) [u "show"; u "start"; u "close"; u "reopen"]
  then missing (nth_error args 0)
  else if jseqb cmd (u "log")
  then missing (nth_error args 0)
       || empty (join [32] (filter notFlag (skipn 1 args)))
  else if existsb (jseqb cmd) [u "block"; u "unblock"]
  then missing (nth_error args 0) || missing (nth_error args 1)
  else if jseqb cmd (u "edit")
  then missing (nth_error args 0) || missing (nth_error args 1)
       || empty (join [32] (skipn 2 args))
  else false.

(** How a run of the program ends. *)
Inductive outcome : Type :=
| Ran (r : result output)
| NoWorkDirectory
| Init (m : message).

(** The program started in the directory [cwd] with the arguments
    [argv]: the dispatch of lines 612-623, [init] on the current
    directory, and any other command on the store that [getDb] finds. *)
Definition work (clk : nat -> jsstring) (cwd : path) (argv : argv)
  (d : Disk) : Disk * outcome :=
  match argv with
  | [] => (d, Ran (Ok Help))
  | cmd :: args =>
      if match cmd with [] => true | _ :: _ => false end
         || jseqb cmd (u "help") || jseqb cmd (u "--help")
         || jseqb cmd (u "-h")
      then (d, Ran (Ok Help))
      else if jseqb cmd (u "init")
      then let (d', m) := init cwd d in (d', Init m)
      else
        match commands.lookup cmd (commands.entries clk) with
        | Some f =>
            if usageExit cmd args
            then (d, Ran (Throw (Exit1 (Usage cmd))))
            else
              match getDb d cwd with
              | Found (workDir, w) =>
                  let (w', r) := f args w in
                  (fun p => if patheqb p workDir then Some w' else d p,
                   Ran r)
              | NotInitialized => (d, NoWorkDirectory)
              end
        | None =>
            (d, Ran (if existsb (jseqb cmd) commands.inherited
                     then Throw Unmodelled
                     else Throw (Exit1 (UnknownCommand cmd))))
        end
  end.
End checkout.

(** ** Notions of the statements *)

(** The text does not go on with a digit. *)
Definition not_digit_first (s : jsstring) : Prop :=
  match s with
  | c :: _ => isDigit c = false
  | [] => True
  end.

(** What may follow a value inside a JSON text. *)
Definition delim (rest : jsstring) : Prop :=
  match rest with
  | [] => True
  | c :: _ => c = 44 \/ c = 93 \/ c = 125
  end.

(** The first code unit of a serialized value: no whitespace and no closing
    bracket. *)
Definition opens_value (c : N) : Prop :=
  isJsonWs c = false /\ (c =? 93) = false /\ (c =? 125) = false.

(** The text of one member of an object. *)
Definition member_text (p : jsstring * json) : jsstring :=
  QuoteJSONString (fst p) ++ 58 :: stringify (snd p).

(** The text holds no line feed. *)
Definition no_nl (s : jsstring) : Prop := Forall (fun c => c <> 10) s.

(** The lines of an export open and close with a brace. *)
Definition braced (s : jsstring) : Prop := exists m, s = 123 :: m ++ [125].

(** The item of a row whose JSON columns parse. *)
Definition item_of (r : Work.t) : WorkItem :=
  match rowToWorkItem r with
  | Ok i => i
  | Throw _ => sample_plain
  end.

(** The answers of the two filters as functions of a well-typed item.
    [ready]: every blocker is closed. *)
Definition ready_b (t : table) (i : WorkItem) : bool :=
  forallb (commands.has (commands.closedIds t)) (blockers i).

(** [blocked]: some blocker is not closed. *)
Definition blocked_b (t : table) (i : WorkItem) : bool :=
  existsb (fun b => negb (commands.has (commands.closedIds t) b)) (blockers i).

(** The rows the two queries convert: those that are not closed, by
    priority and numeric id. *)
Definition ready_rows (t : table) : table :=
  orderBy le_priority_id (filter (fun r => negb (isClosed r)) t).

(** The same with a [blocked_by] that is not NULL. *)
Definition blocked_rows (t : table) : table :=
  orderBy le_priority_id
    (filter (fun r => negb (isClosed r) && commands.hasBlockedBy r) t).

(** What [ready] prints for the items it kept. *)
Definition ready_output (l : list WorkItem) : output :=
  match l with
  | [] => NoReadyItems
  | _ :: _ => ReadyItems l
  end.

(** What [blocked] prints for the items it kept. *)
Definition blocked_output (t : table) (l : list WorkItem) : output :=
  match l with
  | [] => NoBlockedItems
  | _ :: _ =>
      BlockedItems
        (List.map (fun i => (i, commands.openBlockers (commands.closedIds t) i))
           l)
  end.

(** A text column [c] shows as [v]: absent when it is NULL or empty. *)
Definition shows_text (c v : option jsstring) : Prop :=
  match c with
  | Some ((_ :: _) as s) => v = Some s
  | _ => v = None
  end.

(** A JSON column [c] shows as [v]: the value its text stands for, absent
    when the column is NULL or empty. *)
Definition shows_json (c : option jsstring) (v : option json) : Prop :=
  match c with
  | Some ((_ :: _) as s) => exists j, JSON_parse s = Ok j /\ v = Some j
  | _ => v = None
  end.

(** The item [i] shows the row [r]: column by column. *)
Definition shows (i : WorkItem) (r : Work.t) : Prop :=
  id i = Work.id r
  /\ title i = Work.title r
  /\ status i = Work.status r
  /\ priority i = Work.priority r
  /\ type i = Work.type r
  /\ created i = Work.created r
  /\ updated i = Work.updated r
  /\ shows_text (Work.description r) (description i)
  /\ shows_json (Work.blocked_by r) (blocked_by i)
  /\ shows_json (Work.labels r) (labels i)
  /\ shows_text (Work.closed_reason r) (closed_reason i)
  /\ shows_json (Work.log r) (log i).





(** The reason [close] stores for the arguments after the id. *)
Definition close_reason (rest : argv) : option jsstring :=
  match rest with
  | [] => None
  | _ :: _ => Some (join [32] rest)
  end.

(** The sample store without an interchange file. *)
Definition absent_world : World := {| db := sample_table; jsonl := None |}.

(** The record [x] cannot follow the rows [rows] into the table, and the
    command ends with [e]: the values of [x] are refused, or its id is the
    id of one of [rows]. *)
Definition refused (rows : table) (x : json) (e : exn) : Prop :=
  commands.rowOfItem x = Throw e
  \/ exists row r,
       commands.rowOfItem x = Ok row /\ e = ConstraintError
       /\ In r rows /\ Work.id r = Work.id row.

(** A file with the same record twice. *)
Definition duplicate_file : jsstring := encodeJsonl [sample_plain; sample_plain].

(** The sample store next to that file. *)
Definition duplicate_world : World :=
  {| db := sample_table; jsonl := Some duplicate_file |}.

(** An open row of a given type. *)
Definition typed_row (id type : string) (p : Z) : Work.t :=
  Work.mk (u id) (u "Sample") (u "open") p (u type) (u "T0") (u "T0")
    None None None None None.

(** 001 is a task, 002 a feature. *)
Definition typed_world : World :=
  {| db := [typed_row "001" "task" 2; typed_row "002" "feature" 2];
     jsonl := Some [] |}.

(** What [list] prints for the items it found. *)
Definition list_output (l : list WorkItem) : output :=
  match l with
  | [] => NoWorkItemsFound
  | _ :: _ => Listed l
  end.

(** [a] comes before [b]: a smaller priority, or the same priority and a
    numeric id that is not larger. *)
Definition before (a b : Work.t) : Prop :=
  (Work.priority a < Work.priority b)%Z
  \/ (Work.priority a = Work.priority b
      /\ (castInteger (Work.id a) <= castInteger (Work.id b))%Z).

(** The command names of the label and claim families. *)
Definition label_commands : list jsstring :=
  [u "label"; u "unlabel"; u "labels"; u "claim"; u "unclaim"; u "mine"].

(** [m] can return [a]. *)
Definition produces {A} (m : M A) (a : A) : Prop :=
  exists w w', m w = (w', Ok a).

(** [m] leaves the state alone. *)
Definition pure {A} (m : M A) : Prop := forall w, fst (m w) = w.

(** The table [t'] has the rows of [t] under the same ids in the same order,
    and safe priorities if [t] has. *)
Definition same_rows (t t' : table) : Prop :=
  List.map Work.id t' = List.map Work.id t
  /\ (priorities_ok t = true -> priorities_ok t' = true).

(** [m] never adds nor removes a row. *)
Definition keeps {A} (m : M A) : Prop :=
  forall w, same_rows (db w) (db (fst (m w))).

(** A row update that keeps the id and a safe priority. *)
Definition stable (f : Work.t -> Work.t) : Prop :=
  forall r, Work.id (f r) = Work.id r
            /\ (isSafeInteger (Work.priority r) = true ->
                isSafeInteger (Work.priority (f r)) = true).

(** The numeric id of a row. *)
Definition castId (r : Work.t) : Z := castInteger (Work.id r).

(** The table [t'] is [t] with one more row under the id the allocator
    gives for [t]. *)
Definition allocated (t t' : table) : Prop :=
  exists r, t' = t ++ [r] /\ Work.id r = nextId t
            /\ isSafeInteger (Work.priority r) = true.



(** A run of [m] that succeeds leaves the file as the export of the
    table. *)
Definition exports {A} (m : M A) : Prop :=
  forall w w' a, m w = (w', Ok a) -> exported w'.

(** ... or leaves the state as it was. *)
Definition exports_or_skips {A} (m : M A) : Prop :=
  forall w w' a, m w = (w', Ok a) -> exported w' \/ w' = w.

(** The record [o] of the file holds the row [r]: its properties are the
    columns of the row, the JSON columns as the values their text stands
    for, a NULL or empty column absent. *)
Definition holds_row (o : json) (r : Work.t) : Prop :=
  exists i, same_fields o i /\ shows i r.

(** The rows [rows] are in ascending order of their numeric ids. *)
Definition ascending_ids (rows : table) : Prop :=
  StronglySorted
    (fun a b => (castInteger (Work.id a) <= castInteger (Work.id b))%Z) rows.

(** The text of the file decodes, record by record, to the whole table in
    ascending order of the numeric ids. *)
Definition consistent (w : World) : Prop :=
  exists text records rows,
    jsonl w = Some text
    /\ decodeJsonl text = Ok records
    /\ Permutation rows (db w)
    /\ ascending_ids rows
    /\ Forall2 holds_row records rows.

(** The commands that always write the file when they succeed. *)
Definition exporting_commands : list jsstring :=
  [u "add"; u "start"; u "close"; u "reopen"; u "edit"; u "log"].

(** The commands that write the file unless there is nothing to change. *)
Definition blocking_commands : list jsstring := [u "block"; u "unblock"].

(** An empty store next to a file with the records 002 and 001 in this
    order. *)
Definition reversed_world : World :=
  {| db := [];
     jsonl := Some (encodeJsonl [item_of (sample_row "002" "open" 2 []);
                                 item_of (sample_row "001" "open" 2 [])]) |}.

(** The state after a list of command lines, whatever each one answers. *)
Definition session (clk : nat -> jsstring) (lines : list (list string))
  (w : World) : World :=
  fold_left (fun w line => fst (commands.main clk (List.map u line) w)) lines w.

(** The ids a query printed. *)
Definition listed_ids (o : result output) : list jsstring :=
  List.map id (listed o).

(** A store and a file as [init] leaves them. *)
Definition empty_world : World := {| db := []; jsonl := Some [] |}.

(** Two items, the second blocked by the first. *)
Definition blocked_session : World :=
  session (fun _ => u "T0")
    [["add"; "Fix"; "bug"; "--priority=1"; "--type=bug"];
     ["add"; "Second"];
     ["block"; "2"; "1"]]%string
    empty_world.

(** [m] writes nothing and does not look at the file. *)
Definition readonly {A} (m : M A) : Prop :=
  forall w,
    fst (m w) = w
    /\ forall f, snd (m {| db := db w; jsonl := f |}) = snd (m w).

(** The commands that ask and answer. *)
Definition query_commands : list jsstring :=
  [u "list"; u "show"; u "ready"; u "blocked"; u "help"; u "--help"; u "-h"].

(** An exception of the runtime, as opposed to an exit of the program's
    own. *)
Definition runtime_error (e : exn) : Prop :=
  match e with
  | Exit1 _ => False
  | _ => True
  end.

(** The expression [r] does not exit. *)
Definition throws_runtime {A} (r : result A) : Prop :=
  forall e, r = Throw e -> runtime_error e.

(** A run of [m] that exits with a diagnostic has written nothing. *)
Definition guarded {A} (m : M A) : Prop :=
  forall w w' r, m w = (w', Throw (Exit1 r)) -> w' = w.

(** No run of [m] exits with a diagnostic. *)
Definition quiet {A} (m : M A) : Prop :=
  forall w w' e, m w = (w', Throw e) -> runtime_error e.

(** The commands that take the id of an item as their first argument. *)
Definition id_commands : list jsstring :=
  [u "show"; u "start"; u "close"; u "reopen"; u "log"; u "block";
   u "unblock"; u "edit"].

(** The same answer, or "not found" with the id as it was typed. *)
Definition same_answer (id : jsstring) (short padded : World * result output)
  : Prop :=
  fst padded = fst short
  /\ (snd padded = snd short
      \/ (snd short = Throw (Exit1 (NotFound id))
          /\ snd padded = Throw (Exit1 (NotFound (padId id))))).

(** The rows [list] selects: those of the status asked for, or those not
    closed when no status is given or an empty one. *)
Definition selected (statusFilter : option jsstring) (r : Work.t) : bool :=
  match statusFilter with
  | Some ((_ :: _) as s) => jseqb (Work.status r) s
  | _ => negb (isClosed r)
  end.

(** The order of a listing on the items: by priority, then by numeric
    id. *)
Definition listed_before (a b : WorkItem) : Prop :=
  (priority a < priority b)%Z
  \/ (priority a = priority b
      /\ (castInteger (id a) <= castInteger (id b))%Z).

(** A field that [import] keeps: absent, or a value that counts as true
    (an array or an object, a number other than 0, a text that is not
    empty). *)
Definition kept (v : option json) : bool :=
  match v with
  | Some x => truthy x
  | None => true
  end.

(** A row that the interchange file can carry: a safe priority, and JSON
    columns that parse to values [import] keeps. *)
Definition portable (r : Work.t) : bool :=
  isSafeInteger (Work.priority r)
  && match rowToWorkItem r with
     | Ok i => kept (blocked_by i) && kept (labels i) && kept (log i)
     | Throw _ => false
     end.

(** The row [import] inserts for the record of an item. *)
Definition imported_row (i : WorkItem) : Work.t :=
  Work.mk (id i) (title i) (status i) (priority i) (type i) (created i)
    (updated i) (description i) (option_map stringify (blocked_by i))
    (option_map stringify (labels i)) (closed_reason i)
    (option_map stringify (log i)).

(** A text field as [rowToWorkItem] leaves it: never the empty text. *)
Definition filled (x : option jsstring) : Prop := x <> Some [].


(** The file [exportToJsonl] writes for a well-typed table. *)
Definition exportOf (t : table) : jsstring :=
  encodeJsonl (List.map item_of (orderBy le_id t)).

(** The column [unblock] writes for the blockers that are left. *)
Definition blockersColumn (l : jsons) : option jsstring :=
  match l with
  | [] => None
  | _ :: _ => Some (stringify (JArr l))
  end.

(** The priority [add] binds: 2, or what [parseInt] reads from the value of
    [--priority=]. *)
Definition addPriority (args : argv) : result Z :=
  if missing (flagValue "--priority=" args) then Ok 2%Z
  else rbind (parseInt (match flagValue "--priority=" args with
                        | Some p => p
                        | None => []
                        end) None) bindPriority.

(** The type [add] binds: [task], or the value of [--type=]. *)
Definition addType (args : argv) : jsstring :=
  if missing (flagValue "--type=" args) then u "task"
  else match flagValue "--type=" args with Some t => t | None => [] end.

(** The row [add] inserts. *)
Definition addedRow (clk : nat -> jsstring) (args : argv) (key title : jsstring)
  (p : Z) : Work.t :=
  Work.mk key title (u "open") p (addType args) (clk 0%nat) (clk 0%nat)
    None None None None None.

(** A store with one open item. *)
Definition one_row_world : World :=
  {| db := [sample_row "001" "open" 2 []]; jsonl := Some [] |}.

(** [m] leaves the given columns of every row as they are, and the rows in
    place. *)
Definition preserves {X A} (columns : Work.t -> X) (m : M A) : Prop :=
  forall w, List.map columns (db (fst (m w))) = List.map columns (db w).

(** The columns no update statement of the program names. *)
Definition fixed (r : Work.t) : jsstring * jsstring * option jsstring :=
  (Work.id r, Work.created r, Work.labels r).

(** The columns the status commands do not name. *)
Definition content (r : Work.t)
  : jsstring * Z * jsstring * option jsstring * option jsstring
    * option jsstring :=
  (Work.title r, Work.priority r, Work.type r, Work.description r,
   Work.blocked_by r, Work.log r).

(** The commands that change the status of an item. *)
Definition status_commands : list jsstring :=
  [u "start"; u "close"; u "reopen"].

(** After a run of [m] that fails the file is as before; after one that
    succeeds it is as before or it is the export of the table that the run
    leaves. *)
Definition whole_file {A} (m : M A) : Prop :=
  forall w,
    match snd (m w) with
    | Ok _ => jsonl (fst (m w)) = jsonl w \/ exported (fst (m w))
    | Throw _ => jsonl (fst (m w)) = jsonl w
    end.

(** A directory [/home] with the sample store and, below it, a directory
    [/home/proj] with an empty store. *)
Definition nested_disk : checkout.Disk :=
  fun p =>
    if patheqb p [u ".work"; u "proj"; u "home"] then Some checkout.fresh
    else if patheqb p [u ".work"; u "home"] then Some sample_world
    else None.

(** * Properties *)

(** ** Strings and numerals *)

Lemma jseqb_eq (a b : jsstring) : jseqb a b = true <-> a = b.
Proof.
  revert b; induction a as [|x a IH]; intros [|y b]; simpl; split;
    try congruence; auto.
  - rewrite andb_true_iff, N.eqb_eq, IH. intros [-> ->]; reflexivity.
  - intros E; injection E as -> ->. now rewrite N.eqb_refl, (proj2 (IH b)).
Qed.

Lemma jseqb_refl (a : jsstring) : jseqb a a = true.
Proof. now apply jseqb_eq. Qed.

Lemma jseqb_neq (a b : jsstring) : jseqb a b = false <-> a <> b.
Proof.
  rewrite <- jseqb_eq. destruct (jseqb a b); split; congruence.
Qed.

Lemma jseqb_sym (a b : jsstring) : jseqb a b = jseqb b a.
Proof.
  destruct (jseqb a b) eqn:E.
  - apply jseqb_eq in E; subst. now rewrite jseqb_refl.
  - symmetry. apply jseqb_neq. apply jseqb_neq in E. congruence.
Qed.

Lemma units_uint_units (d : Decimal.uint) : units_uint (uint_units d) = d.
Proof. induction d; simpl; unfold digit_cons; simpl; congruence. Qed.

Lemma uint_units_digits (d : Decimal.uint) :
  Forall (fun c => isDigit c = true) (uint_units d).
Proof. induction d; simpl; constructor; auto. Qed.

Lemma span_digits_app (ds rest : jsstring) :
  Forall (fun c => isDigit c = true) ds -> not_digit_first rest ->
  span_digits (ds ++ rest) = (ds, rest).
Proof.
  intros Hd Hr. induction Hd as [|c ds Hc _ IH]; simpl.
  - destruct rest as [|c r]; simpl in *; [reflexivity | now rewrite Hr].
  - now rewrite Hc, IH.
Qed.

Lemma digits_value_to_uint (n : N) :
  digits_value (uint_units (N.to_uint n)) = n.
Proof.
  unfold digits_value. rewrite units_uint_units. apply DecimalN.Unsigned.of_to.
Qed.

(** ** Strings of JSON *)

Lemma hexval_hexdigit (x : N) : x < 16 -> hexval (hexdigit x) = Some x.
Proof.
  intros H. unfold hexdigit, hexval, isDigit.
  destruct (x <? 10) eqn:E.
  - apply N.ltb_lt in E.
    replace (48 <=? 48 + x) with true by (symmetry; apply N.leb_le; lia).
    replace (48 + x <=? 57) with true by (symmetry; apply N.leb_le; lia).
    cbn [andb]. f_equal. lia.
  - apply N.ltb_ge in E.
    replace (87 + x <=? 57) with false by (symmetry; apply N.leb_gt; lia).
    rewrite andb_false_r.
    replace (97 <=? 87 + x) with true by (symmetry; apply N.leb_le; lia).
    replace (87 + x <=? 102) with true by (symmetry; apply N.leb_le; lia).
    cbn [andb]. f_equal. lia.
Qed.

Lemma hex4_value (c : N) :
  c < 65536 ->
  (c / 4096) mod 16 * 4096 + (c / 256) mod 16 * 256 + (c / 16) mod 16 * 16
  + c mod 16 = c.
Proof.
  intros H.
  pose proof (N.div_mod c 16 ltac:(lia)) as E0.
  pose proof (N.div_mod (c / 16) 16 ltac:(lia)) as E1.
  pose proof (N.div_mod (c / 256) 16 ltac:(lia)) as E2.
  assert (c / 16 / 16 = c / 256) as D1 by (rewrite N.Div0.div_div; reflexivity).
  assert (c / 256 / 16 = c / 4096) as D2 by (rewrite N.Div0.div_div; reflexivity).
  assert (c / 4096 < 16) as B by (apply N.Div0.div_lt_upper_bound; lia).
  rewrite (N.mod_small (c / 4096) 16 B).
  rewrite D1 in E1. rewrite D2 in E2. lia.
Qed.

Lemma parse_unicode_escape (c : N) (t : jsstring) :
  c < 65536 ->
  parse_string_body (unicode_escape c ++ t) = consR c (parse_string_body t).
Proof.
  intros H. unfold unicode_escape.
  cbn [app parse_string_body].
  change (92 =? 34) with false. change (92 =? 92) with true.
  change (117 =? 117) with true. cbv iota.
  rewrite !hexval_hexdigit by (apply N.mod_lt; lia).
  now rewrite hex4_value.
Qed.

Lemma parse_quote_unit (c : N) (t : jsstring) :
  isLeadingSurrogate c = false -> isTrailingSurrogate c = false ->
  parse_string_body (quote_unit c ++ t) = consR c (parse_string_body t).
Proof.
  intros _ _. unfold quote_unit.
  destruct (c =? 8) eqn:E8; [apply N.eqb_eq in E8; subst; reflexivity|].
  destruct (c =? 9) eqn:E9; [apply N.eqb_eq in E9; subst; reflexivity|].
  destruct (c =? 10) eqn:E10; [apply N.eqb_eq in E10; subst; reflexivity|].
  destruct (c =? 12) eqn:E12; [apply N.eqb_eq in E12; subst; reflexivity|].
  destruct (c =? 13) eqn:E13; [apply N.eqb_eq in E13; subst; reflexivity|].
  destruct (c =? 34) eqn:E34; [apply N.eqb_eq in E34; subst; reflexivity|].
  destruct (c =? 92) eqn:E92; [apply N.eqb_eq in E92; subst; reflexivity|].
  destruct (c <? 32) eqn:E32.
  - apply N.ltb_lt in E32. apply parse_unicode_escape. lia.
  - cbn [app parse_string_body]. now rewrite E34, E92, E32.
Qed.

Lemma surrogate_literal (c : N) (t : jsstring) :
  55296 <= c ->
  parse_string_body (c :: t) = consR c (parse_string_body t).
Proof.
  intros H. cbn [parse_string_body].
  replace (c =? 34) with false by (symmetry; apply N.eqb_neq; lia).
  replace (c =? 92) with false by (symmetry; apply N.eqb_neq; lia).
  replace (c <? 32) with false by (symmetry; apply N.ltb_ge; lia).
  reflexivity.
Qed.

Lemma parse_quote_body_len (n : nat) (s rest : jsstring) :
  (List.length s <= n)%nat ->
  parse_string_body (quote_body s ++ 34 :: rest) = Ok (s, rest).
Proof.
  revert s. induction n as [|n IH]; intros s Hn.
  - destruct s; [reflexivity | simpl in Hn; lia].
  - destruct s as [|c r]; [reflexivity|]. simpl in Hn.
    cbn [quote_body].
    destruct (isLeadingSurrogate c) eqn:EL.
    + unfold isLeadingSurrogate in EL. apply andb_true_iff in EL as [L1 L2].
      apply N.leb_le in L1, L2.
      destruct r as [|d r'].
      * rewrite parse_unicode_escape by lia. reflexivity.
      * destruct (isTrailingSurrogate d) eqn:ET.
        -- unfold isTrailingSurrogate in ET. apply andb_true_iff in ET as [T1 T2].
           apply N.leb_le in T1, T2.
           cbn [app]. rewrite !surrogate_literal by lia.
           rewrite IH by (simpl in Hn; lia). reflexivity.
        -- rewrite <- app_assoc. rewrite parse_unicode_escape by lia.
           rewrite IH by lia. reflexivity.
    + destruct (isTrailingSurrogate c) eqn:ET.
      * unfold isTrailingSurrogate in ET. apply andb_true_iff in ET as [T1 T2].
        apply N.leb_le in T1, T2.
        rewrite <- app_assoc. rewrite parse_unicode_escape by lia.
        rewrite IH by lia. reflexivity.
      * rewrite <- app_assoc. rewrite parse_quote_unit by assumption.
        rewrite IH by lia. reflexivity.
Qed.

Lemma parse_quote_body (s rest : jsstring) :
  parse_string_body (quote_body s ++ 34 :: rest) = Ok (s, rest).
Proof. apply parse_quote_body_len with (n := List.length s). lia. Qed.

Lemma to_uint_normal (p : positive) :
  match Pos.to_uint p with
  | Decimal.Nil | Decimal.D0 _ => False
  | _ => True
  end.
Proof.
  pose proof (DecimalPos.Unsigned.to_of (Pos.to_uint p)) as E.
  rewrite DecimalPos.Unsigned.of_to in E. change (N.to_uint (Npos p)) with (Pos.to_uint p) in E.
  pose proof (DecimalPos.Unsigned.to_uint_nonzero p) as NZ.
  destruct (Pos.to_uint p) as [|d| | | | | | | | | ] eqn:D; auto; try discriminate E.
  - rewrite unorm_D0 in E. unfold Decimal.unorm in E.
    pose proof (nb_digits_nzhead d) as L.
    destruct (Decimal.nzhead d) eqn:Z; try (rewrite <- E in L; simpl in L; lia).
    now rewrite <- E in NZ.
Qed.

(** A positive number is written with a first digit from 1 to 9. *)
Lemma pos_digits_head (p : positive) :
  exists c t, uint_units (Pos.to_uint p) = c :: t
              /\ isDigit c = true /\ c <> 48.
Proof.
  pose proof (to_uint_normal p) as H.
  destruct (Pos.to_uint p); try contradiction; simpl;
    eexists; eexists; (split; [reflexivity | split; [reflexivity | discriminate]]).
Qed.

Lemma delim_not_digit (rest : jsstring) : delim rest -> not_digit_first rest.
Proof.
  destruct rest as [|c r]; simpl; auto. intros [-> | [-> | ->]]; reflexivity.
Qed.

Lemma number_of_digits_ok (neg : bool) (n : N) (rest : jsstring) :
  delim rest ->
  isSafeInteger (Z.of_N n) = true ->
  number_of_digits neg (uint_units (N.to_uint n)) rest
  = Ok (JNum (if neg then (- Z.of_N n)%Z else Z.of_N n), rest).
Proof.
  intros D S. unfold number_of_digits. rewrite digits_value_to_uint, S.
  destruct rest as [|c r]; [reflexivity|].
  destruct D as [-> | [-> | ->]]; reflexivity.
Qed.

Lemma parse_digits_pos (neg : bool) (p : positive) (rest : jsstring) :
  delim rest ->
  isSafeInteger (Zpos p) = true ->
  match uint_units (Pos.to_uint p) ++ rest with
  | [] => Throw SyntaxError
  | c :: r =>
      if c =? 48 then number_of_digits neg [48] r
      else if isDigit c then
        let (ds, rest') := span_digits (uint_units (Pos.to_uint p) ++ rest) in
        number_of_digits neg ds rest'
      else Throw SyntaxError
  end = Ok (JNum (if neg then Zneg p else Zpos p), rest).
Proof.
  intros D S.
  destruct (pos_digits_head p) as (c & t & E & Hd & Hz).
  rewrite span_digits_app
    by (auto using uint_units_digits, delim_not_digit).
  rewrite E at 1. cbn [app].
  apply N.eqb_neq in Hz. rewrite Hz, Hd.
  apply (number_of_digits_ok neg (Npos p) rest D S).
Qed.

Lemma parse_number_String (z : Z) (rest : jsstring) :
  isSafeInteger z = true -> delim rest ->
  parse_number (String_of_number z ++ rest) = Ok (JNum z, rest).
Proof.
  intros S D. unfold parse_number. destruct z as [|p|p].
  - change (String_of_number 0 ++ rest) with (48 :: rest).
    change (48 =? 45) with false. cbv iota.
    change (48 =? 48) with true. cbv iota.
    apply (number_of_digits_ok false 0 rest D S).
  - unfold String_of_number. change (N.to_uint (Npos p)) with (Pos.to_uint p).
    destruct (pos_digits_head p) as (c & t & E & Hd & Hz).
    pose proof (parse_digits_pos false p rest D S) as H.
    rewrite E in *. cbn [app] in *.
    replace (c =? 45) with false.
    + exact H.
    + symmetry. apply N.eqb_neq. intros ->. discriminate.
  - unfold String_of_number. change (N.to_uint (Npos p)) with (Pos.to_uint p).
    cbn [app]. change (45 =? 45) with true. cbv iota.
    apply (parse_digits_pos true p rest D).
    unfold isSafeInteger in *. apply andb_true_iff in S as [S1 S2].
    apply Z.leb_le in S1. apply andb_true_iff; split; apply Z.leb_le; lia.
Qed.

Lemma String_of_number_head (z : Z) :
  exists c t, String_of_number z = c :: t /\ (c = 45 \/ isDigit c = true).
Proof.
  destruct z as [|p|p]; simpl.
  - eexists; eexists; split; [reflexivity | now right].
  - destruct (pos_digits_head p) as (c & t & E & Hd & _).
    change (N.to_uint (Npos p)) with (Pos.to_uint p).
    rewrite E. eauto.
  - eexists; eexists; split; [reflexivity | now left].
Qed.

(** ** Values of JSON *)

Lemma digit_opens (c : N) : c = 45 \/ isDigit c = true -> opens_value c.
Proof.
  unfold opens_value, isJsonWs, isDigit. intros [-> | H]; [now compute|].
  apply andb_true_iff in H as [H1 H2]. apply N.leb_le in H1, H2.
  repeat split;
    repeat match goal with
      | |- _ || _ = false => apply orb_false_iff; split
      | |- (_ =? _) = false => apply N.eqb_neq; lia
      end.
Qed.

Lemma stringify_head (v : json) :
  exists c t, stringify v = c :: t /\ opens_value c.
Proof.
  destruct v as [|[]|z|s|l|p]; simpl;
    try (eexists; eexists; split; [reflexivity | now compute]).
  destruct (String_of_number_head z) as (c & t & E & H).
  exists c, t. split; [exact E | now apply digit_opens].
Qed.

Lemma skip_ws_opens (c : N) (t : jsstring) :
  opens_value c -> skip_ws (c :: t) = c :: t.
Proof. intros (H & _). simpl. now rewrite H. Qed.

Lemma skip_ws_delim (rest : jsstring) :
  delim rest -> skip_ws rest = rest.
Proof.
  destruct rest as [|c r]; [reflexivity|].
  intros [-> | [-> | ->]]; reflexivity.
Qed.

Lemma join_comma_cons (x y : jsstring) (l : list jsstring) :
  join_comma (x :: y :: l) = x ++ 44 :: join_comma (y :: l).
Proof. reflexivity. Qed.

Lemma length_join_nonempty (l : list jsstring) :
  Forall (fun s => s <> []) l ->
  (List.length l <= List.length (join_comma l))%nat.
Proof.
  induction l as [|x l IH]; intros H; [simpl; lia|].
  inversion H as [|? ? Hx Hl]; subst. specialize (IH Hl).
  destruct l as [|y l].
  - destruct x; [congruence | simpl; lia].
  - rewrite join_comma_cons, length_app. cbn [List.length] in *. lia.
Qed.

Lemma length_join_comma (l : list json) :
  (List.length l <= List.length (join_comma (List.map stringify l)))%nat.
Proof.
  rewrite <- (length_map stringify l) at 1. apply length_join_nonempty.
  apply Forall_forall. intros s Hs. apply in_map_iff in Hs as (v & <- & _).
  destruct (stringify_head v) as (c & t & E & _). now rewrite E.
Qed.

Lemma parse_elements_ok (pv : jsstring -> result (json * jsstring))
  (l : list json) :
  (forall x, In x l -> forall rest, delim rest ->
             pv (stringify x ++ rest) = Ok (x, rest)) ->
  l <> [] ->
  forall k acc rest, (List.length l <= k)%nat ->
    parse_elements pv k acc (join_comma (List.map stringify l) ++ 93 :: rest)
    = Ok (JArr (acc ++ l), rest).
Proof.
  induction l as [|x l IH]; intros Hpv Hne k acc rest Hk; [congruence|].
  destruct k as [|k]; [simpl in Hk; lia|].
  destruct l as [|y l].
  - cbn [List.map join_comma parse_elements].
    rewrite Hpv by (simpl; auto). reflexivity.
  - cbn [List.map]. rewrite join_comma_cons, <- app_assoc.
    cbn [parse_elements app].
    rewrite Hpv by (simpl; auto).
    cbn [skip_ws isJsonWs]. change (isJsonWs 44) with false. cbv iota.
    change (44 =? 44) with true. cbv iota.
    change (stringify y :: List.map stringify l)
      with (List.map stringify (y :: l)).
    rewrite IH.
    + now rewrite <- app_assoc.
    + intros z Hz. apply Hpv. now right.
    + discriminate.
    + simpl in *. lia.
Qed.

Lemma obj_set_fresh (k : jsstring) (v : json) (acc : list (jsstring * json)) :
  existsb (jseqb k) (List.map fst acc) = false ->
  obj_set k v acc = acc ++ [(k, v)].
Proof.
  induction acc as [|[k' v'] acc IH]; simpl; [reflexivity|].
  rewrite orb_false_iff. intros [E H]. rewrite jseqb_sym, E.
  now rewrite IH.
Qed.

Lemma distinct_app_cons (a : list jsstring) (k : jsstring)
  (b : list jsstring) :
  distinct (a ++ k :: b) = true ->
  existsb (jseqb k) a = false /\ distinct ((a ++ [k]) ++ b) = true.
Proof.
  rewrite <- app_assoc. cbn [app]. intros H; split; [|exact H].
  induction a as [|x a IH]; [reflexivity|].
  simpl in H. apply andb_true_iff in H as [H1 H2].
  simpl. rewrite (IH H2), orb_false_r.
  apply negb_true_iff in H1. rewrite existsb_app in H1.
  apply orb_false_iff in H1 as [_ H1]. simpl in H1.
  apply orb_false_iff in H1 as [H1 _]. now rewrite jseqb_sym.
Qed.

Lemma length_join_members (l : list (jsstring * json)) :
  (List.length l <= List.length (join_comma (List.map member_text l)))%nat.
Proof.
  rewrite <- (length_map member_text l) at 1. apply length_join_nonempty.
  apply Forall_forall. intros s Hs. apply in_map_iff in Hs as (v & <- & _).
  discriminate.
Qed.

Lemma member_text_app (key : jsstring) (v : json) (t : jsstring) :
  member_text (key, v) ++ t
  = 34 :: quote_body key ++ 34 :: 58 :: stringify v ++ t.
Proof.
  unfold member_text, QuoteJSONString. cbn [fst snd app].
  now rewrite <- !app_assoc.
Qed.

Lemma parse_members_ok (pv : jsstring -> result (json * jsstring))
  (l : list (jsstring * json)) :
  (forall p, In p l -> forall rest, delim rest ->
             pv (stringify (snd p) ++ rest) = Ok (snd p, rest)) ->
  l <> [] ->
  forall k acc rest, (List.length l <= k)%nat ->
    distinct (List.map fst (acc ++ l)) = true ->
    parse_members pv k acc (join_comma (List.map member_text l) ++ 125 :: rest)
    = Ok (JObj (acc ++ l), rest).
Proof.
  induction l as [|[key v] l IH]; intros Hpv Hne k acc rest Hk Hd; [congruence|].
  destruct k as [|k]; [simpl in Hk; lia|].
  rewrite map_app in Hd. cbn [List.map fst] in Hd.
  apply distinct_app_cons in Hd as [Hfresh Hd].
  destruct l as [|y l].
  - cbn [List.map join_comma]. rewrite member_text_app.
    cbn [parse_members skip_ws]. change (isJsonWs 34) with false. cbv iota.
    change (34 =? 34) with true. cbv iota.
    rewrite parse_quote_body. cbn [skip_ws]. change (isJsonWs 58) with false.
    cbv iota. change (58 =? 58) with true. cbv iota.
    rewrite (Hpv (key, v)) by (simpl; auto).
    cbn [skip_ws]. change (isJsonWs 125) with false. cbv iota.
    change (125 =? 44) with false. change (125 =? 125) with true. cbv iota.
    now rewrite obj_set_fresh.
  - cbn [List.map]. rewrite join_comma_cons, <- app_assoc, member_text_app.
    cbn [parse_members skip_ws]. change (isJsonWs 34) with false. cbv iota.
    change (34 =? 34) with true. cbv iota.
    rewrite parse_quote_body. cbn [skip_ws]. change (isJsonWs 58) with false.
    cbv iota. change (58 =? 58) with true. cbv iota. cbn [app].
    rewrite (Hpv (key, v)) by (simpl; auto).
    cbn [skip_ws]. change (isJsonWs 44) with false. cbv iota.
    change (44 =? 44) with true. cbv iota.
    rewrite obj_set_fresh by assumption.
    change (member_text y :: List.map member_text l)
      with (List.map member_text (y :: l)).
    rewrite IH.
    + now rewrite <- app_assoc.
    + intros z Hz. apply Hpv. now right.
    + discriminate.
    + simpl in *. lia.
    + rewrite !map_app. exact Hd.
Qed.

Lemma fold_max_le {A} (f : A -> nat) (l : list A) (x : A) :
  In x l -> (f x <= fold_right (fun y m => Nat.max (f y) m) O l)%nat.
Proof.
  induction l as [|y l IH]; simpl; [tauto|].
  intros [-> | H]; [lia | specialize (IH H); lia].
Qed.

Lemma parse_value_stringify (v : json) :
  json_ok v = true ->
  forall n rest, (depth v < n)%nat -> delim rest ->
    parse_value n (stringify v ++ rest) = Ok (v, rest).
Proof.
  induction v as [|b|z|s|els IH|props IH] using json_induction;
    intros Hok n rest Hn Hd; (destruct n as [|n]; [lia|]).
  - reflexivity.
  - destruct b; reflexivity.
  - cbn [stringify json_ok] in *.
    destruct (String_of_number_head z) as (c & t & E & Hc).
    pose proof (parse_number_String z rest Hok Hd) as PN.
    rewrite E in *. cbn [app parse_value] in *.
    rewrite skip_ws_opens by now apply digit_opens.
    assert (forall k, k <> 45 -> isDigit k = false -> (c =? k) = false) as NE.
    { intros k K1 K2. apply N.eqb_neq. intros ->. destruct Hc; congruence. }
    rewrite !NE by (discriminate || reflexivity). exact PN.
  - cbn [stringify]. unfold QuoteJSONString. cbn [app parse_value skip_ws].
    change (isJsonWs 34) with false. cbv iota.
    change (34 =? 123) with false. change (34 =? 91) with false.
    change (34 =? 34) with true. cbv iota.
    rewrite <- app_assoc. cbn [app]. now rewrite parse_quote_body.
  - cbn [stringify app parse_value skip_ws]. change (isJsonWs 91) with false.
    cbv iota. change (91 =? 123) with false. change (91 =? 91) with true.
    cbv iota. rewrite <- app_assoc. cbn [app].
    destruct els as [|x els]; [reflexivity|].
    destruct (stringify_head x) as (c & t & E & Hc).
    assert (exists t', join_comma (List.map stringify (x :: els)) ++ 93 :: rest
                       = c :: t') as (t' & E').
    { destruct els; cbn [List.map join_comma]; rewrite E; cbn [app]; eauto. }
    rewrite E' at 1. rewrite skip_ws_opens by assumption.
    destruct Hc as (_ & Hc & _). rewrite Hc.
    rewrite (parse_elements_ok (parse_value n) (x :: els)).
    + reflexivity.
    + intros y Hy rest' Hd'. rewrite Forall_forall in IH.
      apply IH; auto.
      * cbn [json_ok] in Hok. rewrite forallb_forall in Hok. now apply Hok.
      * cbn [depth] in Hn.
        pose proof (fold_max_le depth (x :: els) y Hy). lia.
    + discriminate.
    + rewrite length_app. pose proof (length_join_comma (x :: els)). lia.
  - cbn [stringify app parse_value skip_ws]. change (isJsonWs 123) with false.
    cbv iota. change (123 =? 123) with true.
    cbv iota. rewrite <- app_assoc. cbn [app].
    destruct props as [|x props]; [reflexivity|].
    change (List.map (fun p => QuoteJSONString (fst p) ++ 58 :: stringify (snd p)))
      with (List.map member_text).
    assert (exists t', join_comma (List.map member_text (x :: props)) ++ 125 :: rest
                       = 34 :: t') as (t' & E').
    { destruct props; cbn [List.map join_comma]; unfold member_text at 1;
        unfold QuoteJSONString; cbn [app]; eauto. }
    rewrite E' at 1. cbn [skip_ws]. change (isJsonWs 34) with false. cbv iota.
    change (34 =? 125) with false. cbv iota.
    cbn [json_ok] in Hok. apply andb_true_iff in Hok as [Hdist Hok].
    rewrite (parse_members_ok (parse_value n) (x :: props)).
    + reflexivity.
    + intros y Hy rest' Hd'. rewrite Forall_forall in IH.
      apply IH; auto.
      * rewrite forallb_forall in Hok. now apply Hok.
      * cbn [depth] in Hn.
        pose proof (fold_max_le (fun p => depth (snd p)) (x :: props) y Hy).
        simpl in *. lia.
    + discriminate.
    + rewrite length_app. pose proof (length_join_members (x :: props)). lia.
    + exact Hdist.
Qed.

Lemma length_in_join_comma (l : list jsstring) (s : jsstring) :
  In s l -> (List.length s <= List.length (join_comma l))%nat.
Proof.
  induction l as [|x l IH]; [contradiction|].
  intros H. destruct l as [|y l].
  - destruct H as [-> | []]. simpl. lia.
  - rewrite join_comma_cons, length_app. cbn [List.length].
    destruct H as [-> | H]; [lia | specialize (IH H); lia].
Qed.

Lemma fold_max_bound {A} (f : A -> nat) (l : list A) (b : nat) :
  (forall x, In x l -> (f x <= b)%nat) ->
  (fold_right (fun y m => Nat.max (f y) m) O l <= b)%nat.
Proof.
  induction l as [|y l IH]; intros H; simpl; [lia|].
  assert (f y <= b)%nat by (apply H; now left).
  assert (fold_right (fun y m => Nat.max (f y) m) O l <= b)%nat
    by (apply IH; intros; apply H; now right).
  lia.
Qed.

Lemma depth_le_length (v : json) :
  (depth v <= List.length (stringify v))%nat.
Proof.
  induction v as [|b|z|s|els IH|props IH] using json_induction;
    try (simpl; lia).
  - cbn [depth stringify List.length]. rewrite length_app. cbn [List.length].
    assert (fold_right (fun x m => Nat.max (depth x) m) O els
            <= List.length (join_comma (List.map stringify els)))%nat; [|lia].
    apply fold_max_bound. intros x Hx. rewrite Forall_forall in IH.
    specialize (IH x Hx).
    pose proof (length_in_join_comma (List.map stringify els) (stringify x)
                  (in_map stringify els x Hx)). lia.
  - cbn [depth stringify List.length]. rewrite length_app. cbn [List.length].
    change (List.map (fun p => QuoteJSONString (fst p) ++ 58 :: stringify (snd p)))
      with (List.map member_text).
    assert (fold_right (fun p m => Nat.max (depth (snd p)) m) O props
            <= List.length (join_comma (List.map member_text props)))%nat; [|lia].
    apply (fold_max_bound (fun p => depth (snd p))). intros x Hx.
    rewrite Forall_forall in IH. specialize (IH x Hx).
    pose proof (length_in_join_comma (List.map member_text props) (member_text x)
                  (in_map member_text props x Hx)) as L.
    unfold member_text at 1 in L. rewrite length_app in L. simpl in L. lia.
Qed.

(** [JSON.parse(JSON.stringify(v))] is [v]. *)
Lemma JSON_parse_stringify (v : json) :
  json_ok v = true -> JSON_parse (stringify v) = Ok v.
Proof.
  intros H. unfold JSON_parse.
  pose proof (parse_value_stringify v H (S (List.length (stringify v))) []) as E.
  rewrite List.app_nil_r in E. rewrite E; [reflexivity | | exact I].
  pose proof (depth_le_length v). lia.
Qed.

(** *** A serialized value holds no line feed *)

Lemma no_nl_app (a b : jsstring) : no_nl a -> no_nl b -> no_nl (a ++ b).
Proof. intros; now apply Forall_app. Qed.

Lemma hexdigit_not_nl (n : N) : hexdigit n <> 10.
Proof. unfold hexdigit. destruct (n <? 10); lia. Qed.

Lemma no_nl_unicode_escape (c : N) : no_nl (unicode_escape c).
Proof.
  unfold unicode_escape, no_nl.
  repeat constructor; try discriminate; apply hexdigit_not_nl.
Qed.

Lemma no_nl_quote_unit (c : N) : no_nl (quote_unit c).
Proof.
  unfold quote_unit.
  destruct (c =? 8); [repeat constructor; discriminate|].
  destruct (c =? 9); [repeat constructor; discriminate|].
  destruct (c =? 10) eqn:E; [repeat constructor; discriminate|].
  destruct (c =? 12); [repeat constructor; discriminate|].
  destruct (c =? 13); [repeat constructor; discriminate|].
  destruct (c =? 34); [repeat constructor; discriminate|].
  destruct (c =? 92); [repeat constructor; discriminate|].
  destruct (c <? 32); [apply no_nl_unicode_escape|].
  apply N.eqb_neq in E. repeat constructor. exact E.
Qed.

Lemma no_nl_quote_body_len (n : nat) (s : jsstring) :
  (List.length s <= n)%nat -> no_nl (quote_body s).
Proof.
  revert s. induction n as [|n IH]; intros s Hn.
  - destruct s; [constructor | simpl in Hn; lia].
  - destruct s as [|c r]; [constructor|]. simpl in Hn. cbn [quote_body].
    destruct (isLeadingSurrogate c) eqn:EL.
    + destruct r as [|d r']; [apply no_nl_unicode_escape|].
      destruct (isTrailingSurrogate d) eqn:ET.
      * unfold isLeadingSurrogate in EL. apply andb_true_iff in EL as [L1 _].
        unfold isTrailingSurrogate in ET. apply andb_true_iff in ET as [T1 _].
        apply N.leb_le in L1, T1.
        constructor; [lia|]. constructor; [lia|].
        apply IH. simpl in Hn. lia.
      * apply no_nl_app; [apply no_nl_unicode_escape | apply IH; lia].
    + destruct (isTrailingSurrogate c).
      * apply no_nl_app; [apply no_nl_unicode_escape | apply IH; lia].
      * apply no_nl_app; [apply no_nl_quote_unit | apply IH; lia].
Qed.

Lemma no_nl_QuoteJSONString (s : jsstring) : no_nl (QuoteJSONString s).
Proof.
  unfold QuoteJSONString. constructor; [discriminate|].
  apply no_nl_app; [|repeat constructor; discriminate].
  now apply no_nl_quote_body_len with (n := List.length s).
Qed.

Lemma no_nl_digits (d : Decimal.uint) : no_nl (uint_units d).
Proof.
  eapply Forall_impl; [|apply uint_units_digits].
  intros c H ->. discriminate.
Qed.

Lemma no_nl_join_comma (l : list jsstring) :
  Forall no_nl l -> no_nl (join_comma l).
Proof.
  induction l as [|x l IH]; intros H; [constructor|].
  inversion H as [|? ? Hx Hl]; subst. destruct l as [|y l]; [exact Hx|].
  rewrite join_comma_cons. apply no_nl_app; [exact Hx|].
  constructor; [discriminate | now apply IH].
Qed.

Lemma no_nl_stringify (v : json) : no_nl (stringify v).
Proof.
  induction v as [|b|z|s|els IH|props IH] using json_induction.
  - repeat constructor; discriminate.
  - destruct b; repeat constructor; discriminate.
  - destruct z; cbn [stringify String_of_number].
    + repeat constructor; discriminate.
    + apply no_nl_digits.
    + constructor; [discriminate | apply no_nl_digits].
  - apply no_nl_QuoteJSONString.
  - cbn [stringify]. constructor; [discriminate|].
    apply no_nl_app; [|repeat constructor; discriminate].
    apply no_nl_join_comma. apply Forall_map. exact IH.
  - cbn [stringify]. constructor; [discriminate|].
    apply no_nl_app; [|repeat constructor; discriminate].
    apply no_nl_join_comma. apply Forall_map.
    eapply Forall_impl; [|exact IH]. intros p Hp. cbn beta.
    apply no_nl_app; [apply no_nl_QuoteJSONString|].
    constructor; [discriminate | exact Hp].
Qed.

(** *** split, join and trim *)

Lemma split_no_sep (sep : N) (s : jsstring) :
  Forall (fun c => c <> sep) s -> split sep s = [s].
Proof.
  induction 1 as [|c s Hc _ IH]; [reflexivity|].
  cbn [split]. apply N.eqb_neq in Hc. now rewrite Hc, IH.
Qed.

Lemma split_app_sep (sep : N) (a t : jsstring) :
  Forall (fun c => c <> sep) a ->
  split sep (a ++ sep :: t) = a :: split sep t.
Proof.
  induction 1 as [|c s Hc _ IH]; cbn [app split].
  - now rewrite N.eqb_refl.
  - apply N.eqb_neq in Hc. now rewrite Hc, IH.
Qed.

Lemma split_join (sep : N) (lines : list jsstring) :
  lines <> [] -> Forall (Forall (fun c => c <> sep)) lines ->
  split sep (join [sep] lines) = lines.
Proof.
  induction lines as [|x l IH]; intros Hne H; [congruence|].
  inversion H as [|? ? Hx Hl]; subst. destruct l as [|y l].
  - now apply split_no_sep.
  - change (join [sep] (x :: y :: l)) with (x ++ sep :: join [sep] (y :: l)).
    rewrite split_app_sep by assumption. f_equal. now apply IH.
Qed.

Lemma trim_line (c d : N) (m : jsstring) :
  isWhiteSpace c = false -> isWhiteSpace d = false ->
  trim (c :: m ++ [d; 10]) = c :: m ++ [d].
Proof.
  intros Hc Hd. unfold trim, trimEnd. cbn [trimStart]. rewrite Hc.
  change (c :: m ++ [d; 10]) with ((c :: m) ++ [d; 10]).
  rewrite rev_app_distr. cbn [rev app trimStart].
  change (isWhiteSpace 10) with true. cbv iota. rewrite Hd.
  change (d :: rev m ++ [c]) with ([d] ++ rev (c :: m)).
  rewrite rev_app_distr, rev_involutive. reflexivity.
Qed.

Lemma braced_join (lines : list jsstring) :
  lines <> [] -> Forall braced lines -> braced (join [10] lines).
Proof.
  induction lines as [|x l IH]; intros Hne H; [congruence|].
  inversion H as [|? ? Hx Hl]; subst. destruct l as [|y l]; [exact Hx|].
  change (join [10] (x :: y :: l)) with (x ++ 10 :: join [10] (y :: l)).
  destruct Hx as (m & ->). destruct IH as (m' & E); [discriminate | assumption|].
  rewrite E. exists (m ++ [125] ++ 10 :: 123 :: m').
  cbn [app]. rewrite <- !app_assoc. reflexivity.
Qed.

Lemma braced_toJSON (i : WorkItem) : braced (stringify (toJSON i)).
Proof. unfold toJSON. cbn [stringify]. eexists. reflexivity. Qed.

(** ** The interchange codec *)

Lemma item_json_ok (i : WorkItem) :
  item_ok i = true -> json_ok (toJSON i) = true.
Proof.
  unfold item_ok. destruct i as [i1 i2 i3 i4 i5 i6 i7 d b l c g].
  cbn [priority blocked_by labels log]. rewrite !andb_true_iff.
  intros [[[Hp Hb] Hl] Hg]. unfold toJSON.
  cbn [id title status priority type created updated description blocked_by
       labels closed_reason log].
  cbn [json_ok]. apply andb_true_iff; split.
  - destruct d, b, l, c, g; vm_compute; reflexivity.
  - destruct d, b, l, c, g; cbn [optProp app forallb snd json_ok opt_ok] in *;
      rewrite ?Hp, ?Hb, ?Hl, ?Hg; reflexivity.
Qed.

Lemma same_fields_toJSON (i : WorkItem) : same_fields (toJSON i) i.
Proof.
  destruct i as [i1 i2 i3 i4 i5 i6 i7 d b l c g]. unfold same_fields, toJSON.
  cbn [id title status priority type created updated description blocked_by
       labels closed_reason log].
  destruct d, b, l, c, g; repeat split; reflexivity.
Qed.

Lemma mapM_parse_lines (vs : list json) :
  forallb json_ok vs = true ->
  mapM JSON_parse (List.map stringify vs) = Ok vs.
Proof.
  induction vs as [|v vs IH]; [reflexivity|].
  cbn [forallb List.map mapM]. rewrite andb_true_iff. intros [Hv Hvs].
  now rewrite JSON_parse_stringify, IH.
Qed.

Lemma decode_encode (items : list WorkItem) :
  forallb item_ok items = true ->
  decodeJsonl (encodeJsonl items) = Ok (List.map toJSON items).
Proof.
  intros H. destruct items as [|i items]; [reflexivity|].
  set (vs := List.map toJSON (i :: items)).
  set (lines := List.map stringify vs).
  assert (lines <> []) as Hne by discriminate.
  assert (Forall braced lines) as Hb.
  { apply Forall_forall. intros s Hs. unfold lines, vs in Hs.
    rewrite map_map in Hs. apply in_map_iff in Hs as (x & <- & _).
    apply braced_toJSON. }
  destruct (braced_join lines Hne Hb) as (m & E).
  unfold encodeJsonl. rewrite <- (map_map toJSON stringify).
  fold vs. fold lines. rewrite E.
  unfold decodeJsonl. cbn [app].
  replace (123 :: (m ++ [125]) ++ [10]) with (123 :: m ++ [125; 10])
    by (now rewrite <- app_assoc).
  rewrite trim_line by reflexivity.
  rewrite <- E. rewrite split_join.
  - apply mapM_parse_lines. unfold vs. rewrite forallb_forall in *.
    intros v Hv. apply in_map_iff in Hv as (x & <- & Hx).
    apply item_json_ok. now apply H.
  - exact Hne.
  - apply Forall_forall. intros s Hs. apply in_map_iff in Hs as (v & <- & _).
    apply no_nl_stringify.
Qed.

Lemma same_fields_all (items : list WorkItem) :
  Forall2 same_fields (List.map toJSON items) items.
Proof. induction items; constructor; auto using same_fields_toJSON. Qed.

(** C1. The round trip of the interchange codec: for every list of items with
    safe numbers and well-formed parsed fields, decoding the text that the
    export writes gives back, in order, objects with the fields of the
    items; no items give the empty text and the empty text gives no item. *)
Theorem decode_encode_roundtrip (items : list WorkItem) :
  forallb item_ok items = true ->
  decodeJsonl (encodeJsonl items) = Ok (List.map toJSON items)
  /\ Forall2 same_fields (List.map toJSON items) items
  /\ encodeJsonl [] = []
  /\ decodeJsonl [] = Ok [].
Proof.
  intros H. split; [now apply decode_encode|].
  split; [apply same_fields_all | split; reflexivity].
Qed.

Lemma decode_encode_roundtrip_witness :
  forallb item_ok [sample_full; sample_plain] = true
  /\ decodeJsonl (encodeJsonl [sample_full; sample_plain])
     = Ok (List.map toJSON [sample_full; sample_plain]).
Proof.
  split; [reflexivity|].
  apply (decode_encode_roundtrip [sample_full; sample_plain]). reflexivity.
Defined.

(** ** Traversals and [ORDER BY] *)

Lemma mapM_total {A B} (f : A -> result B) (g : A -> B) (l : list A) :
  (forall a, In a l -> f a = Ok (g a)) -> mapM f l = Ok (List.map g l).
Proof.
  induction l as [|a l IH]; intros H; [reflexivity|].
  cbn [mapM List.map]. rewrite H by now left.
  cbn [rbind]. rewrite IH; [reflexivity|]. intros; apply H; now right.
Qed.

Lemma filterM_total {A} (p : A -> result bool) (q : A -> bool) (l : list A) :
  (forall a, In a l -> p a = Ok (q a)) ->
  commands.filterM p l = Ok (filter q l).
Proof.
  induction l as [|a l IH]; intros H; [reflexivity|].
  cbn [commands.filterM filter]. rewrite H by now left.
  cbn [rbind]. rewrite IH; [reflexivity|]. intros; apply H; now right.
Qed.

Lemma insert_sorted_perm {A} (le : A -> A -> bool) (x : A) (l : list A) :
  Permutation (insert_sorted le x l) (x :: l).
Proof.
  induction l as [|y l IH]; cbn [insert_sorted]; [reflexivity|].
  destruct (le x y); [reflexivity|].
  rewrite IH. apply perm_swap.
Qed.

Lemma orderBy_perm {A} (le : A -> A -> bool) (l : list A) :
  Permutation (orderBy le l) l.
Proof.
  induction l as [|x l IH]; cbn [orderBy fold_right]; [reflexivity|].
  fold (orderBy le l). rewrite insert_sorted_perm. now constructor.
Qed.

Lemma in_orderBy {A} (le : A -> A -> bool) (l : list A) (x : A) :
  In x (orderBy le l) <-> In x l.
Proof.
  split; apply Permutation_in; [|symmetry]; apply orderBy_perm.
Qed.

(** ** The dependency queries *)

Lemma row_ok_item (r : Work.t) :
  row_ok r = true ->
  rowToWorkItem r = Ok (item_of r)
  /\ (blocked_by (item_of r) = None
      \/ exists l, blocked_by (item_of r) = Some (JArr l)).
Proof.
  unfold row_ok, item_of. destruct (rowToWorkItem r) as [i|]; [|discriminate].
  destruct (blocked_by i) as [[]|]; try discriminate; eauto.
Qed.

Lemma isClosed_status (r : Work.t) :
  isClosed r = true <-> Work.status r = u "closed".
Proof. apply jseqb_eq. Qed.

Lemma has_closedIds (t : table) (b : json) :
  commands.has (commands.closedIds t) b = true <-> closedIn t b.
Proof.
  unfold commands.has, commands.closedIds, closedIn. split.
  - destruct b; try discriminate. rewrite existsb_exists.
    intros (x & Hx & E). apply jseqb_eq in E. subst x.
    apply in_map_iff in Hx as (r & <- & Hr). apply filter_In in Hr as [Hr Hc].
    exists r. repeat split; auto. now apply isClosed_status.
  - intros (r & Hr & -> & Hc). rewrite existsb_exists.
    exists (Work.id r). split; [|apply jseqb_refl].
    apply in_map. apply filter_In. split; auto. now apply isClosed_status.
Qed.


Lemma isReady_ok (t : table) (i : WorkItem) :
  blocked_by i = None \/ (exists l, blocked_by i = Some (JArr l)) ->
  commands.isReady (commands.closedIds t) i = Ok (ready_b t i).
Proof.
  unfold commands.isReady, ready_b, blockers.
  intros [E | (l & E)]; rewrite E; [reflexivity|].
  destruct l; reflexivity.
Qed.

Lemma isBlocked_ok (t : table) (i : WorkItem) :
  blocked_by i = None \/ (exists l, blocked_by i = Some (JArr l)) ->
  commands.isBlocked (commands.closedIds t) i = Ok (blocked_b t i).
Proof.
  unfold commands.isBlocked, blocked_b, blockers.
  intros [E | (l & E)]; rewrite E; [reflexivity|].
  destruct l; reflexivity.
Qed.

Lemma ready_b_spec (t : table) (i : WorkItem) :
  ready_b t i = true <-> Forall (closedIn t) (blockers i).
Proof.
  unfold ready_b. rewrite forallb_forall, Forall_forall.
  split; intros H b Hb; apply has_closedIds; auto.
Qed.



Lemma ready_runs (args : argv) (w : World) :
  forallb row_ok (db w) = true ->
  commands.ready args w
  = (w, Ok (ready_output
              (filter (ready_b (db w)) (List.map item_of (ready_rows (db w)))))).
Proof.
  intros H. rewrite forallb_forall in H.
  unfold commands.ready, bind, query, lift, ret. fold (ready_rows (db w)).
  rewrite (mapM_total rowToWorkItem item_of).
  2:{ intros r Hr. apply row_ok_item, H.
      apply in_orderBy in Hr. now apply filter_In in Hr as [Hr _]. }
  cbn [rbind]. rewrite (filterM_total _ (ready_b (db w))).
  2:{ intros i Hi. apply in_map_iff in Hi as (r & <- & Hr).
      apply isReady_ok, row_ok_item, H.
      apply in_orderBy in Hr. now apply filter_In in Hr as [Hr _]. }
  destruct (filter _ _); reflexivity.
Qed.

Lemma blocked_runs (args : argv) (w : World) :
  forallb row_ok (db w) = true ->
  commands.blocked args w
  = (w, Ok (blocked_output (db w)
              (filter (blocked_b (db w))
                 (List.map item_of (blocked_rows (db w)))))).
Proof.
  intros H. rewrite forallb_forall in H.
  unfold commands.blocked, bind, query, lift, ret. fold (blocked_rows (db w)).
  rewrite (mapM_total rowToWorkItem item_of).
  2:{ intros r Hr. apply row_ok_item, H.
      apply in_orderBy in Hr. now apply filter_In in Hr as [Hr _]. }
  cbn [rbind]. rewrite (filterM_total _ (blocked_b (db w))).
  2:{ intros i Hi. apply in_map_iff in Hi as (r & <- & Hr).
      apply isBlocked_ok, row_ok_item, H.
      apply in_orderBy in Hr. now apply filter_In in Hr as [Hr _]. }
  destruct (filter _ _); reflexivity.
Qed.

Lemma rbind_ok {A B} (r : result A) (k : A -> result B) (b : B) :
  rbind r k = Ok b -> exists a, r = Ok a /\ k a = Ok b.
Proof. destruct r as [a|]; [eauto | discriminate]. Qed.

(** What [rowToWorkItem] copies and what it parses. *)
Lemma rowToWorkItem_inv (r : Work.t) (i : WorkItem) :
  rowToWorkItem r = Ok i ->
  parseOrUndefined (Work.blocked_by r) = Ok (blocked_by i)
  /\ parseOrUndefined (Work.labels r) = Ok (labels i)
  /\ parseOrUndefined (Work.log r) = Ok (log i)
  /\ id i = Work.id r /\ status i = Work.status r
  /\ priority i = Work.priority r.
Proof.
  unfold rowToWorkItem. intros H.
  apply rbind_ok in H as (bb & Hb & H).
  apply rbind_ok in H as (ls & Hl & H).
  apply rbind_ok in H as (lg & Hg & H).
  injection H as <-. cbn. auto 10.
Qed.


Lemma item_of_eq (r : Work.t) (i : WorkItem) :
  rowToWorkItem r = Ok i -> item_of r = i.
Proof. unfold item_of. now intros ->. Qed.


(** ** Rows as the queries show them *)

Lemma parseOrUndefined_shows (c : option jsstring) (v : option json) :
  parseOrUndefined c = Ok v -> shows_json c v.
Proof.
  unfold parseOrUndefined, shows_json. destruct c as [[|x s]|].
  - now intros [= <-].
  - destruct (JSON_parse (x :: s)) as [j|e]; [|discriminate].
    intros [= <-]. now exists j.
  - now intros [= <-].
Qed.

Lemma orUndefined_shows (c : option jsstring) : shows_text c (orUndefined c).
Proof. destruct c as [[|x s]|]; reflexivity. Qed.

(** [rowToWorkItem] shows the row it is given. *)
Lemma rowToWorkItem_shows (r : Work.t) (i : WorkItem) :
  rowToWorkItem r = Ok i -> shows i r.
Proof.
  unfold rowToWorkItem. intros H.
  apply rbind_ok in H as (bb & Hb & H).
  apply rbind_ok in H as (ls & Hl & H).
  apply rbind_ok in H as (lg & Hg & H).
  injection H as <-. unfold shows. cbn.
  repeat match goal with |- _ /\ _ => split end;
    auto using parseOrUndefined_shows, orUndefined_shows.
Qed.







(** ** Export after an update *)

Lemma exportToJsonl_run (w : World) :
  exportToJsonl w
  = match allItems (db w) with
    | Ok items => ({| db := db w; jsonl := Some (encodeJsonl items) |}, Ok tt)
    | Throw e => (w, Throw e)
    end.
Proof.
  unfold exportToJsonl, bind, query, lift, writeFileSync.
  destruct (allItems (db w)); reflexivity.
Qed.

Lemma allItems_total (t : table) :
  forallb row_ok t = true ->
  allItems t = Ok (List.map item_of (orderBy le_id t)).
Proof.
  intros H. rewrite forallb_forall in H. apply mapM_total.
  intros r Hr. apply row_ok_item, H. now apply in_orderBy in Hr.
Qed.

Lemma row_ok_columns (r r' : Work.t) :
  Work.blocked_by r' = Work.blocked_by r -> Work.labels r' = Work.labels r ->
  Work.log r' = Work.log r -> row_ok r' = row_ok r.
Proof.
  intros E1 E2 E3. unfold row_ok, rowToWorkItem. rewrite E1, E2, E3.
  destruct (parseOrUndefined (Work.blocked_by r)); [|reflexivity].
  destruct (parseOrUndefined (Work.labels r)); [|reflexivity].
  destruct (parseOrUndefined (Work.log r)); reflexivity.
Qed.

Lemma row_ok_update (key : jsstring) (f : Work.t -> Work.t) (t : table) :
  (forall r, row_ok (f r) = row_ok r) ->
  forallb row_ok t = true -> forallb row_ok (updateById key f t) = true.
Proof.
  intros Hf H. rewrite forallb_forall in *. intros r' Hr'.
  apply in_map_iff in Hr' as (r & <- & Hr).
  destruct (jseqb (Work.id r) key); [rewrite Hf|]; now apply H.
Qed.

Lemma selectById_some (key : jsstring) (t : table) (r : Work.t) :
  selectById key t = Some r -> In r t /\ Work.id r = key.
Proof.
  unfold selectById. intros H. apply find_some in H as [H E].
  now apply jseqb_eq in E.
Qed.

Lemma selectById_update (key : jsstring) (f : Work.t -> Work.t) (t : table)
  (r : Work.t) :
  (forall x, Work.id (f x) = Work.id x) ->
  selectById key t = Some r -> selectById key (updateById key f t) = Some (f r).
Proof.
  intros Hf. unfold selectById, updateById.
  induction t as [|x t IH]; [discriminate|]. cbn [find List.map].
  destruct (jseqb (Work.id x) key) eqn:E.
  - intros [= ->]. now rewrite Hf, E.
  - rewrite E. exact IH.
Qed.

Lemma in_update (key : jsstring) (f : Work.t -> Work.t) (t : table) (r' : Work.t) :
  (forall x, Work.id (f x) = Work.id x) ->
  In r' (updateById key f t) -> Work.id r' = key ->
  exists r, In r t /\ r' = f r.
Proof.
  intros Hf Hin E. apply in_map_iff in Hin as (r & <- & Hr).
  destruct (jseqb (Work.id r) key) eqn:K; [eauto|].
  apply jseqb_neq in K. contradiction.
Qed.

(** ** close *)

Lemma close_unfold (clk : nat -> jsstring) (c : N) (id : jsstring)
  (rest : argv) (w : World) (r : Work.t) :
  selectById (padId (c :: id)) (db w) = Some r ->
  commands.close clk ((c :: id) :: rest) w
  = let w1 := {| db := updateById (padId (c :: id))
                         (setStatusReason (u "closed") (clk O) (close_reason rest))
                         (db w);
                 jsonl := jsonl w |} in
    match exportToJsonl w1 with
    | (w2, Ok _) => (w2, Ok (Closed (padId (c :: id)) (Work.title r)))
    | (w2, Throw e) => (w2, Throw e)
    end.
Proof.
  intros H. unfold commands.close. cbn [nth_error].
  unfold bind at 1. unfold requireRow, bind at 1, query. rewrite H.
  unfold ret at 1. unfold bind at 1, run.
  cbv zeta. unfold bind, ret.
  destruct rest as [|a rest];
    cbn [List.length Nat.ltb Nat.leb skipn close_reason];
    destruct (exportToJsonl _) as [w2 [[]|e]]; reflexivity.
Qed.

(** C10. Closing an item that is present always stores the reason built
    from the arguments after the id, the joined words or NULL when there are
    none, whatever the status and the reason of the row were; the row is
    updated even when the export that follows fails, and on a well-typed
    store the command succeeds. *)
Theorem close_overwrites_reason (clk : nat -> jsstring) (c : N) (id : jsstring)
  (rest : argv) (w : World) (r : Work.t) :
  selectById (padId (c :: id)) (db w) = Some r ->
  let reason := close_reason rest in
  let w' := fst (commands.close clk ((c :: id) :: rest) w) in
  db w' = updateById (padId (c :: id))
            (setStatusReason (u "closed") (clk O) reason) (db w)
  /\ selectById (padId (c :: id)) (db w')
     = Some (setStatusReason (u "closed") (clk O) reason r)
  /\ (forall r', In r' (db w') -> Work.id r' = padId (c :: id) ->
                 Work.closed_reason r' = reason /\ Work.status r' = u "closed")
  /\ (rest = [] -> forall r', In r' (db w') -> Work.id r' = padId (c :: id) ->
                   Work.closed_reason r' = None)
  /\ (forallb row_ok (db w) = true ->
      snd (commands.close clk ((c :: id) :: rest) w)
      = Ok (Closed (padId (c :: id)) (Work.title r))).
Proof.
  intros H reason w'. subst w'. rewrite (close_unfold clk c id rest w r H).
  cbv zeta. rewrite exportToJsonl_run. cbn [db jsonl]. fold reason.
  set (t' := updateById (padId (c :: id))
               (setStatusReason (u "closed") (clk O) reason) (db w)).
  assert (db (fst match allItems t' with
                  | Ok items =>
                      ({| db := t'; jsonl := Some (encodeJsonl items) |},
                       Ok (Closed (padId (c :: id)) (Work.title r)))
                  | Throw e => ({| db := t'; jsonl := jsonl w |}, Throw e)
                  end) = t') as Edb by (destruct (allItems t'); reflexivity).
  assert (forall r', In r' t' -> Work.id r' = padId (c :: id) ->
                     Work.closed_reason r' = reason /\ Work.status r' = u "closed")
    as Hrows.
  { intros r' Hin E.
    destruct (in_update (padId (c :: id))
                (setStatusReason (u "closed") (clk O) reason) (db w) r'
                (fun x => eq_refl) Hin E) as (x & _ & ->).
    split; reflexivity. }
  destruct (allItems t') eqn:EA; cbn [fst snd db] in *;
    (split; [reflexivity|]);
    (split; [apply selectById_update; [reflexivity | exact H]|]);
    (split; [exact Hrows|]);
    (split; [intros Er r' Hin E; destruct (Hrows r' Hin E) as [Hc _];
             rewrite Hc; unfold reason; now rewrite Er|]).
  - reflexivity.
  - intros Hok. exfalso.
    rewrite allItems_total in EA; [discriminate|].
    apply row_ok_update; [intros x; apply row_ok_columns; reflexivity | exact Hok].
Qed.

Lemma close_overwrites_reason_witness :
  selectById (padId (u "1")) (db sample_world)
  = Some (sample_row "001" "closed" 2 [])
  /\ snd (commands.close (fun _ => u "T1") [u "1"] sample_world)
     = Ok (Closed (u "001") (u "Sample")).
Proof.
  split; [reflexivity|].
  exact (proj2 (proj2 (proj2 (proj2
           (close_overwrites_reason (fun _ => u "T1") 49 [] [] sample_world
              (sample_row "001" "closed" 2 []) eq_refl)))) eq_refl).
Defined.

(** ** import *)

(** C5, as stated, fails: with an empty file [import] reports that there is
    nothing to import and leaves the five rows of the store in place, and
    without a file it exits with an error. *)
Lemma import_empty_keeps_store :
  commands.import [] sample_world = (sample_world, Ok NoItemsToImport)
  /\ db (fst (commands.import [] sample_world)) <> []
  /\ snd (commands.import [] absent_world) = Throw (Exit1 NoJsonlFile).
Proof. repeat split. discriminate. Qed.

(** C5, amended. Without a file [import] exits with the error "No
    work.jsonl file found"; with a file that is empty once trimmed it
    reports "No items to import"; in both cases the store and the file stay
    as they were. *)
Theorem import_nothing_to_import (args : argv) (w : World) :
  match jsonl w with
  | None => commands.import args w = (w, Throw (Exit1 NoJsonlFile))
  | Some text =>
      match trim text with
      | [] => commands.import args w = (w, Ok NoItemsToImport)
      | _ :: _ => True
      end
  end.
Proof.
  unfold commands.import, bind. destruct (jsonl w) as [text|]; [|reflexivity].
  destruct (trim text); [reflexivity | exact I].
Qed.

Lemma insertAll_cons (x : json) (items : jsons) (w : World) :
  commands.insertAll (x :: items) w
  = match commands.rowOfItem x with
    | Throw e => (w, Throw e)
    | Ok row =>
        match insertRow row (db w) with
        | Throw e => (w, Throw e)
        | Ok t => commands.insertAll items {| db := t; jsonl := jsonl w |}
        end
    end.
Proof.
  cbn [commands.insertAll]. unfold bind, lift, runInsert.
  destruct (commands.rowOfItem x); [|reflexivity].
  destruct (insertRow _ (db w)); reflexivity.
Qed.

Lemma insertAll_jsonl (items : jsons) (w : World) :
  jsonl (fst (commands.insertAll items w)) = jsonl w.
Proof.
  revert w. induction items as [|x items IH]; intros w; [reflexivity|].
  rewrite insertAll_cons.
  destruct (commands.rowOfItem x) as [row|e]; [|reflexivity].
  destruct (insertRow row (db w)) as [t|e]; [|reflexivity].
  now rewrite IH.
Qed.


(** The insertion loop stops at the first record that is refused, with the
    rows of the records before it in the table. *)
Lemma insertAll_stops (items : jsons) (w : World) (e : exn) :
  snd (commands.insertAll items w) = Throw e ->
  exists done x rest rows,
    items = done ++ x :: rest
    /\ mapM commands.rowOfItem done = Ok rows
    /\ db (fst (commands.insertAll items w)) = db w ++ rows
    /\ refused (db w ++ rows) x e.
Proof.
  revert w. induction items as [|x items IH]; intros w; [discriminate|].
  rewrite insertAll_cons.
  destruct (commands.rowOfItem x) as [row|e0] eqn:ER.
  - destruct (insertRow row (db w)) as [t|e0] eqn:EI.
    + unfold insertRow in EI.
      destruct (existsb _ (db w)); [discriminate|]. injection EI as <-.
      intros H. destruct (IH _ H) as (done & y & rest & rows & E0 & E1 & E2 & E3).
      cbn [db] in E2, E3.
      exists (x :: done), y, rest, (row :: rows). subst items.
      cbn [mapM]. rewrite ER, E1. cbn [rbind].
      split; [reflexivity|]. split; [reflexivity|].
      rewrite <- app_assoc in E2, E3. now split.
    + cbn [fst snd]. intros [= ->]. exists [], x, items, [].
      rewrite List.app_nil_r. repeat split.
      unfold insertRow in EI.
      destruct (existsb _ (db w)) eqn:Ex; [|discriminate]. injection EI as <-.
      apply existsb_exists in Ex as (r & Hr & Er). apply jseqb_eq in Er.
      right. exists row, r. auto.
  - cbn [fst snd]. intros [= ->]. exists [], x, items, [].
    rewrite List.app_nil_r. repeat split. now left.
Qed.

(** C9, as stated, fails: when the file holds the id 002 twice, [import]
    stops on the second record with the five rows of the store gone and the
    first record in their place. *)
Lemma import_not_atomic :
  snd (commands.import [] duplicate_world) = Throw ConstraintError
  /\ List.map Work.id (db (fst (commands.import [] duplicate_world))) = [u "002"]
  /\ db (fst (commands.import [] duplicate_world)) <> db duplicate_world.
Proof. vm_compute. repeat split. discriminate. Qed.

Lemma import_run (args : argv) (w : World) (text : jsstring) :
  jsonl w = Some text ->
  commands.import args w
  = match trim text with
    | [] => (w, Ok NoItemsToImport)
    | _ :: _ =>
        match decodeJsonl text with
        | Throw e => (w, Throw e)
        | Ok items =>
            let r := commands.insertAll items {| db := []; jsonl := jsonl w |} in
            (fst r,
             match snd r with
             | Ok _ => Ok (Imported (List.length items))
             | Throw e => Throw e
             end)
        end
    end.
Proof.
  intros Hf. unfold commands.import. unfold bind at 1. rewrite Hf.
  destruct (trim text); [reflexivity|].
  unfold bind at 1, lift. destruct (decodeJsonl text) as [items|e]; [|reflexivity].
  unfold bind at 1, run. unfold bind, ret. cbv zeta beta. rewrite ?Hf.
  destruct (commands.insertAll items _) as [w' [[]|e]]; reflexivity.
Qed.

(** C9, amended. [import] decodes the whole file before it touches the
    store: when a line is not JSON text, the command fails and the store
    and the file are as before.  The replacement itself is not atomic:
    when the file decodes and the command still fails, the old rows are
    gone and the store holds exactly the rows of the records that come
    before the first record that is refused, because of its values or
    because a record before it has its id; the file is never changed.
    Failures that the model does not follow are left out. *)
Theorem import_failure (args : argv) (w : World) (text : jsstring) :
  jsonl w = Some text ->
  (decodeJsonl text = Throw SyntaxError ->
   commands.import args w = (w, Throw SyntaxError))
  /\ (forall items e,
        e <> Unmodelled ->
        decodeJsonl text = Ok items ->
        snd (commands.import args w) = Throw e ->
        jsonl (fst (commands.import args w)) = jsonl w
        /\ exists done x rest rows,
             items = done ++ x :: rest
             /\ mapM commands.rowOfItem done = Ok rows
             /\ db (fst (commands.import args w)) = rows
             /\ refused rows x e).
Proof.
  intros Hf. rewrite (import_run args w text Hf). split.
  - intros He. pose proof He as He'. unfold decodeJsonl in He'.
    destruct (trim text); [discriminate|]. now rewrite He.
  - intros items e _ Hd. rewrite Hd.
    destruct (trim text); [intros X; discriminate X|]. cbv zeta. cbn [fst snd].
    set (w0 := {| db := []; jsonl := jsonl w |}).
    pose proof (insertAll_stops items w0 e) as R.
    pose proof (insertAll_jsonl items w0) as J.
    destruct (snd (commands.insertAll items w0)) as [|e0];
      [intros X; discriminate X|].
    intros [= ->]. split; [exact J|].
    destruct (R eq_refl) as (done & x & rest & rows & E0 & E1 & E2 & E3).
    exists done, x, rest, rows. cbn [db app] in E2, E3. auto.
Qed.

(** The file with the record 002 twice: the second record is refused and
    the store holds the first. *)
Lemma import_failure_witness :
  jsonl duplicate_world = Some duplicate_file
  /\ ConstraintError <> Unmodelled
  /\ decodeJsonl duplicate_file = Ok (List.map toJSON [sample_plain; sample_plain])
  /\ snd (commands.import [] duplicate_world) = Throw ConstraintError
  /\ jsonl (fst (commands.import [] duplicate_world)) = jsonl duplicate_world
  /\ List.map Work.id (db (fst (commands.import [] duplicate_world)))
     = [u "002"].
Proof.
  split; [reflexivity|]. split; [discriminate|]. split; [reflexivity|].
  split; [reflexivity|].
  split; [|reflexivity].
  exact (proj1 (proj2 (import_failure [] duplicate_world duplicate_file eq_refl)
                  (List.map toJSON [sample_plain; sample_plain])
                  ConstraintError ltac:(discriminate) eq_refl eq_refl)).
Defined.

(** ** list *)

Lemma le_priority_id_before (a b : Work.t) :
  le_priority_id a b = true <-> before a b.
Proof.
  unfold le_priority_id, le_id, before.
  rewrite orb_true_iff, andb_true_iff, Z.ltb_lt, Z.eqb_eq, Z.leb_le. tauto.
Qed.

Lemma before_total (a b : Work.t) : before a b \/ before b a.
Proof. unfold before. lia. Qed.

Lemma insert_sorted_hd (x a : Work.t) (l : table) :
  before a x -> HdRel before a l ->
  HdRel before a (insert_sorted le_priority_id x l).
Proof.
  intros Hax H. destruct l as [|y l]; cbn [insert_sorted]; [now constructor|].
  destruct (le_priority_id x y); constructor; [exact Hax|].
  now inversion H.
Qed.

Lemma insert_sorted_sorted (x : Work.t) (l : table) :
  Sorted before l -> Sorted before (insert_sorted le_priority_id x l).
Proof.
  induction 1 as [|a l Hl IH Ha]; cbn [insert_sorted].
  - repeat constructor.
  - destruct (le_priority_id x a) eqn:E.
    + apply le_priority_id_before in E.
      constructor; [constructor; assumption | constructor; exact E].
    + constructor; [exact IH|]. apply insert_sorted_hd; [|exact Ha].
      destruct (before_total a x) as [B | B]; [exact B|].
      apply le_priority_id_before in B. congruence.
Qed.

(** [ORDER BY priority, CAST(id AS INTEGER)] sorts. *)
Lemma orderBy_sorted (l : table) : Sorted before (orderBy le_priority_id l).
Proof.
  induction l as [|x l IH]; cbn [orderBy fold_right]; [constructor|].
  now apply insert_sorted_sorted.
Qed.

(** C6 (what the code does). [list] reads the flag [--status=] and no
    other: without it, whatever the other arguments are, it lists every row
    that is not closed, each once, by ascending priority and then by
    ascending numeric id. *)
Theorem list_filters_status_only (args : argv) (w : World) :
  forallb row_ok (db w) = true ->
  flagValue "--status=" args = None ->
  exists rows,
    commands.list args w = (w, Ok (list_output (List.map item_of rows)))
    /\ Permutation rows (filter (fun r => negb (isClosed r)) (db w))
    /\ Sorted before rows.
Proof.
  intros H F. exists (orderBy le_priority_id
                       (filter (fun r => negb (isClosed r)) (db w))).
  split; [|split; [apply orderBy_perm | apply orderBy_sorted]].
  rewrite forallb_forall in H.
  unfold commands.list, bind, query, lift, ret. rewrite F.
  set (rows := orderBy le_priority_id _).
  assert (mapM rowToWorkItem rows = Ok (List.map item_of rows)) as E.
  { apply mapM_total. intros r Hr. apply row_ok_item, H.
    apply in_orderBy in Hr. now apply filter_In in Hr as [Hr _]. }
  destruct rows; [reflexivity|]. now rewrite E.
Qed.

(** C6 at the failing input: [list --type=feature] lists the task 001 next
    to the feature 002. *)
Lemma list_filters_status_only_witness :
  forallb row_ok (db typed_world) = true
  /\ flagValue "--status=" [u "--type=feature"] = None
  /\ List.map id (listed (snd (commands.list [u "--type=feature"] typed_world)))
     = [u "001"; u "002"].
Proof.
  split; [reflexivity|]. split; [reflexivity|].
  destruct (list_filters_status_only [u "--type=feature"] typed_world
              eq_refl eq_refl) as (rows & E & _ & _).
  reflexivity.
Defined.

(** ** edit *)

Lemma edit_unknown_field (clk : nat -> jsstring) (c f v : N)
  (id field value : jsstring) (rest : argv) (w : World) (r : Work.t) :
  selectById (padId (c :: id)) (db w) = Some r ->
  join [32] rest = v :: value ->
  existsb (jseqb (f :: field)) commands.validFields = false ->
  commands.edit clk ((c :: id) :: (f :: field) :: rest) w
  = (w, Throw (Exit1 (UnknownField (f :: field)))).
Proof.
  intros H V F. unfold commands.edit. cbn [nth_error skipn]. rewrite V.
  unfold bind, requireRow, bind, query. rewrite H. unfold ret.
  rewrite F. reflexivity.
Qed.

(** C7 (what the code does). On a row that is present, [edit] with a value
    refuses the fields [author] and [assignee] as unknown fields and changes
    nothing. *)
Theorem edit_rejects_author_assignee (clk : nat -> jsstring) (c v : N)
  (id value field : jsstring) (rest : argv) (w : World) (r : Work.t) :
  selectById (padId (c :: id)) (db w) = Some r ->
  join [32] rest = v :: value ->
  field = u "author" \/ field = u "assignee" ->
  commands.edit clk ((c :: id) :: field :: rest) w
  = (w, Throw (Exit1 (UnknownField field))).
Proof.
  intros H V [-> | ->]; now apply edit_unknown_field with (r := r) (v := v)
                                                           (value := value).
Qed.

(** C7 at the failing input: [edit 001 author new-author]. *)
Lemma edit_rejects_author_assignee_witness :
  selectById (padId (u "001")) (db sample_world)
  = Some (sample_row "001" "closed" 2 [])
  /\ commands.edit (fun _ => u "T1") [u "001"; u "author"; u "new-author"]
       sample_world
     = (sample_world, Throw (Exit1 (UnknownField (u "author")))).
Proof.
  split; [reflexivity|].
  exact (edit_rejects_author_assignee (fun _ => u "T1") 48 110 (u "01")
           (u "ew-author") (u "author") [u "new-author"] sample_world
           (sample_row "001" "closed" 2 []) eq_refl eq_refl
           (or_introl eq_refl)).
Defined.

(** ** The dispatcher *)

(** C8 (what the code does). The dispatcher knows none of [label],
    [unlabel], [labels], [claim], [unclaim] and [mine]: whatever the
    arguments and the store, it exits with "Unknown command" and changes
    nothing. *)
Theorem main_rejects_label_commands (clk : nat -> jsstring) (cmd : jsstring)
  (args : argv) (w : World) :
  In cmd label_commands ->
  commands.main clk (cmd :: args) w = (w, Throw (Exit1 (UnknownCommand cmd))).
Proof.
  intros H. repeat (destruct H as [<- | H]; [reflexivity|]). contradiction.
Qed.

(** C8 at the failing input: [label 999 test] on a store without 999. *)
Lemma main_rejects_label_commands_witness :
  In (u "label") label_commands
  /\ selectById (padId (u "999")) (db sample_world) = None
  /\ commands.main (fun _ => u "T1") [u "label"; u "999"; u "test"] sample_world
     = (sample_world, Throw (Exit1 (UnknownCommand (u "label")))).
Proof.
  split; [now left|]. split; [reflexivity|].
  exact (main_rejects_label_commands (fun _ => u "T1") (u "label")
           [u "999"; u "test"] sample_world (or_introl eq_refl)).
Defined.

(** ** What the parser builds is well-formed *)

Lemma obj_set_keys (k : jsstring) (v : json) (acc : list (jsstring * json)) :
  List.map fst (obj_set k v acc)
  = if existsb (jseqb k) (List.map fst acc) then List.map fst acc
    else List.map fst acc ++ [k].
Proof.
  induction acc as [|[k' v'] acc IH]; [reflexivity|].
  cbn [obj_set List.map fst existsb]. rewrite (jseqb_sym k k').
  destruct (jseqb k' k) eqn:E; [reflexivity|].
  cbn [List.map fst orb]. rewrite IH.
  destruct (existsb _ _); reflexivity.
Qed.

Lemma distinct_snoc (ks : list jsstring) (k : jsstring) :
  distinct ks = true -> existsb (jseqb k) ks = false ->
  distinct (ks ++ [k]) = true.
Proof.
  induction ks as [|x ks IH]; [reflexivity|].
  cbn [distinct existsb app]. rewrite andb_true_iff, orb_false_iff.
  intros [H1 H2] [H3 H4]. rewrite IH by assumption.
  rewrite existsb_app. apply negb_true_iff in H1. rewrite H1.
  cbn [existsb]. rewrite jseqb_sym, H3. reflexivity.
Qed.

Lemma obj_set_ok (k : jsstring) (v : json) (acc : list (jsstring * json)) :
  json_ok (JObj acc) = true -> json_ok v = true ->
  json_ok (JObj (obj_set k v acc)) = true.
Proof.
  cbn [json_ok]. rewrite !andb_true_iff. intros [D F] Hv. split.
  - rewrite obj_set_keys. destruct (existsb _ _) eqn:E; [exact D|].
    now apply distinct_snoc.
  - clear D. induction acc as [|[k' v'] acc IH]; cbn [obj_set forallb snd].
    + now rewrite Hv.
    + cbn [forallb snd] in F. apply andb_true_iff in F as [F1 F2].
      destruct (jseqb k' k); cbn [forallb snd].
      * now rewrite Hv, F2.
      * now rewrite F1, IH.
Qed.

Section ParserSound.
Variable pv : jsstring -> result (json * jsstring).
Hypothesis pv_ok : forall s v r, pv s = Ok (v, r) -> json_ok v = true.

Lemma parse_elements_sound (k : nat) :
  forall acc s v r,
    forallb json_ok acc = true ->
    parse_elements pv k acc s = Ok (v, r) -> json_ok v = true.
Proof.
  induction k as [|k IH]; intros acc s v r Hacc; [discriminate|].
  cbn [parse_elements]. destruct (pv s) as [[x t]|] eqn:E; [|discriminate].
  assert (forallb json_ok (acc ++ [x]) = true) as Hacc'.
  { rewrite forallb_app, Hacc. cbn. now rewrite (pv_ok _ _ _ E). }
  destruct (skip_ws t) as [|c t']; [discriminate|].
  destruct (c =? 44); [now apply IH|].
  destruct (c =? 93); [|discriminate]. now intros [= <- _].
Qed.

Lemma parse_members_sound (k : nat) :
  forall acc s v r,
    json_ok (JObj acc) = true ->
    parse_members pv k acc s = Ok (v, r) -> json_ok v = true.
Proof.
  induction k as [|k IH]; intros acc s v r Hacc; [discriminate|].
  cbn [parse_members]. destruct (skip_ws s) as [|q r0]; [discriminate|].
  destruct (q =? 34); [|discriminate].
  destruct (parse_string_body r0) as [[key r1]|]; [|discriminate].
  destruct (skip_ws r1) as [|q' r2]; [discriminate|].
  destruct (q' =? 58); [|discriminate].
  destruct (pv r2) as [[x r3]|] eqn:E; [|discriminate].
  pose proof (obj_set_ok key x acc Hacc (pv_ok _ _ _ E)) as Hacc'.
  destruct (skip_ws r3) as [|c r4]; [discriminate|].
  destruct (c =? 44); [now apply IH|].
  destruct (c =? 125); [|discriminate]. now intros [= <- _].
Qed.
End ParserSound.

Lemma number_of_digits_sound (neg : bool) (ds rest : jsstring) (v : json)
  (r : jsstring) :
  number_of_digits neg ds rest = Ok (v, r) -> json_ok v = true.
Proof.
  unfold number_of_digits.
  destruct (match rest with [] => false | c :: _ => _ end); [discriminate|].
  destruct (isSafeInteger (Z.of_N (digits_value ds))) eqn:S; [|discriminate].
  intros [= <- _]. cbn [json_ok]. destruct neg; [|exact S].
  unfold isSafeInteger in *. apply andb_true_iff in S as [S1 S2].
  apply Z.leb_le in S1, S2. apply andb_true_iff; split; apply Z.leb_le; lia.
Qed.

Lemma parse_number_sound (s : jsstring) (v : json) (r : jsstring) :
  parse_number s = Ok (v, r) -> json_ok v = true.
Proof.
  unfold parse_number.
  destruct (match s with [] => (false, []) | c :: r0 => _ end) as [neg s1].
  destruct s1 as [|c t]; [discriminate|].
  destruct (c =? 48); [apply number_of_digits_sound|].
  destruct (isDigit c); [|discriminate].
  destruct (span_digits (c :: t)). apply number_of_digits_sound.
Qed.

Lemma expect_literal_sound (lit : jsstring) (x : json) (s : jsstring)
  (v : json) (r : jsstring) :
  json_ok x = true -> expect_literal lit x s = Ok (v, r) -> json_ok v = true.
Proof.
  unfold expect_literal. intros H. destruct (startsWith lit s); [|discriminate].
  now intros [= <- _].
Qed.

Lemma parse_value_sound (n : nat) :
  forall s v r, parse_value n s = Ok (v, r) -> json_ok v = true.
Proof.
  induction n as [|n IH]; intros s v r; [discriminate|].
  cbn [parse_value]. destruct (skip_ws s) as [|c t]; [discriminate|].
  destruct (c =? 123).
  { destruct (skip_ws t) as [|c' t']; [discriminate|].
    destruct (c' =? 125); [now intros [= <- _]|].
    now apply parse_members_sound. }
  destruct (c =? 91).
  { destruct (skip_ws t) as [|c' t']; [discriminate|].
    destruct (c' =? 93); [now intros [= <- _]|].
    now apply parse_elements_sound. }
  destruct (c =? 34).
  { destruct (parse_string_body t) as [[x y]|]; [|discriminate].
    now intros [= <- _]. }
  destruct (c =? 116); [now apply expect_literal_sound|].
  destruct (c =? 102); [now apply expect_literal_sound|].
  destruct (c =? 110); [now apply expect_literal_sound|].
  apply parse_number_sound.
Qed.

Lemma JSON_parse_sound (s : jsstring) (v : json) :
  JSON_parse s = Ok v -> json_ok v = true.
Proof.
  unfold JSON_parse.
  destruct (parse_value _ s) as [[x r]|] eqn:E; [|discriminate].
  destruct (skip_ws r); [|discriminate]. intros [= <-].
  exact (parse_value_sound _ _ _ _ E).
Qed.

Lemma parseOrUndefined_sound (x : option jsstring) (v : option json) :
  parseOrUndefined x = Ok v -> opt_ok v = true.
Proof.
  unfold parseOrUndefined. destruct x as [[|c s]|]; try (now intros [= <-]).
  destruct (JSON_parse (c :: s)) eqn:E; [|discriminate].
  intros [= <-]. exact (JSON_parse_sound _ _ E).
Qed.

Lemma rowToWorkItem_ok (r : Work.t) (i : WorkItem) :
  isSafeInteger (Work.priority r) = true ->
  rowToWorkItem r = Ok i -> item_ok i = true.
Proof.
  intros S H. apply rowToWorkItem_inv in H as (Hb & Hl & Hg & _ & _ & Hp).
  unfold item_ok. rewrite Hp, S.
  now rewrite (parseOrUndefined_sound _ _ Hb), (parseOrUndefined_sound _ _ Hl),
    (parseOrUndefined_sound _ _ Hg).
Qed.

(** ** Commands that keep the rows *)

Lemma same_rows_refl (t : table) : same_rows t t.
Proof. split; auto. Qed.

Lemma same_rows_trans (a b c : table) :
  same_rows a b -> same_rows b c -> same_rows a c.
Proof. intros [E1 P1] [E2 P2]. split; [congruence | auto]. Qed.

Lemma pure_keeps {A} (m : M A) : pure m -> keeps m.
Proof. intros H w. rewrite H. apply same_rows_refl. Qed.

Lemma pure_ret {A} (a : A) : pure (ret a).
Proof. intros w. reflexivity. Qed.

Lemma pure_exit1 {A} (r : report) : pure (@exit1 A r).
Proof. intros w. reflexivity. Qed.

Lemma pure_lift {A} (r : result A) : pure (lift r).
Proof. intros w. reflexivity. Qed.

Lemma pure_query {A} (q : table -> A) : pure (query q).
Proof. intros w. reflexivity. Qed.

Lemma pure_requireRow (id : jsstring) : pure (requireRow id).
Proof.
  intros w. unfold requireRow, bind, query.
  destruct (selectById _ _); reflexivity.
Qed.

Lemma keeps_bind {A B} (m : M A) (k : A -> M B) :
  keeps m -> (forall a, produces m a -> keeps (k a)) -> keeps (bind m k).
Proof.
  intros Hm Hk w. unfold bind. specialize (Hm w).
  destruct (m w) as [w1 [a|e]] eqn:E; [|exact Hm].
  cbn [fst] in Hm. eapply same_rows_trans; [exact Hm|].
  apply Hk. now exists w, w1.
Qed.

Lemma keeps_update (key : jsstring) (f : Work.t -> Work.t) :
  stable f -> keeps (run (updateById key f)).
Proof.
  intros Hf w. cbn [run fst db]. split.
  - unfold updateById. rewrite map_map. apply map_ext. intros r.
    destruct (jseqb _ _); [apply Hf | reflexivity].
  - unfold priorities_ok. rewrite !forallb_forall. intros H r' Hr'.
    apply in_map_iff in Hr' as (r & <- & Hr).
    destruct (jseqb _ _); [apply Hf|]; now apply H.
Qed.

Lemma export_db (w : World) : db (fst (exportToJsonl w)) = db w.
Proof. rewrite exportToJsonl_run. destruct (allItems (db w)); reflexivity. Qed.

Lemma keeps_export : keeps exportToJsonl.
Proof. intros w. rewrite export_db. apply same_rows_refl. Qed.

Lemma produces_lift {A} (r : result A) (a : A) : produces (lift r) a -> r = Ok a.
Proof. intros (w & w' & E). now injection E. Qed.

Lemma stable_setStatus (s now : jsstring) : stable (setStatus s now).
Proof. intros r. split; auto. Qed.

Lemma stable_setStatusReason (s now : jsstring) (x : option jsstring) :
  stable (setStatusReason s now x).
Proof. intros r. split; auto. Qed.

Lemma stable_setLog (l : option jsstring) (now : jsstring) :
  stable (setLog l now).
Proof. intros r. split; auto. Qed.

Lemma stable_setBlockedBy (b : option jsstring) (now : jsstring) :
  stable (setBlockedBy b now).
Proof. intros r. split; auto. Qed.

Lemma parseInt_safe (s : jsstring) (radix : option N) (z : Z) :
  parseInt s radix = Ok (Some z) -> isSafeInteger z = true.
Proof.
  unfold parseInt. destruct (strip_sign _) as [neg s1].
  destruct (match radix with Some _ => _ | None => _ end) as [m|];
    [|discriminate].
  destruct (isSafeInteger _) eqn:E; [|discriminate]. now intros [= <-].
Qed.

Lemma bindPriority_safe (s : jsstring) (radix : option N) (z : Z) :
  rbind (parseInt s radix) bindPriority = Ok z -> isSafeInteger z = true.
Proof.
  intros H. apply rbind_ok in H as ([x|] & H1 & H2); [|discriminate].
  injection H2 as <-. exact (parseInt_safe _ _ _ H1).
Qed.

Lemma stable_setField (field value now : jsstring) (f : Work.t -> Work.t) :
  commands.setField field value now = Ok f -> stable f.
Proof.
  unfold commands.setField. destruct (jseqb field (u "priority")).
  - intros H. apply rbind_ok in H as (z & H1 & H2). injection H2 as <-.
    intros r. split; [reflexivity|]. intros _. exact (bindPriority_safe _ _ _ H1).
  - destruct (jseqb field (u "title")); [|destruct (jseqb field (u "type"))];
      intros [= <-] r; split; auto.
Qed.

(** The commands that update rows in place or only read: the proof follows
    the shape of each command, one rule for each operation of the monad. *)
Lemma keeps_commands (clk : nat -> jsstring) (args : argv) :
  keeps (commands.start clk args) /\ keeps (commands.close clk args)
  /\ keeps (commands.reopen clk args) /\ keeps (commands.log clk args)
  /\ keeps (commands.block clk args) /\ keeps (commands.unblock clk args)
  /\ keeps (commands.edit clk args) /\ keeps (commands.list args)
  /\ keeps (commands.show args) /\ keeps (commands.ready args)
  /\ keeps (commands.blocked args) /\ keeps (commands.export args).
Proof.
  repeat match goal with |- _ /\ _ => split end;
    unfold commands.start, commands.close, commands.reopen, commands.log,
      commands.block, commands.unblock, commands.edit, commands.list,
      commands.show, commands.ready, commands.blocked, commands.export;
    repeat first
      [ apply pure_keeps;
        first [ apply pure_ret | apply pure_exit1 | apply pure_lift
              | apply pure_query | apply pure_requireRow ]
      | apply keeps_export
      | apply keeps_update;
        first [ apply stable_setStatus | apply stable_setStatusReason
              | apply stable_setLog | apply stable_setBlockedBy
              | eapply stable_setField; apply produces_lift; eassumption ]
      | apply keeps_bind; [|intros ? ?]
      | match goal with
        | |- keeps (match ?x with _ => _ end) => destruct x
        | |- keeps (if ?x then _ else _) => destruct x
        end ].
Qed.

(** ** The allocator *)

Lemma all_digits_span (s : jsstring) :
  forallb isDigit s = true -> span_digits s = (s, []).
Proof.
  intros H. rewrite <- (List.app_nil_r s) at 1. apply span_digits_app.
  - apply Forall_forall. rewrite forallb_forall in H. exact H.
  - exact I.
Qed.

Lemma digit_range (c : N) : isDigit c = true -> 48 <= c <= 57.
Proof.
  unfold isDigit. rewrite andb_true_iff, !N.leb_le. tauto.
Qed.

(** [CAST] on a run of digits is its value, up to the 64-bit bound. *)
Lemma castInteger_digits (c : N) (s : jsstring) :
  forallb isDigit (c :: s) = true ->
  castInteger (c :: s)
  = Z.max (-9223372036854775808)
      (Z.min (Z.of_N (digits_value (c :: s))) 9223372036854775807).
Proof.
  intros H. pose proof H as H'. cbn [forallb] in H'.
  apply andb_true_iff in H' as [Hc _]. apply digit_range in Hc.
  unfold castInteger. cbn [skip_spaces]. unfold sqlite_isspace.
  replace (c =? 32) with false by (symmetry; apply N.eqb_neq; lia).
  replace (c <=? 13) with false by (symmetry; apply N.leb_gt; lia).
  rewrite andb_false_r. cbn [orb]. unfold strip_sign.
  replace (c =? 45) with false by (symmetry; apply N.eqb_neq; lia).
  replace (c =? 43) with false by (symmetry; apply N.eqb_neq; lia).
  now rewrite all_digits_span.
Qed.

Lemma castInteger_id_ok (s : jsstring) :
  id_ok s = true ->
  castInteger s = Z.of_N (digits_value s)
  /\ (0 <= castInteger s < 9007199254740991)%Z.
Proof.
  unfold id_ok. destruct s as [|c s]; [discriminate|].
  rewrite andb_true_iff, N.ltb_lt. intros [D B].
  rewrite castInteger_digits by exact D. lia.
Qed.

Lemma digits_value_zeros (k : nat) (s : jsstring) :
  digits_value (List.repeat 48 k ++ s) = digits_value s.
Proof. induction k as [|k IH]; [reflexivity | exact IH]. Qed.

Lemma forallb_repeat_digit (k : nat) : forallb isDigit (List.repeat 48 k) = true.
Proof. induction k; [reflexivity | exact IHk]. Qed.

Lemma uint_units_all_digits (d : Decimal.uint) :
  forallb isDigit (uint_units d) = true.
Proof.
  apply forallb_forall. apply Forall_forall. apply uint_units_digits.
Qed.

(** The numeric value of an id the allocator writes. *)
Lemma castInteger_padded (p : positive) :
  (Zpos p <= 9007199254740991)%Z ->
  castInteger (padStart0 3 (String_of_number (Zpos p))) = Zpos p.
Proof.
  intros B. unfold padStart0. cbn [String_of_number].
  change (N.to_uint (Npos p)) with (Pos.to_uint p).
  set (k := (3 - List.length (uint_units (Pos.to_uint p)))%nat).
  destruct (pos_digits_head p) as (c & t & E & _).
  assert (exists c' t', List.repeat 48 k ++ uint_units (Pos.to_uint p) = c' :: t')
    as (c' & t' & E').
  { rewrite E. destruct k; cbn; eauto. }
  rewrite E'. rewrite castInteger_digits.
  - rewrite <- E', digits_value_zeros.
    change (Pos.to_uint p) with (N.to_uint (Npos p)).
    rewrite digits_value_to_uint. lia.
  - rewrite <- E', forallb_app, forallb_repeat_digit. apply uint_units_all_digits.
Qed.

Lemma fold_max_base (t : table) (a b : Z) :
  fold_right (fun r m => Z.max (castId r) m) (Z.max a b) t
  = Z.max b (fold_right (fun r m => Z.max (castId r) m) a t).
Proof. induction t as [|x t IH]; cbn [fold_right]; [lia | rewrite IH; lia]. Qed.

Lemma fold_left_right_max (t : table) (a : Z) :
  fold_left (fun m r => Z.max m (castId r)) t a
  = fold_right (fun r m => Z.max (castId r) m) a t.
Proof.
  revert a. induction t as [|x t IH]; intros a; [reflexivity|].
  cbn [fold_left fold_right]. now rewrite IH, fold_max_base.
Qed.

Lemma fold_right_max_spec (t : table) (a : Z) :
  let m := fold_right (fun r m => Z.max (castId r) m) a t in
  (a <= m)%Z /\ (forall r, In r t -> (castId r <= m)%Z)
  /\ (m = a \/ exists r, In r t /\ castId r = m).
Proof.
  induction t as [|x t IH]; cbn [fold_right].
  - split; [lia|]. split; [contradiction | now left].
  - cbv zeta in IH. destruct IH as (L & U & W).
    set (m := fold_right _ a t) in *. split; [lia|]. split.
    + intros r [<- | Hr]; [lia | specialize (U r Hr); lia].
    + destruct (Z.max_spec (castId x) m) as [[_ E] | [_ E]]; rewrite E.
      * destruct W as [W | (r & Hr & Er)]; [now left|].
        right. exists r. split; [now right | exact Er].
      * right. exists x. split; [now left | reflexivity].
Qed.

(** [MAX(CAST(id AS INTEGER))] is the largest numeric id of the rows. *)
Lemma selectMaxId_spec (t : table) :
  match selectMaxId t with
  | None => t = []
  | Some m => (forall r, In r t -> (castId r <= m)%Z)
              /\ exists r, In r t /\ castId r = m
  end.
Proof.
  destruct t as [|x t]; [reflexivity|]. cbn [selectMaxId].
  change (fun m r' => Z.max m (castInteger (Work.id r')))
    with (fun m r' => Z.max m (castId r')).
  change (castInteger (Work.id x)) with (castId x).
  rewrite fold_left_right_max.
  destruct (fold_right_max_spec t (castId x)) as (L & U & W).
  cbv zeta in *. set (m := fold_right _ _ t) in *. split.
  - intros r [<- | Hr]; [exact L | now apply U].
  - destruct W as [W | (r & Hr & Er)].
    + exists x. split; [now left | now rewrite W].
    + exists r. split; [now right | exact Er].
Qed.



Lemma maxNumericId_spec (t : table) :
  ids_ok t = true ->
  (0 <= maxNumericId t < 9007199254740991)%Z
  /\ (forall r, In r t -> (castId r <= maxNumericId t)%Z)
  /\ match selectMaxId t with
     | None => maxNumericId t = 0%Z
     | Some m => m = maxNumericId t
     end.
Proof.
  unfold ids_ok. rewrite forallb_forall. intros H.
  assert (forall r, In r t -> (0 <= castId r < 9007199254740991)%Z) as B.
  { intros r Hr. apply castInteger_id_ok. now apply H. }
  clear H. unfold maxNumericId.
  change (fun r m => Z.max (castInteger (Work.id r)) m)
    with (fun r m => Z.max (castId r) m).
  destruct (fold_right_max_spec t 0) as (L & U & W). cbv zeta in *.
  set (m := fold_right _ 0%Z t) in *. split; [|split; [exact U|]].
  - split; [exact L|].
    destruct W as [-> | (r & Hr & <-)]; [lia | now apply B].
  - pose proof (selectMaxId_spec t) as S.
    destruct (selectMaxId t) as [m'|].
    + destruct S as (U' & r' & Hr' & Er'). apply Z.le_antisymm.
      * rewrite <- Er'. now apply U.
      * destruct W as [-> | (r & Hr & <-)]; [|now apply U'].
        rewrite <- Er'. now apply B.
    + subst t. reflexivity.
Qed.

Lemma nextId_formula (t : table) :
  ids_ok t = true ->
  nextId t = padStart0 3 (String_of_number (maxNumericId t + 1)).
Proof.
  intros H. destruct (maxNumericId_spec t H) as (B & _ & S).
  unfold nextId. destruct (selectMaxId t) as [m|]; rewrite S.
  - destruct (Z.eqb_spec (maxNumericId t) 0) as [-> | _]; reflexivity.
  - reflexivity.
Qed.

Lemma nextId_numeric (t : table) :
  ids_ok t = true -> castInteger (nextId t) = (maxNumericId t + 1)%Z.
Proof.
  intros H. rewrite (nextId_formula t H).
  destruct (maxNumericId_spec t H) as (B & _ & _).
  destruct (maxNumericId t + 1)%Z as [|p|p] eqn:E; try lia.
  apply castInteger_padded. lia.
Qed.


Lemma export_ret_db {A} (a : A) (w : World) :
  db (fst (bind exportToJsonl (fun _ => ret a) w)) = db w.
Proof.
  unfold bind, ret. pose proof (export_db w) as E.
  destruct (exportToJsonl w) as [w2 [[]|e]]; exact E.
Qed.

Lemma add_rows (clk : nat -> jsstring) (args : argv) (w : World) :
  db (fst (commands.add clk args w)) = db w
  \/ allocated (db w) (db (fst (commands.add clk args w))).
Proof.
  destruct (commands.add clk args w) as [w' out] eqn:E. cbn [fst].
  revert E. unfold commands.add.
  destruct (join [32] (filter notFlag args)) as [|c title];
    [intros [= <- _]; now left|].
  unfold bind at 1, query. unfold bind at 1, lift.
  destruct (if missing _ then _ else _) as [prio|e] eqn:EP;
    [|intros [= <- _]; now left].
  unfold bind at 1, runInsert, insertRow. cbn [Work.id].
  destruct (existsb _ (db w)); [intros [= <- _]; now left|].
  intros E. apply (f_equal fst) in E. cbn [fst] in E. subst w'.
  rewrite export_ret_db. cbn [db].
  right. eexists. split; [reflexivity|]. split; [reflexivity|].
  cbn [Work.priority].
  destruct (missing _); [now injection EP as <- | exact (bindPriority_safe _ _ _ EP)].
Qed.

(** Every command but [import] keeps the rows, or appends the row of a new
    item under the allocated id. *)
Lemma main_rows (clk : nat -> jsstring) (cmd : jsstring) (args : argv)
  (w : World) :
  cmd <> u "import" ->
  same_rows (db w) (db (fst (commands.main clk (cmd :: args) w)))
  \/ allocated (db w) (db (fst (commands.main clk (cmd :: args) w))).
Proof.
  intros Hcmd. unfold commands.main.
  destruct (_ || _ || _ || _); [left; apply same_rows_refl|].
  cbn [commands.lookup commands.entries].
  destruct (keeps_commands clk args)
    as (K1 & K2 & K3 & K4 & K5 & K6 & K7 & K8 & K9 & K10 & K11 & K12).
  repeat match goal with
    | |- context [if jseqb ?k cmd then _ else _] =>
        destruct (jseqb k cmd) eqn:?
    end;
    try (left;
         first [ apply same_rows_refl | apply K1 | apply K2 | apply K3
               | apply K4 | apply K5 | apply K6 | apply K7 | apply K8
               | apply K9 | apply K10 | apply K11 | apply K12 ]; fail).
  - destruct (add_rows clk args w) as [E | A];
      [left; rewrite E; apply same_rows_refl | now right].
  - exfalso. apply Hcmd. symmetry. now apply jseqb_eq.
  - destruct (existsb _ _); left; apply same_rows_refl.
Qed.




(** ** Commands that end with the export *)

Lemma exports_export_ret {A} (a : A) :
  exports (bind exportToJsonl (fun _ => ret a)).
Proof.
  intros w w' x. unfold bind, ret. rewrite exportToJsonl_run.
  destruct (allItems (db w)) as [items|e] eqn:E; [|discriminate].
  intros [= <- _]. exists items. split; [exact E | reflexivity].
Qed.

Lemma exports_bind {A B} (m : M A) (k : A -> M B) :
  (forall a, exports (k a)) -> exports (bind m k).
Proof.
  intros H w w' b. unfold bind. destruct (m w) as [w1 [a|e]]; [|discriminate].
  apply H.
Qed.

Lemma exports_exit1 {A} (r : report) : exports (@exit1 A r).
Proof. intros w w' a. discriminate. Qed.

Lemma skips_exports {A} (m : M A) : exports m -> exports_or_skips m.
Proof. intros H w w' a E. left. exact (H w w' a E). Qed.

Lemma skips_ret {A} (a : A) : exports_or_skips (ret a).
Proof. intros w w' x [= <- _]. now right. Qed.

Lemma skips_exit1 {A} (r : report) : exports_or_skips (@exit1 A r).
Proof. intros w w' a. discriminate. Qed.

Lemma skips_bind {A B} (m : M A) (k : A -> M B) :
  pure m -> (forall a, exports_or_skips (k a)) -> exports_or_skips (bind m k).
Proof.
  intros Hm Hk w w' b. unfold bind. specialize (Hm w).
  destruct (m w) as [w1 [a|e]]; [|discriminate]. cbn [fst] in Hm. subst w1.
  apply Hk.
Qed.

(** The commands that always end with the export. *)
Lemma exports_commands (clk : nat -> jsstring) (args : argv) :
  exports (commands.add clk args) /\ exports (commands.start clk args)
  /\ exports (commands.close clk args) /\ exports (commands.reopen clk args)
  /\ exports (commands.edit clk args) /\ exports (commands.log clk args).
Proof.
  repeat match goal with |- _ /\ _ => split end;
    unfold commands.add, commands.start, commands.close, commands.reopen,
      commands.edit, commands.log;
    repeat first
      [ apply exports_export_ret
      | apply exports_exit1
      | apply exports_bind; intros ?
      | match goal with
        | |- exports (match ?x with _ => _ end) => destruct x
        | |- exports (if ?x then _ else _) => destruct x
        end ].
Qed.

(** [block] and [unblock] return early, before any write, when there is
    nothing to change. *)
Lemma skips_commands (clk : nat -> jsstring) (args : argv) :
  exports_or_skips (commands.block clk args)
  /\ exports_or_skips (commands.unblock clk args).
Proof.
  split; unfold commands.block, commands.unblock;
    repeat first
      [ apply skips_ret
      | apply skips_exit1
      | apply skips_bind;
        [ first [ apply pure_requireRow | apply pure_query | apply pure_lift ]
        | intros ? ]
      | match goal with
        | |- exports_or_skips (match ?x with _ => _ end) => destruct x
        | |- exports_or_skips (if ?x then _ else _) => destruct x
        end
      | apply skips_exports;
        repeat first
          [ apply exports_export_ret
          | apply exports_bind; intros ? ] ].
Qed.

(** ** The file after a command *)

Lemma mapM_inv {A B} (f : A -> result B) (l : list A) (l' : list B) :
  mapM f l = Ok l' -> forall b, In b l' -> exists a, In a l /\ f a = Ok b.
Proof.
  revert l'. induction l as [|a l IH]; intros l'; cbn [mapM].
  - intros [= <-] b [].
  - intros H. apply rbind_ok in H as (b0 & E0 & H).
    apply rbind_ok in H as (bs & E1 & H). injection H as <-.
    intros b [<- | Hb]; [exists a; split; [now left | exact E0]|].
    destruct (IH bs E1 b Hb) as (x & Hx & Ex). exists x. split; [now right | exact Ex].
Qed.

Lemma le_id_total (a b : Work.t) : le_id a b = false -> le_id b a = true.
Proof. unfold le_id. rewrite Z.leb_gt, Z.leb_le. lia. Qed.

Lemma orderBy_le_id_sorted (l : table) :
  Sorted (fun a b => le_id a b = true) (orderBy le_id l).
Proof.
  induction l as [|x l IH]; cbn [orderBy fold_right]; [constructor|].
  fold (orderBy le_id l). revert IH. generalize (orderBy le_id l). clear l.
  intros l. induction l as [|a l IH]; intros Hs; cbn [insert_sorted].
  - repeat constructor.
  - destruct (le_id x a) eqn:E.
    + constructor; [exact Hs | now constructor].
    + inversion Hs as [|? ? Hl Ha]; subst. constructor; [now apply IH|].
      apply le_id_total in E.
      destruct l as [|b l]; cbn [insert_sorted]; [now constructor|].
      destruct (le_id x b); constructor; [exact E|].
      now inversion Ha.
Qed.

Lemma orderBy_ascending_ids (t : table) : ascending_ids (orderBy le_id t).
Proof.
  unfold ascending_ids.
  assert (StronglySorted (fun a b => le_id a b = true) (orderBy le_id t)) as H.
  { apply Sorted_StronglySorted; [|apply orderBy_le_id_sorted].
    intros a b c. unfold le_id. rewrite !Z.leb_le. lia. }
  induction H as [|a l Hl IH Ha]; constructor; [exact IH|].
  eapply Forall_impl; [|exact Ha]. intros b. unfold le_id. now rewrite Z.leb_le.
Qed.

Lemma mapM_Forall2 {A B} (f : A -> result B) (l : list A) (l' : list B) :
  mapM f l = Ok l' -> Forall2 (fun b a => f a = Ok b) l' l.
Proof.
  revert l'. induction l as [|a l IH]; intros l'; cbn [mapM].
  - intros [= <-]. constructor.
  - intros H. apply rbind_ok in H as (b0 & E0 & H).
    apply rbind_ok in H as (bs & E1 & H). injection H as <-.
    constructor; auto.
Qed.

Lemma allItems_holds (t : table) (items : list WorkItem) :
  allItems t = Ok items ->
  Forall2 holds_row (List.map toJSON items) (orderBy le_id t).
Proof.
  unfold allItems. intros H. apply mapM_Forall2 in H.
  induction H as [|i r items rows Hi _ IH]; cbn [List.map]; constructor;
    [|exact IH].
  exists i. split; [apply same_fields_toJSON | now apply rowToWorkItem_shows].
Qed.

Lemma exported_consistent (w : World) :
  priorities_ok (db w) = true -> exported w -> consistent w.
Proof.
  intros P (items & E & F).
  exists (encodeJsonl items), (List.map toJSON items), (orderBy le_id (db w)).
  split; [exact F|].
  assert (forallb item_ok items = true) as Hok.
  { apply forallb_forall. intros i Hi.
    destruct (mapM_inv _ _ _ E i Hi) as (r & Hr & Er).
    apply (rowToWorkItem_ok r i); [|exact Er].
    unfold priorities_ok in P. rewrite forallb_forall in P. apply P.
    now apply in_orderBy in Hr. }
  split; [now apply decode_encode|].
  split; [apply orderBy_perm|].
  split; [apply orderBy_ascending_ids | now apply allItems_holds].
Qed.

Lemma allocated_priorities (t t' : table) :
  allocated t t' -> priorities_ok t = true -> priorities_ok t' = true.
Proof.
  intros (r & -> & _ & S) P. unfold priorities_ok in *.
  rewrite forallb_app, P. cbn. now rewrite S.
Qed.

Lemma main_exports (clk : nat -> jsstring) (cmd : jsstring) (args : argv) :
  In cmd exporting_commands -> exports (commands.main clk (cmd :: args)).
Proof.
  intros H.
  destruct (exports_commands clk args) as (E1 & E2 & E3 & E4 & E5 & E6).
  repeat (destruct H as [<- | H]);
    [ exact E1 | exact E2 | exact E3 | exact E4 | exact E5 | exact E6
    | contradiction ].
Qed.

Lemma main_skips (clk : nat -> jsstring) (cmd : jsstring) (args : argv) :
  In cmd blocking_commands -> exports_or_skips (commands.main clk (cmd :: args)).
Proof.
  intros H. destruct (skips_commands clk args) as (S1 & S2).
  repeat (destruct H as [<- | H]); [ exact S1 | exact S2 | contradiction ].
Qed.

(** C2, as stated, fails for [import]: it never writes the file.  With the
    records 002 and 001 in this order in the file, [import] succeeds, the
    store by ascending id is 001, 002 and the file still decodes to 002,
    001. *)
Lemma import_keeps_file_order :
  let w' := fst (commands.main (fun _ => u "T1") [u "import"] reversed_world) in
  snd (commands.main (fun _ => u "T1") [u "import"] reversed_world)
  = Ok (Imported 2)
  /\ jsonl w' = jsonl reversed_world
  /\ allItems (db w')
     = Ok [item_of (sample_row "001" "open" 2 []);
           item_of (sample_row "002" "open" 2 [])]
  /\ rbind (decodeJsonl (match jsonl w' with Some text => text | None => [] end))
       (fun objs => Ok (List.map (fun o => prop o (u "id")) objs))
     = Ok [Some (JStr (u "002")); Some (JStr (u "001"))]
  /\ ~ consistent w'.
Proof.
  cbv zeta. split; [reflexivity|]. split; [reflexivity|].
  split; [reflexivity|]. split; [reflexivity|].
  intros (text & records & rows & Et & Ed & Hp & Hs & Hf).
  vm_compute in Et. injection Et as <-.
  vm_compute in Ed. injection Ed as <-.
  change (db (fst (commands.main (fun _ => u "T1") [u "import"] reversed_world)))
    with [sample_row "002" "open" 2 []; sample_row "001" "open" 2 []] in Hp.
  apply Permutation_sym, Permutation_length_2_inv in Hp as [-> | ->].
  - inversion Hs as [|? ? _ Ha]; subst. inversion Ha as [|? ? Hle _]; subst.
    vm_compute in Hle. now apply Hle.
  - inversion Hf as [|? ? ? ? (i & Hi & Hr) _]; subst.
    destruct Hi as (Hi & _). destruct Hr as (Hr & _).
    rewrite Hr in Hi. vm_compute in Hi. discriminate Hi.
Qed.

(** C2, amended. From a store with safe priorities, after a successful
    [add], [start], [close], [reopen], [edit] or [log] the file decodes,
    record by record, to the whole store by ascending numeric id; after a
    successful [block] or [unblock] it does too, unless the command found
    nothing to change, and then the store and the file are as they were. *)
Theorem export_consistency (clk : nat -> jsstring) (cmd : jsstring)
  (args : argv) (w w' : World) (out : output) :
  priorities_ok (db w) = true ->
  commands.main clk (cmd :: args) w = (w', Ok out) ->
  (In cmd exporting_commands -> consistent w')
  /\ (In cmd blocking_commands -> consistent w' \/ w' = w).
Proof.
  intros P E.
  assert (cmd <> u "import" -> priorities_ok (db w') = true) as P'.
  { intros Hc. pose proof (main_rows clk cmd args w Hc) as R.
    rewrite E in R. cbn [fst] in R.
    destruct R as [[_ R] | R]; [now apply R|].
    exact (allocated_priorities _ _ R P). }
  split; intros H.
  - apply exported_consistent.
    + apply P'. intros ->. repeat (destruct H as [H | H]; [discriminate H|]).
      contradiction.
    + exact (main_exports clk cmd args H w w' out E).
  - destruct (main_skips clk cmd args H w w' out E) as [X | ->]; [|now right].
    left. apply exported_consistent; [|exact X].
    apply P'. intros ->. repeat (destruct H as [H | H]; [discriminate H|]).
    contradiction.
Qed.

Lemma export_consistency_witness :
  priorities_ok (db sample_world) = true
  /\ consistent (fst (commands.main (fun _ => u "T1") [u "start"; u "2"]
                        sample_world)).
Proof.
  split; [reflexivity|].
  exact (proj1 (export_consistency (fun _ => u "T1") (u "start") [u "2"]
                  sample_world
                  (fst (commands.main (fun _ => u "T1") [u "start"; u "2"]
                          sample_world))
                  (Started (u "002") (u "Sample")) eq_refl eq_refl)
           (or_intror (or_introl eq_refl))).
Defined.

(** ** A session *)

(** The scenario of the blocking dependency: 002 is blocked by 001 until 001
    is closed. *)
Example scenario_blocking :
  List.map Work.id (db blocked_session) = [u "001"; u "002"]
  /\ listed_ids (snd (commands.main (fun _ => u "T1") [u "ready"] blocked_session))
     = [u "001"]
  /\ reported (snd (commands.main (fun _ => u "T1") [u "blocked"] blocked_session))
     = [(item_of (Work.mk (u "002") (u "Second") (u "open") 2 (u "task")
                    (u "T0") (u "T0") None
                    (Some (stringify (JArr [JStr (u "001")]))) None None None),
         [JStr (u "001")])]
  /\ listed_ids
       (snd (commands.main (fun _ => u "T2") [u "ready"]
               (session (fun _ => u "T1") [["close"; "001"]]%string
                  blocked_session)))
     = [u "002"]
  /\ exported blocked_session.
Proof.
  split; [reflexivity|]. split; [reflexivity|]. split; [reflexivity|].
  split; [reflexivity|]. eexists. split; reflexivity.
Qed.

(** ** The store of a checkout *)

Lemma patheqb_eq (a b : path) : patheqb a b = true <-> a = b.
Proof.
  revert b. induction a as [|x a IH]; intros [|y b]; cbn [patheqb];
    try (split; [discriminate | intros [=]]); [tauto|].
  rewrite andb_true_iff, jseqb_eq, IH. split; [intros [-> ->] | intros [= -> ->]]; auto.
Qed.

Lemma patheqb_refl (a : path) : patheqb a a = true.
Proof. now apply patheqb_eq. Qed.

(** X1. [findWorkDir] answers with the [.work] of the nearest directory
    that has one among the starting directory and its ancestors, the root
    directory left out: a [.work] in the root is never found, and the
    answer is [null] exactly when no directory on the way up but the root
    has one. *)
Theorem findWorkDir_nearest (existsSync : path -> bool) (dir : path) :
  match findWorkDir existsSync dir with
  | Some p =>
      exists below above,
        dir = below ++ above /\ above <> [] /\ p = u ".work" :: above
        /\ existsSync p = true
        /\ forall b1 b2, below = b1 ++ b2 -> b2 <> [] ->
             existsSync (u ".work" :: b2 ++ above) = false
  | None =>
      forall below above, dir = below ++ above -> above <> [] ->
        existsSync (u ".work" :: above) = false
  end.
Proof.
  induction dir as [|c parent IH]; cbn [findWorkDir].
  - intros below above E Hne. symmetry in E. apply app_eq_nil in E as [_ E].
    contradiction.
  - destruct (existsSync (u ".work" :: c :: parent)) eqn:E.
    + exists [], (c :: parent). repeat split; [discriminate | exact E|].
      intros b1 b2 E0 Hne. symmetry in E0. apply app_eq_nil in E0 as [_ E0].
      contradiction.
    + destruct (findWorkDir existsSync parent) as [p|].
      * destruct IH as (below & above & -> & Hne & -> & Hp & Hnear).
        exists (c :: below), above. repeat split; auto.
        intros [|x b1] b2 E0 Hb2; cbn [app] in E0.
        -- subst b2. exact E.
        -- injection E0 as _ E0. now apply (Hnear b1 b2).
      * intros [|x below] above E0 Hne; cbn [app] in E0.
        -- now subst above.
        -- injection E0 as _ E0. now apply (IH below above).
Qed.

Lemma findWorkDir_found (existsSync : path -> bool) (below above : path) :
  above <> [] -> existsSync (u ".work" :: above) = true ->
  (forall b1 b2, below = b1 ++ b2 -> b2 <> [] ->
     existsSync (u ".work" :: b2 ++ above) = false) ->
  findWorkDir existsSync (below ++ above) = Some (u ".work" :: above).
Proof.
  intros Hne Hex. induction below as [|c below IH]; intros Hnear.
  - destruct above as [|a above]; [contradiction|]. cbn [app findWorkDir].
    now rewrite Hex.
  - pose proof (Hnear [] (c :: below) eq_refl) as H0. cbn [app] in H0.
    cbn [app findWorkDir]. rewrite H0 by discriminate.
    apply IH. intros b1 b2 -> Hb2. now apply (Hnear (c :: b1) b2).
Qed.

Lemma findWorkDir_ext (f g : path -> bool) (dir : path) :
  (forall p, p <> [u ".work"] -> f p = g p) ->
  findWorkDir f dir = findWorkDir g dir.
Proof.
  intros H. induction dir as [|c parent IH]; [reflexivity|].
  cbn [findWorkDir]. rewrite IH, H; [reflexivity | discriminate].
Qed.

(** X2. [init] looks at the current directory only.  When it holds a
    [.work] nothing changes; otherwise an empty store appears there and
    nothing else changes.  Either way a second [init] finds the directory
    in place, and every directory from the current one downwards that has
    no nearer [.work] finds this one from then on, also when an ancestor
    has a store of its own.  In the root directory [init] creates a store
    that [findWorkDir] finds from nowhere. *)
Theorem init_creates_once (cwd : path) (d : checkout.Disk) :
  let workDir := u ".work" :: cwd in
  let d' := fst (checkout.init cwd d) in
  (d workDir <> None -> checkout.init cwd d = (d, checkout.DirectoryExists))
  /\ (d workDir = None ->
      snd (checkout.init cwd d) = checkout.Initialized
      /\ d' workDir = Some checkout.fresh
      /\ forall p, p <> workDir -> d' p = d p)
  /\ checkout.init cwd d' = (d', checkout.DirectoryExists)
  /\ (cwd <> [] ->
      forall below,
        (forall b1 b2, below = b1 ++ b2 -> b2 <> [] ->
           d (u ".work" :: b2 ++ cwd) = None) ->
        findWorkDir (checkout.existsSync d') (below ++ cwd) = Some workDir)
  /\ (cwd = [] ->
      forall dir,
        findWorkDir (checkout.existsSync d') dir
        = findWorkDir (checkout.existsSync d) dir).
Proof.
  cbv zeta. unfold checkout.init, checkout.existsSync.
  assert (forall p, p <> u ".work" :: cwd -> patheqb p (u ".work" :: cwd) = false)
    as Hneq.
  { intros p Hp. destruct (patheqb _ _) eqn:E; [|reflexivity].
    now apply patheqb_eq in E. }
  destruct (d (u ".work" :: cwd)) as [w|] eqn:E; cbn [fst snd].
  - repeat match goal with |- _ /\ _ => split end.
    + reflexivity.
    + discriminate.
    + now rewrite E.
    + intros Hne below Hnear. apply findWorkDir_found; [exact Hne | now rewrite E|].
      intros b1 b2 E0 Hb2. now rewrite (Hnear b1 b2).
    + reflexivity.
  - repeat match goal with |- _ /\ _ => split end.
    + intros H. now contradiction H.
    + intros _. rewrite patheqb_refl. repeat split. intros p Hp. now rewrite Hneq.
    + now rewrite patheqb_refl.
    + intros Hne below Hnear. apply findWorkDir_found; [exact Hne | |].
      * now rewrite patheqb_refl.
      * intros b1 b2 E0 Hb2. rewrite Hneq, (Hnear b1 b2); auto.
        intros [= E1]. apply (f_equal (@List.length _)) in E1.
        rewrite length_app in E1. destruct b2; [contradiction | cbn in E1; lia].
    + intros -> dir. apply findWorkDir_ext. intros p Hp. now rewrite Hneq.
Qed.

(** ** Commands that only read the table *)

Lemma readonly_ret {A} (a : A) : readonly (ret a).
Proof. intros w. split; reflexivity. Qed.

Lemma readonly_exit1 {A} (r : report) : readonly (@exit1 A r).
Proof. intros w. split; reflexivity. Qed.

Lemma readonly_lift {A} (r : result A) : readonly (lift r).
Proof. intros w. split; reflexivity. Qed.

Lemma readonly_query {A} (q : table -> A) : readonly (query q).
Proof. intros w. split; reflexivity. Qed.

Lemma readonly_bind {A B} (m : M A) (k : A -> M B) :
  readonly m -> (forall a, readonly (k a)) -> readonly (bind m k).
Proof.
  intros Hm Hk w. destruct (Hm w) as [H1 H2]. unfold bind. split.
  - destruct (m w) as [w1 [a|e]]; cbn [fst] in H1; subst w1; [|reflexivity].
    apply Hk.
  - intros f. specialize (H2 f).
    destruct (Hm {| db := db w; jsonl := f |}) as [H3 _].
    destruct (m {| db := db w; jsonl := f |}) as [w2 r2].
    destruct (m w) as [w1 r1]. cbn [fst snd] in *. subst w1 w2 r2.
    destruct r1 as [a|e]; [|reflexivity]. apply Hk.
Qed.

Lemma readonly_requireRow (id : jsstring) : readonly (requireRow id).
Proof.
  unfold requireRow. apply readonly_bind; [apply readonly_query|].
  intros [r|]; [apply readonly_ret | apply readonly_exit1].
Qed.

Lemma readonly_queries (args : argv) :
  readonly (commands.list args) /\ readonly (commands.show args)
  /\ readonly (commands.ready args) /\ readonly (commands.blocked args)
  /\ readonly (commands.help args).
Proof.
  repeat match goal with |- _ /\ _ => split end;
    unfold commands.list, commands.show, commands.ready, commands.blocked,
      commands.help;
    repeat first
      [ apply readonly_ret | apply readonly_exit1 | apply readonly_lift
      | apply readonly_query | apply readonly_requireRow
      | apply readonly_bind; [|intros ?]
      | match goal with
        | |- readonly (match ?x with _ => _ end) => destruct x
        end ].
Qed.

(** X3. [list], [show], [ready], [blocked] and [help] never write: whatever
    the arguments and the store, also when they fail, the table and the
    file are left as they were; and their answer is read from the table
    alone, the contents of the file do not matter. *)
Theorem queries_never_write (clk : nat -> jsstring) (cmd : jsstring)
  (args : argv) (w : World) :
  In cmd query_commands ->
  fst (commands.main clk (cmd :: args) w) = w
  /\ forall f,
       snd (commands.main clk (cmd :: args) {| db := db w; jsonl := f |})
       = snd (commands.main clk (cmd :: args) w).
Proof.
  intros Hcmd.
  destruct (readonly_queries args) as (R1 & R2 & R3 & R4 & R5).
  cbn in Hcmd.
  repeat (destruct Hcmd as [<- | Hcmd]);
    first [ contradiction | apply R1 | apply R2 | apply R3 | apply R4
          | apply (readonly_ret Help) ].
Qed.

Lemma queries_never_write_witness :
  In (u "list") query_commands
  /\ fst (commands.main (fun _ => u "T1") [u "list"; u "--status=closed"]
            sample_world) = sample_world.
Proof.
  split; [now left|].
  apply (queries_never_write (fun _ => u "T1") (u "list") [u "--status=closed"]
           sample_world). now left.
Defined.

(** ** Diagnostics come before the writes *)

Lemma rbind_throws {A B} (r : result A) (k : A -> result B) :
  throws_runtime r -> (forall a, throws_runtime (k a)) ->
  throws_runtime (rbind r k).
Proof.
  intros Hr Hk e. destruct r as [a|e']; cbn [rbind]; [apply Hk|].
  intros [= <-]. now apply Hr.
Qed.

Lemma ok_throws {A} (a : A) : throws_runtime (Ok a).
Proof. intros e. discriminate. Qed.

Lemma mapM_throws {A B} (f : A -> result B) (l : list A) :
  (forall a, throws_runtime (f a)) -> throws_runtime (mapM f l).
Proof.
  intros Hf. induction l as [|a l IH]; cbn [mapM]; [apply ok_throws|].
  apply rbind_throws; [apply Hf|]. intros b.
  apply rbind_throws; [exact IH|]. intros bs. apply ok_throws.
Qed.

Lemma parse_string_body_throws (s : jsstring) :
  throws_runtime (parse_string_body s).
Proof.
  intros e. revert e.
  induction s as [s IH] using (well_founded_induction
                                 (Wf_nat.well_founded_ltof _ (@List.length N))).
  intros e. destruct s as [|c r]; cbn [parse_string_body];
    [now intros [= <-]|].
  destruct (c =? 34); [discriminate|].
  assert (forall x t, (List.length t < List.length (c :: r))%nat ->
                      consR x (parse_string_body t) = Throw e -> runtime_error e)
    as Hcons.
  { intros x t Ht. unfold consR. destruct (parse_string_body t) eqn:E;
      cbn [rbind]; [discriminate|]. intros [= <-]. now apply (IH t Ht). }
  destruct (c =? 92).
  - destruct r as [|e0 r1]; [now intros [= <-]|].
    destruct (e0 =? 117).
    + destruct r1 as [|h1 [|h2 [|h3 [|h4 r2]]]]; try (now intros [= <-]).
      destruct (hexval h1), (hexval h2), (hexval h3), (hexval h4);
        try (now intros [= <-]).
      apply Hcons. cbn [List.length]. lia.
    + destruct (unescape e0); [|now intros [= <-]].
      apply Hcons. cbn [List.length]. lia.
  - destruct (c <? 32); [now intros [= <-]|].
    apply Hcons. cbn [List.length]. lia.
Qed.

Section ParserFaults.
Variable pv : jsstring -> result (json * jsstring).
Hypothesis pv_throws : forall s, throws_runtime (pv s).

Lemma parse_elements_throws (k : nat) :
  forall acc s, throws_runtime (parse_elements pv k acc s).
Proof.
  induction k as [|k IH]; intros acc s e; cbn [parse_elements];
    [now intros [= <-]|].
  destruct (pv s) as [[x t]|e0] eqn:E;
    [|intros [= <-]; exact (pv_throws s e0 E)].
  destruct (skip_ws t) as [|c t']; [now intros [= <-]|].
  destruct (c =? 44); [apply IH|].
  destruct (c =? 93); [discriminate | now intros [= <-]].
Qed.

Lemma parse_members_throws (k : nat) :
  forall acc s, throws_runtime (parse_members pv k acc s).
Proof.
  induction k as [|k IH]; intros acc s e; cbn [parse_members];
    [now intros [= <-]|].
  destruct (skip_ws s) as [|q r0]; [now intros [= <-]|].
  destruct (q =? 34); [|now intros [= <-]].
  destruct (parse_string_body r0) as [[key r1]|e0] eqn:E0;
    [|intros [= <-]; exact (parse_string_body_throws r0 e0 E0)].
  destruct (skip_ws r1) as [|q' r2]; [now intros [= <-]|].
  destruct (q' =? 58); [|now intros [= <-]].
  destruct (pv r2) as [[x r3]|e1] eqn:E1;
    [|intros [= <-]; exact (pv_throws r2 e1 E1)].
  destruct (skip_ws r3) as [|c r4]; [now intros [= <-]|].
  destruct (c =? 44); [apply IH|].
  destruct (c =? 125); [discriminate | now intros [= <-]].
Qed.
End ParserFaults.

Lemma number_of_digits_throws (neg : bool) (ds rest : jsstring) :
  throws_runtime (number_of_digits neg ds rest).
Proof.
  intros e. unfold number_of_digits.
  destruct (match rest with [] => false | c :: _ => _ end);
    [now intros [= <-]|].
  destruct (isSafeInteger _); [discriminate | now intros [= <-]].
Qed.

Lemma parse_number_throws (s : jsstring) : throws_runtime (parse_number s).
Proof.
  intros e. unfold parse_number.
  destruct (match s with [] => (false, []) | c :: r0 => _ end) as [neg s1].
  destruct s1 as [|c t]; [now intros [= <-]|].
  destruct (c =? 48); [apply number_of_digits_throws|].
  destruct (isDigit c); [|now intros [= <-]].
  destruct (span_digits (c :: t)). apply number_of_digits_throws.
Qed.

Lemma expect_literal_throws (lit : jsstring) (x : json) (s : jsstring) :
  throws_runtime (expect_literal lit x s).
Proof.
  intros e. unfold expect_literal.
  destruct (startsWith lit s); [discriminate | now intros [= <-]].
Qed.

Lemma parse_value_throws (n : nat) : forall s, throws_runtime (parse_value n s).
Proof.
  induction n as [|n IH]; intros s e; cbn [parse_value]; [now intros [= <-]|].
  destruct (skip_ws s) as [|c t]; [now intros [= <-]|].
  destruct (c =? 123).
  { destruct (skip_ws t) as [|c' t']; [now intros [= <-]|].
    destruct (c' =? 125); [discriminate|]. now apply parse_members_throws. }
  destruct (c =? 91).
  { destruct (skip_ws t) as [|c' t']; [now intros [= <-]|].
    destruct (c' =? 93); [discriminate|]. now apply parse_elements_throws. }
  destruct (c =? 34).
  { apply rbind_throws; [apply parse_string_body_throws|].
    intros p. apply ok_throws. }
  destruct (c =? 116); [apply expect_literal_throws|].
  destruct (c =? 102); [apply expect_literal_throws|].
  destruct (c =? 110); [apply expect_literal_throws|].
  apply parse_number_throws.
Qed.

Lemma JSON_parse_throws (s : jsstring) : throws_runtime (JSON_parse s).
Proof.
  intros e. unfold JSON_parse.
  destruct (parse_value _ s) as [[x r]|e0] eqn:E;
    [|intros [= <-]; exact (parse_value_throws _ _ _ E)].
  destruct (skip_ws r); [discriminate | now intros [= <-]].
Qed.

Lemma parseOrUndefined_throws (x : option jsstring) :
  throws_runtime (parseOrUndefined x).
Proof.
  unfold parseOrUndefined. destruct x as [[|c s]|]; try apply ok_throws.
  apply rbind_throws; [apply JSON_parse_throws | intros v; apply ok_throws].
Qed.

Lemma rowToWorkItem_throws (r : Work.t) : throws_runtime (rowToWorkItem r).
Proof.
  unfold rowToWorkItem.
  repeat (apply rbind_throws; [apply parseOrUndefined_throws | intros ?]).
  apply ok_throws.
Qed.

Lemma allItems_throws (t : table) : throws_runtime (allItems t).
Proof. apply mapM_throws, rowToWorkItem_throws. Qed.

Lemma rowOfItem_throws (item : json) : throws_runtime (commands.rowOfItem item).
Proof.
  assert (forall v, throws_runtime (commands.bindText v)) as HT.
  { intros [[| | | | |]|] e; cbn; try discriminate; now intros [= <-]. }
  assert (forall v, throws_runtime (commands.bindInteger v)) as HI.
  { intros [[| | | | |]|] e; cbn; try discriminate; now intros [= <-]. }
  assert (forall A (x : option A), throws_runtime (commands.notNull x)) as HN.
  { intros A [a|] e; cbn; [discriminate | now intros [= <-]]. }
  unfold commands.rowOfItem.
  destruct item; try (intros e; now intros [= <-]);
    repeat first [ apply rbind_throws; [first [apply HT | apply HI | apply HN]
                                       | intros ?]
                 | match goal with
                   | |- throws_runtime (match ?x with _ => _ end) =>
                       destruct x; [|intros e; now intros [= <-]]
                   end
                 | apply ok_throws ].
Qed.

Lemma pure_guarded {A} (m : M A) : pure m -> guarded m.
Proof. intros H w w' r E. specialize (H w). now rewrite E in H. Qed.

Lemma quiet_guarded {A} (m : M A) : quiet m -> guarded m.
Proof. intros H w w' r E. now apply H in E. Qed.

Lemma guarded_bind {A B} (m : M A) (k : A -> M B) :
  pure m -> (forall a, guarded (k a)) -> guarded (bind m k).
Proof.
  intros Hm Hk w w' r. unfold bind. specialize (Hm w).
  destruct (m w) as [w1 [a|e]]; cbn [fst] in Hm; subst w1.
  - apply Hk.
  - now intros [= <- _].
Qed.

Lemma quiet_bind {A B} (m : M A) (k : A -> M B) :
  quiet m -> (forall a, quiet (k a)) -> quiet (bind m k).
Proof.
  intros Hm Hk w w' e. unfold bind.
  destruct (m w) as [w1 [a|e1]] eqn:E.
  - apply Hk.
  - intros [= _ <-]. exact (Hm _ _ _ E).
Qed.

Lemma quiet_ret {A} (a : A) : quiet (ret a).
Proof. intros w w' e. discriminate. Qed.

Lemma quiet_run (stmt : table -> table) : quiet (run stmt).
Proof. intros w w' e. discriminate. Qed.

Lemma quiet_lift {A} (r : result A) : throws_runtime r -> quiet (lift r).
Proof. intros H w w' e [= _ E]. now apply H. Qed.

Lemma quiet_runInsert (r : Work.t) : quiet (runInsert r).
Proof.
  intros w w' e. unfold runInsert, insertRow.
  destruct (existsb _ _); [now intros [= _ <-] | discriminate].
Qed.

Lemma quiet_export : quiet exportToJsonl.
Proof.
  intros w w' e. rewrite exportToJsonl_run.
  destruct (allItems (db w)) eqn:E; [discriminate|].
  intros [= _ <-]. exact (allItems_throws _ _ E).
Qed.

Lemma quiet_insertAll (items : jsons) : quiet (commands.insertAll items).
Proof.
  induction items as [|x items IH]; cbn [commands.insertAll];
    [apply quiet_ret|].
  apply quiet_bind; [apply quiet_lift, rowOfItem_throws | intros row].
  apply quiet_bind; [apply quiet_runInsert | intros _; exact IH].
Qed.

(** Every command checks and reports before it writes: after the first
    write only the export or an insertion can fail. *)
Lemma guarded_commands (clk : nat -> jsstring) (args : argv) :
  guarded (commands.init args) /\ guarded (commands.add clk args)
  /\ guarded (commands.list args) /\ guarded (commands.show args)
  /\ guarded (commands.start clk args) /\ guarded (commands.close clk args)
  /\ guarded (commands.reopen clk args) /\ guarded (commands.log clk args)
  /\ guarded (commands.block clk args) /\ guarded (commands.unblock clk args)
  /\ guarded (commands.ready args) /\ guarded (commands.blocked args)
  /\ guarded (commands.edit clk args) /\ guarded (commands.import args)
  /\ guarded (commands.export args) /\ guarded (commands.help args).
Proof.
  repeat match goal with |- _ /\ _ => split end;
    unfold commands.init, commands.add, commands.list, commands.show,
      commands.start, commands.close, commands.reopen, commands.log,
      commands.block, commands.unblock, commands.ready, commands.blocked,
      commands.edit, commands.import, commands.export, commands.help;
    repeat first
      [ apply pure_guarded;
        first [ apply pure_ret | apply pure_exit1 | apply pure_lift
              | apply pure_query | apply pure_requireRow ]
      | apply guarded_bind;
        [ first [ apply pure_ret | apply pure_exit1 | apply pure_lift
                | apply pure_query | apply pure_requireRow
                | intros ?; reflexivity ]
        | intros ? ]
      | match goal with
        | |- guarded (match ?x with _ => _ end) => destruct x
        | |- guarded (if ?x then _ else _) => destruct x
        end
      | apply quiet_guarded;
        solve [ repeat first
                  [ apply quiet_ret | apply quiet_run | apply quiet_runInsert
                  | apply quiet_export | apply quiet_insertAll
                  | apply quiet_bind; [|intros ?] ] ] ].
Qed.

(** X4. Whenever the program ends with one of its own diagnostics (a usage
    message, "not found", "Unknown field", "Unknown command", "No
    work.jsonl file found") and exit code 1, it has written nothing: the
    table and the file are as they were. *)
Theorem diagnostics_precede_writes (clk : nat -> jsstring) (argv : argv)
  (w : World) (r : report) :
  snd (commands.main clk argv w) = Throw (Exit1 r) ->
  fst (commands.main clk argv w) = w.
Proof.
  destruct (commands.main clk argv w) as [w' out] eqn:E. cbn [fst snd].
  intros ->. revert E.
  assert (guarded (commands.main clk argv)) as G; [|apply G].
  unfold commands.main. destruct argv as [|cmd args];
    [apply pure_guarded, pure_ret|].
  destruct (_ || _ || _ || _); [apply pure_guarded, pure_ret|].
  destruct (guarded_commands clk args)
    as (G1 & G2 & G3 & G4 & G5 & G6 & G7 & G8 & G9 & G10 & G11 & G12 & G13
        & G14 & G15 & G16).
  cbn [commands.lookup commands.entries].
  repeat match goal with
    | |- context [if jseqb ?k cmd then _ else _] => destruct (jseqb k cmd)
    end; try assumption.
  destruct (existsb _ _); apply pure_guarded; [apply pure_lift | apply pure_exit1].
Qed.

Lemma diagnostics_precede_writes_witness :
  snd (commands.main (fun _ => u "T1") [u "start"; u "999"] sample_world)
  = Throw (Exit1 (NotFound (u "999")))
  /\ fst (commands.main (fun _ => u "T1") [u "start"; u "999"] sample_world)
     = sample_world.
Proof.
  split; [reflexivity|].
  apply (diagnostics_precede_writes (fun _ => u "T1") [u "start"; u "999"]
           sample_world (NotFound (u "999"))).
  reflexivity.
Defined.

(** ** Ids on the command line *)

Lemma padStart0_long (n : nat) (s : jsstring) :
  (n <= List.length s)%nat -> padStart0 n s = s.
Proof.
  intros H. unfold padStart0. now replace (n - List.length s)%nat with O by lia.
Qed.

Lemma length_padStart0 (n : nat) (s : jsstring) :
  List.length (padStart0 n s) = Nat.max n (List.length s).
Proof. unfold padStart0. rewrite length_app, repeat_length. lia. Qed.

Lemma padId_idem (s : jsstring) : padId (padId s) = padId s.
Proof.
  unfold padId. apply padStart0_long. rewrite length_padStart0. lia.
Qed.

Lemma startsWith_length (p s : jsstring) :
  startsWith p s = true -> (List.length p <= List.length s)%nat.
Proof.
  revert s. induction p as [|x p IH]; intros s; cbn [startsWith List.length];
    [lia|].
  destruct s as [|y s]; [discriminate|]. rewrite andb_true_iff.
  intros [_ H]. apply IH in H. cbn [List.length]. lia.
Qed.

(** A flag is longer than a short id: padding does not make an argument a
    flag, nor the other way round. *)
Lemma startsWith_padId (p s : jsstring) :
  (3 < List.length p)%nat -> startsWith p (padId s) = startsWith p s.
Proof.
  intros Hp. destruct (Nat.le_gt_cases 3 (List.length s)) as [H | H].
  - unfold padId. now rewrite padStart0_long.
  - destruct (startsWith p (padId s)) eqn:E1.
    + apply startsWith_length in E1. unfold padId in E1.
      rewrite length_padStart0 in E1. lia.
    + destruct (startsWith p s) eqn:E2; [|reflexivity].
      apply startsWith_length in E2. lia.
Qed.

Lemma flagValue_padId (flag : string) (id : jsstring) (rest : argv) :
  (3 < List.length (u flag))%nat ->
  flagValue flag (padId id :: rest) = flagValue flag (id :: rest).
Proof.
  intros Hp. unfold flagValue. cbn [find]. rewrite startsWith_padId by exact Hp.
  destruct (startsWith (u flag) id) eqn:E; [|reflexivity].
  apply startsWith_length in E. unfold padId. rewrite padStart0_long; [reflexivity | lia].
Qed.

Lemma padId_cons (c : N) (id : jsstring) :
  exists c' id', padId (c :: id) = c' :: id'.
Proof.
  destruct (padId (c :: id)) as [|c' id'] eqn:E; [|eauto].
  apply (f_equal (@List.length _)) in E. unfold padId in E.
  rewrite length_padStart0 in E. cbn in E. lia.
Qed.

Lemma requireRow_run {A} (id : jsstring) (k : Work.t -> M A) (w : World) :
  bind (requireRow id) k w
  = match selectById (padId id) (db w) with
    | Some r => k r w
    | None => (w, Throw (Exit1 (NotFound id)))
    end.
Proof.
  unfold bind at 1. unfold requireRow, bind, query.
  destruct (selectById _ _); reflexivity.
Qed.

Lemma requireRow_same (id pid : jsstring) (k : Work.t -> M output)
  (w : World) :
  padId id = pid -> padId pid = pid ->
  same_answer id (bind (requireRow id) k w) (bind (requireRow pid) k w).
Proof.
  intros E1 E2. rewrite !requireRow_run, E1, E2. unfold same_answer.
  destruct (selectById pid (db w)); cbn [fst snd]; [now auto|].
  split; [reflexivity|]. right. now rewrite E1.
Qed.

(** X5. An id may be given short or padded: for every command that takes
    an id first, the arguments [1 ...] and [001 ...] leave the same table
    and the same file and give the same answer, but for the id quoted in
    the "not found" message.  A row whose id has fewer than three code
    units is beyond the reach of these commands, since every lookup is by
    the padded id. *)
Theorem padId_normalises (clk : nat -> jsstring) (cmd id : jsstring)
  (rest : argv) (w : World) :
  id <> [] -> In cmd id_commands ->
  same_answer id (commands.main clk (cmd :: id :: rest) w)
    (commands.main clk (cmd :: padId id :: rest) w)
  /\ forall r, selectById (padId id) (db w) = Some r ->
               (3 <= List.length (Work.id r))%nat.
Proof.
  intros Hid Hcmd. split.
  2:{ intros r H. apply selectById_some in H as [_ ->]. unfold padId.
      rewrite length_padStart0. lia. }
  destruct id as [|c id]; [contradiction|].
  destruct (padId_cons c id) as (c' & id' & E).
  assert (padId (c' :: id') = c' :: id') as Eidem
    by (rewrite <- E; apply padId_idem).
  pose proof (flagValue_padId "--agent=" (c :: id) rest) as EF.
  cbn in Hcmd.
  repeat (destruct Hcmd as [<- | Hcmd]); try contradiction.
  - change (same_answer (c :: id) (commands.show ((c :: id) :: rest) w)
              (commands.show (padId (c :: id) :: rest) w)).
    unfold commands.show. cbn [nth_error]. rewrite E.
    now apply requireRow_same.
  - change (same_answer (c :: id) (commands.start clk ((c :: id) :: rest) w)
              (commands.start clk (padId (c :: id) :: rest) w)).
    unfold commands.start. cbn [nth_error]. rewrite E, Eidem.
    now apply requireRow_same.
  - change (same_answer (c :: id) (commands.close clk ((c :: id) :: rest) w)
              (commands.close clk (padId (c :: id) :: rest) w)).
    unfold commands.close. cbn [nth_error List.length skipn]. rewrite E, Eidem.
    now apply requireRow_same.
  - change (same_answer (c :: id) (commands.reopen clk ((c :: id) :: rest) w)
              (commands.reopen clk (padId (c :: id) :: rest) w)).
    unfold commands.reopen. cbn [nth_error]. rewrite E, Eidem.
    now apply requireRow_same.
  - change (same_answer (c :: id) (commands.log clk ((c :: id) :: rest) w)
              (commands.log clk (padId (c :: id) :: rest) w)).
    unfold commands.log. rewrite EF by (cbn; lia).
    cbn [nth_error skipn]. rewrite E, Eidem.
    destruct (join [32] (filter notFlag rest)); [split; auto|].
    now apply requireRow_same.
  - change (same_answer (c :: id) (commands.block clk ((c :: id) :: rest) w)
              (commands.block clk (padId (c :: id) :: rest) w)).
    unfold commands.block. destruct rest as [|[|b bid] rest];
      cbn [nth_error]; rewrite E, ?Eidem; try (split; auto; fail).
    now apply requireRow_same.
  - change (same_answer (c :: id) (commands.unblock clk ((c :: id) :: rest) w)
              (commands.unblock clk (padId (c :: id) :: rest) w)).
    unfold commands.unblock. destruct rest as [|[|b bid] rest];
      cbn [nth_error]; rewrite E, ?Eidem; try (split; auto; fail).
    now apply requireRow_same.
  - change (same_answer (c :: id) (commands.edit clk ((c :: id) :: rest) w)
              (commands.edit clk (padId (c :: id) :: rest) w)).
    unfold commands.edit. destruct rest as [|[|f field] rest];
      cbn [nth_error skipn]; rewrite E, ?Eidem; try (split; auto; fail).
    destruct (join [32] rest); [split; auto|].
    now apply requireRow_same.
Qed.

Lemma padId_normalises_witness :
  u "1" <> [] /\ In (u "close") id_commands
  /\ commands.main (fun _ => u "T1") [u "close"; u "001"; u "done"] sample_world
     = commands.main (fun _ => u "T1") [u "close"; u "1"; u "done"] sample_world.
Proof.
  split; [discriminate|]. split; [cbn; tauto|].
  destruct (padId_normalises (fun _ => u "T1") (u "close") (u "1") [u "done"]
              sample_world) as [[E1 E2] _]; [discriminate | cbn; tauto|].
  reflexivity.
Defined.

(** ** Flags *)

Lemma startsWith_app (p s : jsstring) :
  startsWith p s = true <-> exists rest, s = p ++ rest.
Proof.
  revert s. induction p as [|x p IH]; intros s; cbn [startsWith app].
  - split; [intros _; now exists s | reflexivity].
  - destruct s as [|y s]; [split; [discriminate | intros [rest [=]]]|].
    rewrite andb_true_iff, N.eqb_eq, IH. split.
    + intros [-> [rest ->]]. now exists rest.
    + intros [rest [= -> ->]]. split; [reflexivity | now exists rest].
Qed.

(** The first field of a split: the text before the first separator. *)
Lemma split_first (sep : N) (s : jsstring) :
  exists v tail more,
    s = v ++ tail /\ ~ In sep v
    /\ (tail = [] \/ exists t, tail = sep :: t)
    /\ split sep s = v :: more.
Proof.
  induction s as [|c r (v & tail & more & E & Hv & Ht & Hs)]; cbn [split].
  - exists [], [], []. repeat split; auto.
  - destruct (c =? sep) eqn:Ec.
    + apply N.eqb_eq in Ec as ->. exists [], (sep :: r), (split sep r).
      repeat split; eauto.
    + apply N.eqb_neq in Ec. rewrite Hs. exists (c :: v), tail, more.
      subst r. repeat split; auto. intros [-> | H]; auto.
Qed.

(** X6. The value of a flag such as [--type=] is read from the first
    argument that starts with the flag, and it is the text between the
    flag and the next [=] sign or the end of the argument: whatever follows
    a second [=] is dropped.  Without such an argument there is no value. *)
Theorem flagValue_cut (flag : string) (body : jsstring) (args : argv) :
  u flag = body ++ [61] -> ~ In 61 body ->
  match find (startsWith (u flag)) args with
  | None => flagValue flag args = None
  | Some a =>
      exists v tail,
        a = u flag ++ v ++ tail /\ ~ In 61 v
        /\ (tail = [] \/ exists t, tail = 61 :: t)
        /\ flagValue flag args = Some v
  end.
Proof.
  intros Ef Hb. unfold flagValue.
  destruct (find (startsWith (u flag)) args) as [a|] eqn:E; [|reflexivity].
  apply find_some in E as [_ E]. apply startsWith_app in E as [rest ->].
  destruct (split_first 61 rest) as (v & tail & more & -> & Hv & Ht & Hs).
  exists v, tail. repeat split; auto.
  rewrite Ef, <- app_assoc. cbn [app].
  rewrite split_app_sep by (apply Forall_forall; intros x Hx ->; contradiction).
  now rewrite Hs.
Qed.

Lemma flagValue_cut_witness :
  u "--type=" = u "--type" ++ [61] /\ ~ In 61 (u "--type")
  /\ flagValue "--type=" [u "Fix"; u "--type=bug=x"; u "--type=task"]
     = Some (u "bug").
Proof.
  assert (~ In 61 (u "--type")) as Hb by (cbn; intuition discriminate).
  split; [reflexivity|]. split; [exact Hb|].
  pose proof (flagValue_cut "--type=" (u "--type")
                [u "Fix"; u "--type=bug=x"; u "--type=task"] eq_refl Hb) as H.
  reflexivity.
Defined.

(** ** list with a status *)

Lemma list_run (args : argv) (w : World) :
  forallb row_ok (db w) = true ->
  commands.list args w
  = (w, Ok (list_output
              (List.map item_of
                 (orderBy le_priority_id
                    (filter (selected (flagValue "--status=" args)) (db w)))))).
Proof.
  intros H. rewrite forallb_forall in H.
  unfold commands.list, bind, query, lift, ret.
  fold (selected (flagValue "--status=" args)).
  set (rows := orderBy le_priority_id _).
  assert (mapM rowToWorkItem rows = Ok (List.map item_of rows)) as E.
  { apply mapM_total. intros r Hr. apply row_ok_item, H.
    apply in_orderBy in Hr. now apply filter_In in Hr as [Hr _]. }
  destruct rows; [reflexivity|]. now rewrite E.
Qed.

Lemma filter_none {A} (f : A -> bool) (l : list A) :
  (forall x, In x l -> f x = false) -> filter f l = [].
Proof.
  induction l as [|x l IH]; intros H; [reflexivity|]. cbn [filter].
  rewrite (H x) by now left. apply IH. intros y Hy. apply H. now right.
Qed.

(** X7. With [--status=X], [list] shows exactly the rows whose status is
    [X], each once, closed rows too when [X] is [closed], by ascending
    priority and then ascending numeric id; a status no row has gives "No
    work items found", and so does every misspelt one, since the value is
    not checked.  An empty value selects as no flag does. *)
Theorem list_status_filter (args : argv) (w : World) (s : jsstring) :
  forallb row_ok (db w) = true ->
  flagValue "--status=" args = Some s ->
  exists rows,
    commands.list args w = (w, Ok (list_output (List.map item_of rows)))
    /\ Sorted before rows
    /\ Permutation rows
         (filter (fun r => match s with
                           | [] => negb (isClosed r)
                           | _ :: _ => jseqb (Work.status r) s
                           end) (db w))
    /\ (s <> [] -> forall r, In r rows <-> In r (db w) /\ Work.status r = s)
    /\ (s <> [] -> (forall r, In r (db w) -> Work.status r <> s) ->
        rows = []).
Proof.
  intros H F. rewrite (list_run args w H), F.
  set (sel := selected (Some s)).
  exists (orderBy le_priority_id (filter sel (db w))).
  split; [reflexivity|]. split; [apply orderBy_sorted|].
  split; [|split].
  - replace (filter _ (db w)) with (filter sel (db w));
      [apply orderBy_perm|].
    apply filter_ext. intros r. unfold sel, selected. now destruct s.
  - intros Hs r. rewrite in_orderBy, filter_In. unfold sel, selected.
    destruct s as [|c s]; [contradiction|]. now rewrite jseqb_eq.
  - intros Hs Hno. rewrite filter_none; [reflexivity|].
    intros r Hr. unfold sel, selected. destruct s as [|c s]; [contradiction|].
    apply jseqb_neq. now apply Hno.
Qed.

Lemma list_status_filter_witness :
  forallb row_ok (db sample_world) = true
  /\ flagValue "--status=" [u "--status=closed"] = Some (u "closed")
  /\ List.map id (listed (snd (commands.list [u "--status=closed"] sample_world)))
     = [u "001"].
Proof.
  split; [reflexivity|]. split; [reflexivity|].
  destruct (list_status_filter [u "--status=closed"] sample_world (u "closed")
              eq_refl eq_refl) as (rows & E & _).
  reflexivity.
Defined.

(** ** The order of the dependency queries *)

Lemma before_trans (a b c : Work.t) : before a b -> before b c -> before a c.
Proof. unfold before. lia. Qed.

Lemma orderBy_strongly_sorted (l : table) :
  StronglySorted before (orderBy le_priority_id l).
Proof.
  apply Sorted_StronglySorted; [|apply orderBy_sorted].
  intros a b c. apply before_trans.
Qed.

Lemma StronglySorted_filter {A} (R : A -> A -> Prop) (f : A -> bool)
  (l : list A) :
  StronglySorted R l -> StronglySorted R (filter f l).
Proof.
  induction 1 as [|a l Hl IH Ha]; cbn [filter]; [constructor|].
  destruct (f a); [|exact IH]. constructor; [exact IH|].
  rewrite Forall_forall in *. intros x Hx. apply Ha.
  now apply filter_In in Hx as [Hx _].
Qed.

Lemma StronglySorted_map {A B} (R : A -> A -> Prop) (R' : B -> B -> Prop)
  (f : A -> B) (l : list A) :
  (forall a b, In a l -> In b l -> R a b -> R' (f a) (f b)) ->
  StronglySorted R l -> StronglySorted R' (List.map f l).
Proof.
  intros H Hs. induction Hs as [|a l Hl IH Ha]; cbn [List.map]; [constructor|].
  constructor.
  - apply IH. intros x y Hx Hy. apply H; now right.
  - rewrite Forall_forall in *. intros y Hy.
    apply in_map_iff in Hy as (x & <- & Hx).
    apply H; [now left | now right | now apply Ha].
Qed.

Lemma items_sorted (t : table) (f : Work.t -> bool) (p : WorkItem -> bool) :
  forallb row_ok t = true ->
  StronglySorted listed_before
    (filter p (List.map item_of (orderBy le_priority_id (filter f t)))).
Proof.
  intros H. rewrite forallb_forall in H.
  apply StronglySorted_filter.
  apply (StronglySorted_map before); [|apply orderBy_strongly_sorted].
  assert (forall r, In r (orderBy le_priority_id (filter f t)) ->
                    id (item_of r) = Work.id r
                    /\ priority (item_of r) = Work.priority r) as Hitem.
  { intros r Hr. apply in_orderBy in Hr. apply filter_In in Hr as [Hr _].
    destruct (row_ok_item r (H r Hr)) as [E _].
    apply rowToWorkItem_inv in E. tauto. }
  intros a b Ha Hb. unfold before, listed_before.
  destruct (Hitem a Ha) as [-> ->]. destruct (Hitem b Hb) as [-> ->]. tauto.
Qed.

(** X8. [ready] and [blocked] list their items by ascending priority and,
    at equal priority, by ascending numeric id: every item listed earlier
    comes before every item listed later in that order. *)
Theorem ready_blocked_order (args : argv) (w : World) :
  forallb row_ok (db w) = true ->
  StronglySorted listed_before (listed (snd (commands.ready args w)))
  /\ StronglySorted listed_before (listed (snd (commands.blocked args w))).
Proof.
  intros H. rewrite (ready_runs args w H), (blocked_runs args w H). cbn [snd].
  split.
  - unfold ready_rows.
    set (l := filter (ready_b (db w)) _).
    replace (listed (Ok (ready_output l))) with l;
      [now apply (items_sorted (db w))|].
    now destruct l.
  - unfold blocked_rows.
    set (l := filter (blocked_b (db w)) _).
    replace (listed (Ok (blocked_output (db w) l))) with l;
      [now apply (items_sorted (db w))|].
    clearbody l. unfold blocked_output.
    destruct l as [|i l']; [reflexivity|]. cbn [listed].
    rewrite map_map. cbn [fst]. now rewrite map_id.
Qed.

Lemma ready_blocked_order_witness :
  forallb row_ok (db sample_world) = true
  /\ List.map id (listed (snd (commands.ready [] sample_world)))
     = [u "004"; u "003"].
Proof.
  split; [reflexivity|].
  pose proof (ready_blocked_order [] sample_world eq_refl) as [H _].
  reflexivity.
Defined.

(** ** Export followed by import *)

Lemma orUndefined_filled (x : option jsstring) : filled (orUndefined x).
Proof. destruct x as [[|c s]|]; discriminate. Qed.

Lemma orUndefined_id (x : option jsstring) : filled x -> orUndefined x = x.
Proof. destruct x as [[|c s]|]; intros H; try reflexivity. now contradiction H. Qed.

Lemma rowToWorkItem_filled (r : Work.t) (i : WorkItem) :
  rowToWorkItem r = Ok i -> filled (description i) /\ filled (closed_reason i).
Proof.
  unfold rowToWorkItem. intros H.
  apply rbind_ok in H as (bb & _ & H). apply rbind_ok in H as (ls & _ & H).
  apply rbind_ok in H as (lg & _ & H). injection H as <-.
  split; apply orUndefined_filled.
Qed.

Lemma text_orNull (x : option jsstring) :
  filled x ->
  commands.bindText (commands.orNull (option_map JStr x)) = Ok x.
Proof. destruct x as [[|c s]|]; intros H; try reflexivity. now contradiction H. Qed.

Lemma stringifyOrNull_kept (v : option json) :
  kept v = true -> commands.stringifyOrNull v = option_map stringify v.
Proof.
  destruct v as [x|]; [|reflexivity]. cbn [kept]. intros H.
  unfold commands.stringifyOrNull, commands.orNull. now rewrite H.
Qed.

Lemma rowOfItem_toJSON (i : WorkItem) :
  filled (description i) -> filled (closed_reason i) ->
  kept (blocked_by i) = true -> kept (labels i) = true -> kept (log i) = true ->
  commands.rowOfItem (toJSON i) = Ok (imported_row i).
Proof.
  intros Hd Hc Hb Hl Hg.
  destruct (same_fields_toJSON i)
    as (E1 & E2 & E3 & E4 & E5 & E6 & E7 & E8 & E9 & E10 & E11 & E12).
  unfold commands.rowOfItem.
  change (match toJSON i with JNull => ?a | _ => ?b end) with b.
  rewrite E1, E2, E3, E4, E5, E6, E7, E8, E9, E10, E11, E12.
  cbn [commands.bindText commands.bindInteger rbind].
  rewrite (text_orNull _ Hd), (text_orNull _ Hc). cbn [rbind commands.notNull].
  now rewrite !stringifyOrNull_kept.
Qed.

Lemma parse_stringified (v : option json) :
  opt_ok v = true -> parseOrUndefined (option_map stringify v) = Ok v.
Proof.
  destruct v as [x|]; [|reflexivity]. cbn [opt_ok option_map]. intros H.
  destruct (stringify_head x) as (c & t & E & _).
  unfold parseOrUndefined. rewrite E, <- E, (JSON_parse_stringify x H).
  reflexivity.
Qed.

Lemma rowToWorkItem_imported (i : WorkItem) :
  item_ok i = true -> filled (description i) -> filled (closed_reason i) ->
  rowToWorkItem (imported_row i) = Ok i.
Proof.
  unfold item_ok. rewrite !andb_true_iff. intros [[[_ Hb] Hl] Hg] Hd Hc.
  unfold rowToWorkItem, imported_row.
  cbn [Work.id Work.title Work.status Work.priority Work.type Work.created
       Work.updated Work.description Work.blocked_by Work.labels
       Work.closed_reason Work.log].
  rewrite !parse_stringified by assumption. cbn [rbind].
  rewrite !orUndefined_id by assumption. now destruct i.
Qed.

Lemma insertRow_fresh (r : Work.t) (t : table) :
  ~ In (Work.id r) (List.map Work.id t) -> insertRow r t = Ok (t ++ [r]).
Proof.
  intros H. unfold insertRow.
  destruct (existsb _ t) eqn:E; [|reflexivity]. exfalso. apply H.
  apply existsb_exists in E as (x & Hx & E). apply jseqb_eq in E.
  rewrite <- E. now apply in_map.
Qed.

(** Records with ids that differ from each other and from those of the
    table are all inserted. *)
Lemma insertAll_ok (items : jsons) (rows : table) :
  mapM commands.rowOfItem items = Ok rows ->
  forall t f,
    NoDup (List.map Work.id (t ++ rows)) ->
    commands.insertAll items {| db := t; jsonl := f |}
    = ({| db := t ++ rows; jsonl := f |}, Ok tt).
Proof.
  revert rows. induction items as [|x items IH]; intros rows; cbn [mapM].
  - intros [= <-] t f _. cbn. now rewrite List.app_nil_r.
  - intros H. apply rbind_ok in H as (row & E0 & H).
    apply rbind_ok in H as (rows' & E1 & H). injection H as <-.
    intros t f Hnd. rewrite insertAll_cons, E0. cbn [db jsonl].
    rewrite insertRow_fresh.
    + rewrite (IH rows' E1); [now rewrite <- app_assoc|].
      now rewrite <- app_assoc.
    + rewrite map_app in Hnd. cbn [List.map] in Hnd.
      apply NoDup_remove_2 in Hnd. intros Hin. apply Hnd.
      apply in_or_app. now left.
Qed.

Lemma trim_encodeJsonl (i : WorkItem) (items : list WorkItem) :
  exists c s, trim (encodeJsonl (i :: items)) = c :: s.
Proof.
  set (lines := List.map (fun i => stringify (toJSON i)) (i :: items)).
  assert (lines <> []) as Hne by discriminate.
  assert (Forall braced lines) as Hb.
  { apply Forall_forall. intros s Hs. apply in_map_iff in Hs as (x & <- & _).
    apply braced_toJSON. }
  destruct (braced_join lines Hne Hb) as (m & E).
  unfold encodeJsonl. fold lines. rewrite E. cbn [app].
  replace (123 :: (m ++ [125]) ++ [10]) with (123 :: m ++ [125; 10])
    by (now rewrite <- app_assoc).
  rewrite trim_line by reflexivity. eauto.
Qed.

(** Sorting a sorted list leaves it as it is. *)
Lemma orderBy_sorted_id {A} (le : A -> A -> bool) (l : list A) :
  Sorted (fun a b => le a b = true) l -> orderBy le l = l.
Proof.
  induction 1 as [|a l Hl IH Ha]; [reflexivity|].
  cbn [orderBy fold_right]. fold (orderBy le l). rewrite IH.
  destruct Ha as [|b l' Hab]; [reflexivity|]. cbn [insert_sorted]. now rewrite Hab.
Qed.

Lemma distinct_NoDup (ks : list jsstring) : distinct ks = true -> NoDup ks.
Proof.
  induction ks as [|k ks IH]; cbn [distinct]; [constructor|].
  rewrite andb_true_iff, negb_true_iff. intros [H1 H2].
  constructor; [|now apply IH]. intros Hin.
  assert (existsb (jseqb k) ks = true) as E; [|congruence].
  apply existsb_exists. exists k. split; [exact Hin | apply jseqb_refl].
Qed.

Lemma portable_item (r : Work.t) :
  portable r = true ->
  rowToWorkItem r = Ok (item_of r)
  /\ item_ok (item_of r) = true
  /\ kept (blocked_by (item_of r)) = true /\ kept (labels (item_of r)) = true
  /\ kept (log (item_of r)) = true
  /\ filled (description (item_of r)) /\ filled (closed_reason (item_of r))
  /\ id (item_of r) = Work.id r.
Proof.
  unfold portable, item_of. rewrite andb_true_iff. intros [Hp H].
  destruct (rowToWorkItem r) as [i|] eqn:E; [|discriminate].
  rewrite !andb_true_iff in H. destruct H as [[Hb Hl] Hg].
  destruct (rowToWorkItem_filled r i E) as [Hd Hc].
  pose proof (rowToWorkItem_ok r i Hp E) as Hok.
  apply rowToWorkItem_inv in E as (_ & _ & _ & Ei & _).
  repeat split; assumption.
Qed.

Lemma mapM_map {A B C} (f : A -> B) (g : B -> result C) (h : A -> C)
  (l : list A) :
  (forall a, In a l -> g (f a) = Ok (h a)) ->
  mapM g (List.map f l) = Ok (List.map h l).
Proof.
  intros H. rewrite <- (map_map f (fun b => b)), map_id.
  induction l as [|a l IH]; [reflexivity|]. cbn [List.map mapM].
  rewrite (H a) by now left. cbn [rbind].
  rewrite IH; [reflexivity|]. intros x Hx. apply H. now right.
Qed.

(** X9. Export followed by import rebuilds the store.  From a table with
    distinct ids whose rows the file can carry, [export] writes the file,
    [import] then reads every record back, and the table it leaves holds
    the same items as before, row by row in ascending numeric id; the file
    is the export of that table too, so that a further export rewrites it
    unchanged.  On the empty table [import] reports "No items to import"
    and the table stays empty. *)
Theorem export_import_roundtrip (clk clk' : nat -> jsstring) (w : World) :
  distinct (List.map Work.id (db w)) = true ->
  forallb portable (db w) = true ->
  exists items w1 w2,
    allItems (db w) = Ok items
    /\ List.length items = List.length (db w)
    /\ commands.main clk [u "export"] w = (w1, Ok Exported)
    /\ commands.main clk' [u "import"] w1
       = (w2, Ok match items with
                 | [] => NoItemsToImport
                 | _ :: _ => Imported (List.length items)
                 end)
    /\ db w2 = List.map imported_row items
    /\ mapM rowToWorkItem (db w2) = Ok items
    /\ allItems (db w2) = Ok items
    /\ jsonl w2 = Some (encodeJsonl items).
Proof.
  intros Hnd Hp. apply distinct_NoDup in Hnd. rewrite forallb_forall in Hp.
  set (rows := orderBy le_id (db w)).
  assert (forall r, In r rows -> portable r = true) as Hrows.
  { intros r Hr. apply Hp. now apply in_orderBy in Hr. }
  set (items := List.map item_of rows).
  assert (allItems (db w) = Ok items) as EA.
  { apply mapM_total. intros r Hr. now apply portable_item, Hrows. }
  assert (List.map id items = List.map Work.id rows) as Eids.
  { unfold items. rewrite map_map. apply map_ext_in. intros r Hr.
    now apply portable_item, Hrows. }
  assert (forall i, In i items ->
            item_ok i = true /\ commands.rowOfItem (toJSON i) = Ok (imported_row i)
            /\ rowToWorkItem (imported_row i) = Ok i) as Hitems.
  { intros i Hi. apply in_map_iff in Hi as (r & <- & Hr).
    destruct (portable_item r (Hrows r Hr))
      as (_ & Hok & Hb & Hl & Hg & Hd & Hc & _).
    split; [exact Hok|]. split; [now apply rowOfItem_toJSON|].
    now apply rowToWorkItem_imported. }
  assert (mapM rowToWorkItem (List.map imported_row items) = Ok items) as ER.
  { rewrite (mapM_map imported_row rowToWorkItem (fun i => i));
      [now rewrite map_id|]. intros i Hi. now apply Hitems. }
  assert (orderBy le_id (List.map imported_row items)
          = List.map imported_row items) as ES.
  { apply orderBy_sorted_id. unfold items. rewrite map_map.
    assert (Sorted (fun a b => le_id a b = true) rows) as Hs
      by apply orderBy_le_id_sorted.
    assert (forall r, In r rows ->
              Work.id (imported_row (item_of r)) = Work.id r) as Hid.
    { intros r Hr. cbn [imported_row Work.id]. now apply portable_item, Hrows. }
    clearbody rows. clear - Hs Hid.
    induction Hs as [|a l Hl IH Ha]; cbn [List.map]; [constructor|].
    constructor; [apply IH; intros r Hr; apply Hid; now right|].
    destruct Ha as [|b l Hab]; cbn [List.map]; constructor.
    unfold le_id in *. rewrite !Hid; [exact Hab | right; now left | now left]. }
  exists items, {| db := db w; jsonl := Some (encodeJsonl items) |}.
  assert (List.length items = List.length (db w)) as EL.
  { unfold items, rows. rewrite length_map.
    apply Permutation_length, orderBy_perm. }
  assert (commands.main clk [u "export"] w
          = ({| db := db w; jsonl := Some (encodeJsonl items) |}, Ok Exported))
    as EX.
  { change (commands.main clk [u "export"] w) with (commands.export [] w).
    unfold commands.export, bind, ret. now rewrite exportToJsonl_run, EA. }
  clearbody items.
  destruct items as [|i0 items0].
  - exists {| db := db w; jsonl := Some [] |}.
    assert (db w = []) as Edb by (destruct (db w); [reflexivity | discriminate]).
    rewrite Edb in *. repeat split; auto.
  - set (items := i0 :: items0) in *.
    exists {| db := List.map imported_row items;
              jsonl := Some (encodeJsonl items) |}.
    cbn [db jsonl].
    split; [exact EA|]. split; [exact EL|]. split; [exact EX|].
    split;
      [|split; [reflexivity|]; split; [exact ER|]; split; [|reflexivity];
        unfold allItems; rewrite ES; exact ER].
    change (commands.main clk' [u "import"] ?x) with (commands.import [] x).
    rewrite (import_run [] {| db := db w; jsonl := Some (encodeJsonl items) |}
               (encodeJsonl items) eq_refl).
    destruct (trim_encodeJsonl i0 items0) as (c & s & Et). fold items in Et.
    rewrite Et.
    rewrite decode_encode.
    2:{ apply forallb_forall. intros i Hi. now apply Hitems. }
    cbv zeta. cbn [jsonl].
    rewrite (insertAll_ok (List.map toJSON items) (List.map imported_row items)).
    + cbn [fst snd app]. now rewrite length_map.
    + apply mapM_map. intros i Hi. now apply Hitems.
    + cbn [app]. rewrite map_map. cbn [imported_row Work.id].
      change (List.map (fun x => id x) items) with (List.map id items).
      rewrite Eids. apply (Permutation_NoDup (l := List.map Work.id (db w)));
        [|exact Hnd].
      apply Permutation_map. symmetry. apply orderBy_perm.
Qed.

Lemma export_import_roundtrip_witness :
  distinct (List.map Work.id (db sample_world)) = true
  /\ forallb portable (db sample_world) = true
  /\ List.map Work.id
       (db (fst (commands.main (fun _ => u "T2") [u "import"]
                   (fst (commands.main (fun _ => u "T1") [u "export"]
                           sample_world)))))
     = [u "001"; u "002"; u "003"; u "004"; u "005"].
Proof.
  split; [reflexivity|]. split; [reflexivity|].
  destruct (export_import_roundtrip (fun _ => u "T1") (fun _ => u "T2")
              sample_world eq_refl eq_refl)
    as (items & w1 & w2 & _ & _ & E1 & E2 & _).
  vm_compute. reflexivity.
Defined.

(** ** What import depends on *)

Lemma world_eta (w : World) : {| db := db w; jsonl := jsonl w |} = w.
Proof. now destruct w. Qed.



(** ** Updates of one row *)

Lemma updated_ok (key : jsstring) (f : Work.t -> Work.t) (t : table) :
  (forall r, row_ok r = true -> row_ok (f r) = true) ->
  forallb row_ok t = true -> forallb row_ok (updateById key f t) = true.
Proof.
  intros Hf H. rewrite forallb_forall in *. intros r' Hr'.
  apply in_map_iff in Hr' as (r & <- & Hr).
  destruct (jseqb (Work.id r) key); [apply Hf|]; now apply H.
Qed.

(** An update followed by the export, on a table that stays well-typed. *)
Lemma update_then_export {A} (key : jsstring) (f : Work.t -> Work.t) (out : A)
  (w : World) :
  forallb row_ok (db w) = true ->
  (forall r, row_ok r = true -> row_ok (f r) = true) ->
  bind (run (updateById key f)) (fun _ => bind exportToJsonl (fun _ => ret out)) w
  = ({| db := updateById key f (db w);
        jsonl := Some (exportOf (updateById key f (db w))) |}, Ok out).
Proof.
  intros H Hf. unfold bind at 1. unfold run. unfold bind, ret.
  rewrite exportToJsonl_run. cbn [db].
  now rewrite (allItems_total _ (updated_ok key f (db w) Hf H)).
Qed.

Lemma row_ok_same_json (f : Work.t -> Work.t) :
  (forall r, Work.blocked_by (f r) = Work.blocked_by r
             /\ Work.labels (f r) = Work.labels r
             /\ Work.log (f r) = Work.log r) ->
  forall r, row_ok r = true -> row_ok (f r) = true.
Proof.
  intros H r Hr. destruct (H r) as (E1 & E2 & E3).
  now rewrite (row_ok_columns r (f r) E1 E2 E3).
Qed.

Lemma parseOrEmpty_sound (x : option jsstring) (l : jsons) :
  commands.parseOrEmpty x = Ok l -> forallb json_ok l = true.
Proof.
  unfold commands.parseOrEmpty. intros H.
  apply rbind_ok in H as (v & Hv & H). apply parseOrUndefined_sound in Hv.
  destruct v as [[]|]; try discriminate; injection H as <-; auto.
Qed.

Lemma parseBlockedBy_sound (x : option jsstring) (l : jsons) :
  commands.parseBlockedBy x = Ok l -> forallb json_ok l = true.
Proof.
  unfold commands.parseBlockedBy. intros H.
  apply rbind_ok in H as (v & Hv & H). apply parseOrUndefined_sound in Hv.
  destruct v as [[]|]; try discriminate; injection H as <-; auto.
Qed.

Lemma parse_array (l : jsons) :
  forallb json_ok l = true ->
  parseOrUndefined (Some (stringify (JArr l))) = Ok (Some (JArr l)).
Proof. intros H. exact (parse_stringified (Some (JArr l)) H). Qed.

Lemma row_ok_setLog (l : jsons) (now : jsstring) (r : Work.t) :
  forallb json_ok l = true -> row_ok r = true ->
  row_ok (setLog (Some (stringify (JArr l))) now r) = true.
Proof.
  intros Hl. unfold row_ok, rowToWorkItem.
  cbn [setLog Work.blocked_by Work.labels Work.log].
  destruct (parseOrUndefined (Work.blocked_by r)) as [bb|]; [|discriminate].
  destruct (parseOrUndefined (Work.labels r)) as [ls|]; [|discriminate].
  destruct (parseOrUndefined (Work.log r)) as [lg|]; [|discriminate].
  now rewrite (parse_array l Hl).
Qed.

Lemma row_ok_setBlockedBy (l : jsons) (now : jsstring) (r : Work.t) :
  forallb json_ok l = true -> row_ok r = true ->
  row_ok (setBlockedBy (Some (stringify (JArr l))) now r) = true
  /\ row_ok (setBlockedBy None now r) = true.
Proof.
  intros Hl. unfold row_ok, rowToWorkItem.
  cbn [setBlockedBy Work.blocked_by Work.labels Work.log].
  rewrite (parse_array l Hl).
  destruct (parseOrUndefined (Work.blocked_by r)) as [bb|]; [|discriminate].
  cbn [rbind parseOrUndefined].
  destruct (parseOrUndefined (Work.labels r)) as [ls|]; [|discriminate].
  destruct (parseOrUndefined (Work.log r)) as [lg|]; [|discriminate].
  cbn [rbind blocked_by]. auto.
Qed.

(** ** log *)

Lemma logEntry_ok (time message : jsstring) (agentFlag : option jsstring) :
  json_ok (commands.logEntry time agentFlag message) = true.
Proof. unfold commands.logEntry. now destruct (missing agentFlag). Qed.

(** X11. [log] appends one entry to the log of the item and keeps the
    entries that were there, in their order: read back from the table, the
    log is the old list followed by the new entry, which holds the time of
    the call, the text and, with [--agent=], the agent.  The text is made
    of the words after the id that do not start with [--], joined by
    spaces; the row is stamped with a second reading of the clock. *)
Theorem log_appends (clk : nat -> jsstring) (c m : N) (id msg : jsstring)
  (words : argv) (w : World) (r : Work.t) (old : jsons) :
  forallb row_ok (db w) = true ->
  selectById (padId (c :: id)) (db w) = Some r ->
  commands.parseOrEmpty (Work.log r) = Ok old ->
  join [32] (filter notFlag words) = m :: msg ->
  let args := (c :: id) :: words in
  let entry :=
    commands.logEntry (clk 0%nat) (flagValue "--agent=" args) (m :: msg) in
  exists w' r',
    commands.main clk (u "log" :: args) w = (w', Ok (Logged (padId (c :: id))))
    /\ selectById (padId (c :: id)) (db w') = Some r'
    /\ commands.parseOrEmpty (Work.log r') = Ok (old ++ [entry])
    /\ r' = setLog (Work.log r') (clk 1%nat) r
    /\ prop entry (u "time") = Some (JStr (clk 0%nat))
    /\ prop entry (u "text") = Some (JStr (m :: msg))
    /\ prop entry (u "agent")
       = match flagValue "--agent=" args with
         | Some ((_ :: _) as a) => Some (JStr a)
         | _ => None
         end
    /\ jsonl w' = Some (exportOf (db w')).
Proof.
  intros H Hr Ho Em args entry.
  assert (forallb json_ok (old ++ [entry]) = true) as Hl.
  { rewrite forallb_app, (parseOrEmpty_sound _ _ Ho). cbn [forallb].
    unfold entry. now rewrite logEntry_ok. }
  set (f := setLog (Some (stringify (JArr (old ++ [entry])))) (clk 1%nat)).
  exists {| db := updateById (padId (c :: id)) f (db w);
            jsonl := Some (exportOf (updateById (padId (c :: id)) f (db w))) |},
    (f r).
  split.
  { change (commands.main clk (u "log" :: args) w)
      with (commands.log clk args w).
    unfold commands.log, args. cbn [nth_error skipn]. rewrite Em.
    rewrite requireRow_run, Hr. unfold bind at 1, lift. rewrite Ho.
    apply update_then_export; [exact H|].
    intros x. now apply row_ok_setLog. }
  cbn [db jsonl].
  split; [apply selectById_update; [reflexivity | exact Hr]|].
  split.
  { cbn [f setLog Work.log]. unfold commands.parseOrEmpty.
    now rewrite (parse_array _ Hl). }
  split; [reflexivity|].
  unfold entry, commands.logEntry.
  destruct (flagValue "--agent=" args) as [[|a ag]|]; repeat split; reflexivity.
Qed.

Lemma log_appends_witness :
  forallb row_ok (db sample_world) = true
  /\ join [32] (filter notFlag [u "looked"; u "--agent=me"; u "--force"; u "twice"])
     = u "looked twice"
  /\ snd (commands.main (fun n => match n with O => u "T1" | _ => u "T2" end)
            [u "log"; u "3"; u "looked"; u "--agent=me"; u "--force"; u "twice"]
            sample_world)
     = Ok (Logged (u "003")).
Proof.
  split; [reflexivity|]. split; [reflexivity|].
  destruct (log_appends (fun n => match n with O => u "T1" | _ => u "T2" end)
              51 108 [] (u "ooked twice")
              [u "looked"; u "--agent=me"; u "--force"; u "twice"]
              sample_world (sample_row "003" "in_progress" 2 []) []
              eq_refl eq_refl eq_refl eq_refl) as (w' & r' & E & _).
  exact (f_equal snd E).
Defined.

(** ** block and unblock *)

Lemma selectById_updateById (key k : jsstring) (f : Work.t -> Work.t)
  (t : table) :
  (forall x, Work.id (f x) = Work.id x) ->
  selectById key (updateById k f t)
  = option_map (fun r => if jseqb (Work.id r) k then f r else r)
      (selectById key t).
Proof.
  intros Hf. unfold selectById, updateById.
  induction t as [|x t IH]; [reflexivity|]. cbn [find List.map].
  replace (Work.id (if jseqb (Work.id x) k then f x else x)) with (Work.id x)
    by (destruct (jseqb (Work.id x) k); now rewrite ?Hf).
  destruct (jseqb (Work.id x) key); [reflexivity | exact IH].
Qed.

Lemma existsb_snoc_self (s : jsstring) (l : jsons) :
  existsb (commands.isString s) (l ++ [JStr s]) = true.
Proof.
  rewrite existsb_app. cbn [existsb commands.isString].
  rewrite jseqb_refl. now rewrite !orb_true_r.
Qed.

Lemma removeFirst_snoc (s : jsstring) (l : jsons) :
  existsb (commands.isString s) l = false ->
  commands.removeFirst s (l ++ [JStr s]) = l.
Proof.
  induction l as [|x l IH]; cbn [existsb app commands.removeFirst].
  - intros _. cbn [commands.isString]. now rewrite jseqb_refl.
  - rewrite orb_false_iff. intros [-> H]. now rewrite IH.
Qed.

Lemma parse_blockersColumn (l : jsons) :
  forallb json_ok l = true ->
  commands.parseBlockedBy (blockersColumn l) = Ok l.
Proof.
  intros H. destruct l as [|x l]; [reflexivity|].
  unfold commands.parseBlockedBy, blockersColumn.
  now rewrite (parse_array _ H).
Qed.

Lemma row_ok_blockersColumn (l : jsons) (now : jsstring) (r : Work.t) :
  forallb json_ok l = true -> row_ok r = true ->
  row_ok (setBlockedBy (blockersColumn l) now r) = true.
Proof.
  intros Hl Hr. destruct (row_ok_setBlockedBy l now r Hl Hr) as [H1 H2].
  destruct l as [|x l]; [exact H2 | exact H1].
Qed.

(** [block] when the item and the blocker exist and the blocker is new. *)
Lemma block_run (clk : nat -> jsstring) (c b : N) (id bid : jsstring)
  (w : World) (r : Work.t) (old : jsons) :
  forallb row_ok (db w) = true ->
  selectById (padId (c :: id)) (db w) = Some r ->
  selectById (padId (b :: bid)) (db w) <> None ->
  commands.parseBlockedBy (Work.blocked_by r) = Ok old ->
  existsb (commands.isString (padId (b :: bid))) old = false ->
  let t' :=
    updateById (padId (c :: id))
      (setBlockedBy (Some (stringify (JArr (old ++ [JStr (padId (b :: bid))]))))
         (clk 0%nat)) (db w) in
  commands.block clk [c :: id; b :: bid] w
  = ({| db := t'; jsonl := Some (exportOf t') |},
     Ok (NowBlocked (padId (c :: id)) (padId (b :: bid))))
  /\ forallb row_ok t' = true.
Proof.
  intros H Hr Hb Ho Hn t'.
  assert (forall x, row_ok x = true ->
            row_ok (setBlockedBy
                      (Some (stringify (JArr (old ++ [JStr (padId (b :: bid))]))))
                      (clk 0%nat) x) = true) as Hf.
  { intros x. apply row_ok_setBlockedBy.
    rewrite forallb_app, (parseBlockedBy_sound _ _ Ho). reflexivity. }
  split; [|now apply updated_ok].
  unfold commands.block. cbn [nth_error]. rewrite requireRow_run, Hr.
  unfold bind at 1, query.
  destruct (selectById (padId (b :: bid)) (db w)); [|contradiction].
  unfold bind at 1, lift. rewrite Ho, Hn.
  now apply update_then_export.
Qed.

(** [block] when the blocker is listed already. *)
Lemma block_again (clk : nat -> jsstring) (c b : N) (id bid : jsstring)
  (w : World) (r : Work.t) (l : jsons) :
  selectById (padId (c :: id)) (db w) = Some r ->
  selectById (padId (b :: bid)) (db w) <> None ->
  commands.parseBlockedBy (Work.blocked_by r) = Ok l ->
  existsb (commands.isString (padId (b :: bid))) l = true ->
  commands.block clk [c :: id; b :: bid] w
  = (w, Ok (AlreadyBlocked (padId (c :: id)) (padId (b :: bid)))).
Proof.
  intros Hr Hb Ho Hn.
  unfold commands.block. cbn [nth_error]. rewrite requireRow_run, Hr.
  unfold bind at 1, query.
  destruct (selectById (padId (b :: bid)) (db w)); [|contradiction].
  unfold bind at 1, lift. now rewrite Ho, Hn.
Qed.

(** [unblock] when the blocker is listed. *)
Lemma unblock_run (clk : nat -> jsstring) (c b : N) (id bid : jsstring)
  (w : World) (r : Work.t) (l : jsons) :
  forallb row_ok (db w) = true ->
  selectById (padId (c :: id)) (db w) = Some r ->
  commands.parseBlockedBy (Work.blocked_by r) = Ok l ->
  existsb (commands.isString (padId (b :: bid))) l = true ->
  forallb json_ok (commands.removeFirst (padId (b :: bid)) l) = true ->
  let t' :=
    updateById (padId (c :: id))
      (setBlockedBy
         (blockersColumn (commands.removeFirst (padId (b :: bid)) l))
         (clk 0%nat)) (db w) in
  commands.unblock clk [c :: id; b :: bid] w
  = ({| db := t'; jsonl := Some (exportOf t') |},
     Ok (BlockerRemoved (padId (c :: id)) (padId (b :: bid)))).
Proof.
  intros H Hr Ho Hn Hl t'.
  unfold commands.unblock. cbn [nth_error]. rewrite requireRow_run, Hr.
  unfold bind at 1, lift. rewrite Ho, Hn. cbn [negb]. cbv zeta.
  fold (blockersColumn (commands.removeFirst (padId (b :: bid)) l)).
  apply update_then_export; [exact H|].
  intros x. now apply row_ok_blockersColumn.
Qed.

(** [unblock] when the blocker is not listed. *)
Lemma unblock_absent (clk : nat -> jsstring) (c b : N) (id bid : jsstring)
  (w : World) (r : Work.t) (l : jsons) :
  selectById (padId (c :: id)) (db w) = Some r ->
  commands.parseBlockedBy (Work.blocked_by r) = Ok l ->
  existsb (commands.isString (padId (b :: bid))) l = false ->
  commands.unblock clk [c :: id; b :: bid] w
  = (w, Ok (NotBlocked (padId (c :: id)) (padId (b :: bid)))).
Proof.
  intros Hr Ho Hn.
  unfold commands.unblock. cbn [nth_error]. rewrite requireRow_run, Hr.
  unfold bind at 1, lift. now rewrite Ho, Hn.
Qed.

(** X12. [block] and [unblock] undo each other.  When the item and the
    blocker exist and the blocker is not yet listed, [block] appends the
    padded id of the blocker to the list of the item; blocking again
    answers "already blocked" and changes nothing; [unblock] then removes
    the blocker and leaves the list as it was before, stored as NULL when
    it is empty, with nothing but [updated] changed in the row; and a
    second [unblock] answers "not blocked" and changes nothing. *)
Theorem block_unblock_roundtrip (clk clk' : nat -> jsstring) (c b : N)
  (id bid : jsstring) (w : World) (r : Work.t) (old : jsons) :
  forallb row_ok (db w) = true ->
  selectById (padId (c :: id)) (db w) = Some r ->
  selectById (padId (b :: bid)) (db w) <> None ->
  commands.parseBlockedBy (Work.blocked_by r) = Ok old ->
  existsb (commands.isString (padId (b :: bid))) old = false ->
  let pid := padId (c :: id) in
  let pb := padId (b :: bid) in
  exists w1 w2 r1 r2,
    commands.main clk [u "block"; c :: id; b :: bid] w
    = (w1, Ok (NowBlocked pid pb))
    /\ selectById pid (db w1) = Some r1
    /\ commands.parseBlockedBy (Work.blocked_by r1) = Ok (old ++ [JStr pb])
    /\ commands.main clk' [u "block"; c :: id; b :: bid] w1
       = (w1, Ok (AlreadyBlocked pid pb))
    /\ commands.main clk' [u "unblock"; c :: id; b :: bid] w1
       = (w2, Ok (BlockerRemoved pid pb))
    /\ selectById pid (db w2) = Some r2
    /\ commands.parseBlockedBy (Work.blocked_by r2) = Ok old
    /\ (old = [] -> Work.blocked_by r2 = None)
    /\ r2 = setBlockedBy (Work.blocked_by r2) (clk' 0%nat) r
    /\ commands.main clk' [u "unblock"; c :: id; b :: bid] w2
       = (w2, Ok (NotBlocked pid pb)).
Proof.
  intros H Hr Hb Ho Hn pid pb.
  pose proof (parseBlockedBy_sound _ _ Ho) as Hold.
  assert (forallb json_ok (old ++ [JStr pb]) = true) as Hnew
    by (now rewrite forallb_app, Hold).
  destruct (block_run clk c b id bid w r old H Hr Hb Ho Hn) as [E1 H1].
  cbv zeta in E1, H1. fold pid pb in E1, H1.
  set (f1 := setBlockedBy (Some (stringify (JArr (old ++ [JStr pb]))))
               (clk 0%nat)) in *.
  set (t1 := updateById pid f1 (db w)) in *.
  set (w1 := {| db := t1; jsonl := Some (exportOf t1) |}).
  assert (selectById pid (db w1) = Some (f1 r)) as Hr1
    by (apply selectById_update; [reflexivity | exact Hr]).
  assert (selectById pb (db w1) <> None) as Hb1.
  { cbn [w1 db]. unfold t1. rewrite selectById_updateById by reflexivity.
    fold pb in Hb. destruct (selectById pb (db w)); [discriminate | contradiction]. }
  assert (commands.parseBlockedBy (Work.blocked_by (f1 r)) = Ok (old ++ [JStr pb]))
    as Ho1.
  { cbn [f1 setBlockedBy Work.blocked_by]. unfold commands.parseBlockedBy.
    now rewrite (parse_array _ Hnew). }
  pose proof (existsb_snoc_self pb old) as Hin.
  pose proof (removeFirst_snoc pb old Hn) as Erm.
  assert (forallb json_ok (commands.removeFirst pb (old ++ [JStr pb])) = true)
    as Hrm by (now rewrite Erm).
  pose proof (unblock_run clk' c b id bid w1 (f1 r) (old ++ [JStr pb])
                H1 Hr1 Ho1 Hin Hrm) as E2.
  cbv zeta in E2. fold pid pb in E2. rewrite Erm in E2.
  set (f2 := setBlockedBy (blockersColumn old) (clk' 0%nat)) in *.
  set (t2 := updateById pid f2 (db w1)) in *.
  set (w2 := {| db := t2; jsonl := Some (exportOf t2) |}).
  assert (selectById pid (db w2) = Some (f2 (f1 r))) as Hr2
    by (apply selectById_update; [reflexivity | exact Hr1]).
  assert (commands.parseBlockedBy (Work.blocked_by (f2 (f1 r))) = Ok old) as Ho2
    by (apply parse_blockersColumn, Hold).
  exists w1, w2, (f1 r), (f2 (f1 r)).
  split; [exact E1|]. split; [exact Hr1|]. split; [exact Ho1|].
  split; [exact (block_again clk' c b id bid w1 (f1 r) _ Hr1 Hb1 Ho1 Hin)|].
  split; [exact E2|]. split; [exact Hr2|]. split; [exact Ho2|].
  split; [now intros ->|]. split; [reflexivity|].
  exact (unblock_absent clk' c b id bid w2 (f2 (f1 r)) old Hr2 Ho2 Hn).
Qed.

Lemma block_unblock_roundtrip_witness :
  forallb row_ok (db sample_world) = true
  /\ selectById (padId (u "3")) (db sample_world)
     = Some (sample_row "003" "in_progress" 2 [])
  /\ selectById (padId (u "4")) (db sample_world) <> None
  /\ snd (commands.main (fun _ => u "T1") [u "block"; u "3"; u "4"] sample_world)
     = Ok (NowBlocked (u "003") (u "004")).
Proof.
  split; [reflexivity|]. split; [reflexivity|]. split; [discriminate|].
  destruct (block_unblock_roundtrip (fun _ => u "T1") (fun _ => u "T2") 51 52
              [] [] sample_world (sample_row "003" "in_progress" 2 []) []
              eq_refl eq_refl ltac:(discriminate) eq_refl eq_refl)
    as (w1 & w2 & r1 & r2 & E & _).
  exact (f_equal snd E).
Defined.

(** ** An item that blocks itself *)





(** ** The status commands *)

(** A status command on a row that is present, in a well-typed table. *)
Lemma status_run (key : jsstring) (f : Work.t -> Work.t) (out : Work.t -> output)
  (w : World) (r : Work.t) :
  forallb row_ok (db w) = true ->
  selectById (padId key) (db w) = Some r ->
  (forall x, Work.id (f x) = Work.id x
             /\ Work.blocked_by (f x) = Work.blocked_by x
             /\ Work.labels (f x) = Work.labels x
             /\ Work.log (f x) = Work.log x) ->
  bind (requireRow key)
    (fun row => bind (run (updateById (padId key) f))
                  (fun _ => bind exportToJsonl (fun _ => ret (out row)))) w
  = ({| db := updateById (padId key) f (db w);
        jsonl := Some (exportOf (updateById (padId key) f (db w))) |},
     Ok (out r))
  /\ forallb row_ok (updateById (padId key) f (db w)) = true
  /\ selectById (padId key) (updateById (padId key) f (db w)) = Some (f r).
Proof.
  intros H Hr Hf.
  assert (forall x, row_ok x = true -> row_ok (f x) = true) as Hok.
  { apply row_ok_same_json. intros x. destruct (Hf x). tauto. }
  split; [|split].
  - rewrite requireRow_run, Hr. now apply update_then_export.
  - now apply updated_ok.
  - apply selectById_update; [|exact Hr]. intros x. now destruct (Hf x).
Qed.

Lemma close_reason_args (a : jsstring) (rest : argv) :
  (if (1 <? List.length (a :: rest))%nat
   then Some (join [32] (skipn 1 (a :: rest)))
   else None) = close_reason rest.
Proof. now destruct rest. Qed.

(** X14. The status commands do not look at the status they replace.  On a
    row that is present, [close] succeeds and stores the reason; [reopen]
    after it always leaves the item [open] with no reason, everything else
    but [updated] as it was before the close, so that an item that was in
    progress comes back open; [start] after the close makes the item
    [in_progress] and keeps the closing reason in the row. *)
Theorem close_then_reopen_or_start (clk clk' : nat -> jsstring) (c : N)
  (key : jsstring) (why rest : argv) (w : World) (r : Work.t) :
  forallb row_ok (db w) = true ->
  selectById (padId (c :: key)) (db w) = Some r ->
  let pid := padId (c :: key) in
  let closed := setStatusReason (u "closed") (clk 0%nat) (close_reason why) r in
  exists w1 w2 w3,
    commands.main clk (u "close" :: (c :: key) :: why) w
    = (w1, Ok (Closed pid (Work.title r)))
    /\ selectById pid (db w1) = Some closed
    /\ commands.main clk' (u "reopen" :: (c :: key) :: rest) w1
       = (w2, Ok (Reopened pid (Work.title r)))
    /\ selectById pid (db w2)
       = Some (setStatusReason (u "open") (clk' 0%nat) None r)
    /\ commands.main clk' (u "start" :: (c :: key) :: rest) w1
       = (w3, Ok (Started pid (Work.title r)))
    /\ selectById pid (db w3)
       = Some (setStatus (u "in_progress") (clk' 0%nat) closed)
    /\ Work.closed_reason (setStatus (u "in_progress") (clk' 0%nat) closed)
       = close_reason why.
Proof.
  intros H Hr pid closed.
  destruct (status_run (c :: key)
              (setStatusReason (u "closed") (clk 0%nat) (close_reason why))
              (fun row => Closed pid (Work.title row)) w r H Hr)
    as (E1 & H1 & Hr1); [now intros x|].
  fold pid in E1, H1, Hr1.
  set (t1 := updateById pid _ (db w)) in *.
  set (w1 := {| db := t1; jsonl := Some (exportOf t1) |}).
  destruct (status_run (c :: key)
              (setStatusReason (u "open") (clk' 0%nat) None)
              (fun row => Reopened pid (Work.title row)) w1 _ H1 Hr1)
    as (E2 & _ & Hr2); [now intros x|].
  destruct (status_run (c :: key)
              (setStatus (u "in_progress") (clk' 0%nat))
              (fun row => Started pid (Work.title row)) w1 _ H1 Hr1)
    as (E3 & _ & Hr3); [now intros x|].
  fold pid in E2, Hr2, E3, Hr3. cbn [db w1] in E2, Hr2, E3, Hr3.
  eexists w1, _, _.
  split.
  { change (commands.main clk (u "close" :: (c :: key) :: why) w)
      with (commands.close clk ((c :: key) :: why) w).
    unfold commands.close. cbn [nth_error]. rewrite close_reason_args.
    exact E1. }
  split; [exact Hr1|]. split; [exact E2|]. split; [exact Hr2|].
  split; [exact E3|]. split; [exact Hr3 | reflexivity].
Qed.

Lemma close_then_reopen_or_start_witness :
  forallb row_ok (db sample_world) = true
  /\ selectById (padId (u "3")) (db sample_world)
     = Some (sample_row "003" "in_progress" 2 [])
  /\ snd (commands.main (fun _ => u "T1") [u "close"; u "3"; u "done"]
            sample_world)
     = Ok (Closed (u "003") (u "Sample")).
Proof.
  split; [reflexivity|]. split; [reflexivity|].
  destruct (close_then_reopen_or_start (fun _ => u "T1") (fun _ => u "T2") 51
              [] [u "done"] [] sample_world
              (sample_row "003" "in_progress" 2 []) eq_refl eq_refl)
    as (w1 & w2 & w3 & E & _).
  exact (f_equal snd E).
Defined.

(** ** Numbers on the command line *)

Lemma digit_not_space (c : N) :
  isDigit c = true -> isWhiteSpace c = false /\ (c =? 45) = false
                      /\ (c =? 43) = false.
Proof.
  intros H. apply digit_range in H. unfold isWhiteSpace.
  repeat match goal with
    | |- context [?a =? ?b] => rewrite (proj2 (N.eqb_neq a b)) by lia
    end.
  rewrite (proj2 (N.leb_gt 8192 c)) by lia. auto.
Qed.

Lemma span_all_digits (ds : jsstring) :
  Forall (fun c => isDigit c = true) ds -> span_digits ds = (ds, []).
Proof.
  intros H. rewrite <- (List.app_nil_r ds) at 1.
  now apply span_digits_app.
Qed.

Lemma parseInt_digits (neg : bool) (p : positive) (radix : option N) :
  parseInt ((if neg then [45] else []) ++ uint_units (Pos.to_uint p)) radix
  = if isSafeInteger (if neg then Zneg p else Zpos p)
    then Ok (Some (if neg then Zneg p else Zpos p))
    else Throw Unmodelled.
Proof.
  destruct (pos_digits_head p) as (c & t & E & Hc & Hc0).
  pose proof (uint_units_digits (Pos.to_uint p)) as Hd.
  pose proof (digits_value_to_uint (Npos p)) as Ev.
  cbn [N.to_uint] in Ev. revert E Hd Ev.
  generalize (uint_units (Pos.to_uint p)). intros ds -> Hd Ev.
  destruct (digit_not_space c Hc) as (W & M & P).
  apply N.eqb_neq in Hc0.
  assert (parseInt (c :: t) radix
          = (if isSafeInteger (Zpos p) then Ok (Some (Zpos p))
             else Throw Unmodelled)
          /\ parseInt (45 :: c :: t) radix
             = (if isSafeInteger (Zneg p) then Ok (Some (Zneg p))
                else Throw Unmodelled)) as [E1 E2].
  { unfold parseInt. cbn [trimStart]. change (isWhiteSpace 45) with false.
    rewrite W. cbn [strip_sign]. change (45 =? 45) with true. rewrite M, P.
    rewrite (span_all_digits (c :: t) Hd). cbn [fst]. rewrite Ev.
    destruct radix, t; rewrite ?Hc0; cbn [andb]; split; reflexivity. }
  destruct neg; [exact E2 | exact E1].
Qed.

(** [parseInt] reads back what [String] writes: a decimal numeral, with
    its sign, whatever the radix argument. *)
Lemma parseInt_String (z : Z) (radix : option N) :
  isSafeInteger z = true ->
  parseInt (String_of_number z) radix = Ok (Some z).
Proof.
  intros Hz. destruct z as [|p|p].
  - destruct radix; reflexivity.
  - pose proof (parseInt_digits false p radix) as E. cbn [app] in E.
    unfold String_of_number. cbn [N.to_uint]. now rewrite E, Hz.
  - pose proof (parseInt_digits true p radix) as E. cbn [app] in E.
    unfold String_of_number. cbn [N.to_uint]. now rewrite E, Hz.
Qed.

(** ** edit *)

(** [edit] with a valid field, on a row that is present. *)
Lemma edit_run (clk : nat -> jsstring) (c fc v : N) (key field value : jsstring)
  (rest : argv) (w : World) (r : Work.t) :
  selectById (padId (c :: key)) (db w) = Some r ->
  join [32] rest = v :: value ->
  existsb (jseqb (fc :: field)) commands.validFields = true ->
  commands.edit clk ((c :: key) :: (fc :: field) :: rest) w
  = match commands.setField (fc :: field) (v :: value) (clk 0%nat) with
    | Ok stmt =>
        bind (run (updateById (padId (c :: key)) stmt))
          (fun _ => bind exportToJsonl
                      (fun _ => ret (Updated (padId (c :: key))))) w
    | Throw e => (w, Throw e)
    end.
Proof.
  intros Hr Ev Hf. unfold commands.edit. cbn [nth_error skipn]. rewrite Ev.
  rewrite requireRow_run, Hr, Hf. cbn [negb]. unfold bind at 1, lift.
  now destruct (commands.setField _ _ _).
Qed.

(** X15. [edit] rewrites one column and the time stamp of the row: the
    title, the type or the description becomes the words after the field
    joined by spaces, with no check of the type against the known ones; the
    priority becomes what [parseInt] reads in base 10 from that text, so
    that the decimal numeral of any integer, negative or beyond 4, is
    stored as that integer, while a text with no leading number is refused
    by the table and nothing is written. *)
Theorem edit_changes_one_column (clk : nat -> jsstring) (c v : N)
  (key value : jsstring) (rest : argv) (w : World) (r : Work.t) :
  forallb row_ok (db w) = true ->
  selectById (padId (c :: key)) (db w) = Some r ->
  join [32] rest = v :: value ->
  let pid := padId (c :: key) in
  let edit field :=
    commands.main clk (u "edit" :: (c :: key) :: field :: rest) w in
  let edited field r' :=
    snd (edit field) = Ok (Updated pid)
    /\ selectById pid (db (fst (edit field))) = Some r'
    /\ jsonl (fst (edit field)) = Some (exportOf (db (fst (edit field)))) in
  edited (u "title") (setTitle (v :: value) (clk 0%nat) r)
  /\ edited (u "type") (setType (v :: value) (clk 0%nat) r)
  /\ edited (u "description") (setDescription (v :: value) (clk 0%nat) r)
  /\ match parseInt (v :: value) (Some 10) with
     | Ok (Some z) => edited (u "priority") (setPriority z (clk 0%nat) r)
     | Ok None => edit (u "priority") = (w, Throw ConstraintError)
     | Throw _ => True
     end
  /\ (forall z, isSafeInteger z = true -> v :: value = String_of_number z ->
                edited (u "priority") (setPriority z (clk 0%nat) r)).
Proof.
  intros H Hr Ev pid edit edited.
  assert (forall fc field f,
            existsb (jseqb (fc :: field)) commands.validFields = true ->
            commands.setField (fc :: field) (v :: value) (clk 0%nat) = Ok f ->
            (forall x, Work.id (f x) = Work.id x
                       /\ Work.blocked_by (f x) = Work.blocked_by x
                       /\ Work.labels (f x) = Work.labels x
                       /\ Work.log (f x) = Work.log x) ->
            edited (fc :: field) (f r)) as Hgen.
  { intros fc field f Hv Hs Hf. unfold edited, edit.
    set (x := commands.main clk _ w).
    assert (x = ({| db := updateById pid f (db w);
                    jsonl := Some (exportOf (updateById pid f (db w))) |},
                 Ok (Updated pid))) as ->.
    { pose proof (edit_run clk c fc v key field value rest w r Hr Ev Hv) as Er.
      rewrite Hs, update_then_export in Er;
        [exact Er | exact H
        | apply row_ok_same_json; intros y; destruct (Hf y); tauto]. }
    cbn [fst snd db jsonl]. split; [reflexivity|]. split; [|reflexivity].
    apply selectById_update; [|exact Hr]. intros y. now destruct (Hf y). }
  assert (forall z, parseInt (v :: value) (Some 10) = Ok (Some z) ->
                    edited (u "priority") (setPriority z (clk 0%nat) r)) as Hprio.
  { intros z Ez. apply (Hgen 112 (u "riority")); [reflexivity | | now intros x].
    unfold commands.setField. change (jseqb (112 :: u "riority") (u "priority"))
      with true. cbv iota. now rewrite Ez. }
  split; [apply (Hgen 116 (u "itle")); [reflexivity | reflexivity | now intros x]|].
  split; [apply (Hgen 116 (u "ype")); [reflexivity | reflexivity | now intros x]|].
  split; [apply (Hgen 100 (u "escription"));
          [reflexivity | reflexivity | now intros x]|].
  split.
  - destruct (parseInt (v :: value) (Some 10)) as [[z|]|e] eqn:Ez;
      [now apply Hprio | | exact I];
      pose proof (edit_run clk c 112 v key (u "riority") value rest w r Hr Ev
                    eq_refl) as Er;
      unfold commands.setField in Er;
      change (jseqb (112 :: u "riority") (u "priority")) with true in Er;
      cbv iota in Er; rewrite Ez in Er; exact Er.
  - intros z Hz E. apply Hprio. rewrite E. now apply parseInt_String.
Qed.

Lemma edit_changes_one_column_witness :
  forallb row_ok (db sample_world) = true
  /\ selectById (padId (u "3")) (db sample_world)
     = Some (sample_row "003" "in_progress" 2 [])
  /\ join [32] [u "-7"] = u "-7"
  /\ option_map Work.priority
       (selectById (u "003")
          (db (fst (commands.main (fun _ => u "T1")
                      [u "edit"; u "3"; u "priority"; u "-7"] sample_world))))
     = Some (-7)%Z.
Proof.
  split; [reflexivity|]. split; [reflexivity|]. split; [reflexivity|].
  destruct (edit_changes_one_column (fun _ => u "T1") 51 45 [] [55] [u "-7"]
              sample_world (sample_row "003" "in_progress" 2 [])
              eq_refl eq_refl eq_refl) as (_ & _ & _ & _ & E).
  destruct (E (-7)%Z eq_refl eq_refl) as (_ & E2 & _).
  exact (f_equal (option_map Work.priority) E2).
Defined.

(** ** add *)

Lemma nextId_fresh (t : table) :
  ids_ok t = true -> ~ In (nextId t) (List.map Work.id t).
Proof.
  intros H Hin. apply in_map_iff in Hin as (r & E & Hr).
  destruct (maxNumericId_spec t H) as (_ & U & _).
  pose proof (nextId_numeric t H) as N. specialize (U r Hr).
  unfold castId in U. rewrite E in U. lia.
Qed.

Lemma padId_nextId (t : table) : padId (nextId t) = nextId t.
Proof.
  unfold padId, nextId. apply padStart0_long. rewrite length_padStart0. lia.
Qed.

Lemma nextId_cons (t : table) : exists k ks, nextId t = k :: ks.
Proof.
  destruct (nextId t) as [|k ks] eqn:E; [|eauto].
  apply (f_equal (@List.length _)) in E. unfold nextId in E.
  rewrite length_padStart0 in E. cbn [List.length] in E. lia.
Qed.

Lemma selectById_snoc (key : jsstring) (t : table) (r : Work.t) :
  ~ In key (List.map Work.id t) -> Work.id r = key ->
  selectById key (t ++ [r]) = Some r.
Proof.
  intros Hn E. unfold selectById. induction t as [|x t IH]; cbn [app find].
  - now rewrite E, jseqb_refl.
  - destruct (jseqb (Work.id x) key) eqn:Ex.
    + exfalso. apply Hn. left. now apply jseqb_eq.
    + apply IH. intros Hin. apply Hn. now right.
Qed.

(** X16. [add] with a title always succeeds on a table with numeral ids
    whose JSON columns parse, as long as the priority it is given can be
    read: it appends one row under the id of [nextId], open, with the
    title made of the words that do not start with [--], priority 2 and
    type [task] unless the flags say otherwise, both time stamps equal and
    every optional column NULL, and rewrites the file; [show] with the id
    that was printed then finds exactly this item.  A priority that is no
    number makes the insertion fail and nothing is written. *)
Theorem add_then_show (clk clk' : nat -> jsstring) (args rest : argv)
  (w : World) (c : N) (title : jsstring) :
  ids_ok (db w) = true ->
  forallb row_ok (db w) = true ->
  join [32] (filter notFlag args) = c :: title ->
  let key := nextId (db w) in
  match addPriority args with
  | Ok p =>
      let row := addedRow clk args key (c :: title) p in
      exists w',
        commands.main clk (u "add" :: args) w
        = (w', Ok (Created key (c :: title)))
        /\ db w' = db w ++ [row]
        /\ jsonl w' = Some (exportOf (db w'))
        /\ commands.main clk' (u "show" :: key :: rest) w'
           = (w', Ok (Shown (item_of row)))
        /\ rowToWorkItem row
           = Ok {| id := key; title := c :: title; status := u "open";
                   priority := p; type := addType args;
                   created := clk 0%nat; updated := clk 0%nat;
                   description := None; blocked_by := None; labels := None;
                   closed_reason := None; log := None |}
  | Throw ConstraintError =>
      commands.main clk (u "add" :: args) w = (w, Throw ConstraintError)
  | Throw _ => True
  end.
Proof.
  intros Hids H Et key.
  change (commands.main clk (u "add" :: args) w) with (commands.add clk args w).
  unfold commands.add. rewrite Et. unfold bind at 1, query.
  unfold bind at 1, lift. fold (addPriority args). fold (addType args).
  fold key. destruct (addPriority args) as [p|e];
    [|destruct e; first [exact I | reflexivity]].
  cbv zeta. fold (addedRow clk args key (c :: title) p).
  set (row := addedRow clk args key (c :: title) p).
  assert (row_ok row = true) as Hrow by reflexivity.
  assert (forallb row_ok (db w ++ [row]) = true) as H'
    by (rewrite forallb_app, H; cbn [forallb]; now rewrite Hrow).
  exists {| db := db w ++ [row]; jsonl := Some (exportOf (db w ++ [row])) |}.
  split.
  { unfold bind at 1, runInsert.
    rewrite (insertRow_fresh row (db w) (nextId_fresh (db w) Hids)).
    unfold bind, ret. rewrite exportToJsonl_run. cbn [db].
    now rewrite (allItems_total _ H'). }
  cbn [db jsonl]. split; [reflexivity|]. split; [reflexivity|].
  split; [|reflexivity].
  change (commands.main clk' (u "show" :: key :: rest) ?x)
    with (commands.show (key :: rest) x).
  unfold commands.show. cbn [nth_error].
  destruct (nextId_cons (db w)) as (k & ks & Ek). fold key in Ek.
  rewrite Ek, <- Ek. rewrite requireRow_run. cbn [db].
  unfold key at 1. rewrite padId_nextId.
  rewrite (selectById_snoc _ _ row (nextId_fresh (db w) Hids) eq_refl).
  unfold bind, lift, ret.
  now destruct (row_ok_item row Hrow) as [-> _].
Qed.

Lemma add_then_show_witness :
  ids_ok (db one_row_world) = true
  /\ forallb row_ok (db one_row_world) = true
  /\ join [32] (filter notFlag [u "Fix"; u "--priority=0x10"; u "it"]) = u "Fix it"
  /\ addPriority [u "Fix"; u "--priority=0x10"; u "it"] = Ok 16%Z
  /\ snd (commands.main (fun _ => u "T1")
            [u "add"; u "Fix"; u "--priority=0x10"; u "it"] one_row_world)
     = Ok (Created (u "002") (u "Fix it")).
Proof.
  split; [reflexivity|]. split; [reflexivity|]. split; [reflexivity|].
  split; [reflexivity|].
  pose proof (add_then_show (fun _ => u "T1") (fun _ => u "T2")
                [u "Fix"; u "--priority=0x10"; u "it"] [] one_row_world
                70 (u "ix it") eq_refl eq_refl eq_refl) as H.
  change (addPriority [u "Fix"; u "--priority=0x10"; u "it"]) with (@Ok Z 16%Z)
    in H.
  destruct H as (w' & E & _). exact (f_equal snd E).
Defined.

(** ** What the commands leave alone *)

Lemma pure_preserves {X A} (columns : Work.t -> X) (m : M A) :
  pure m -> preserves columns m.
Proof. intros H w. now rewrite H. Qed.

Lemma preserves_bind {X A B} (columns : Work.t -> X) (m : M A) (k : A -> M B) :
  preserves columns m -> (forall a, produces m a -> preserves columns (k a)) ->
  preserves columns (bind m k).
Proof.
  intros Hm Hk w. unfold bind. specialize (Hm w).
  destruct (m w) as [w1 [a|e]] eqn:E; [|exact Hm].
  cbn [fst] in Hm. rewrite <- Hm. apply Hk. now exists w, w1.
Qed.

Lemma preserves_update {X} (columns : Work.t -> X) (key : jsstring)
  (f : Work.t -> Work.t) :
  (forall r, columns (f r) = columns r) ->
  preserves columns (run (updateById key f)).
Proof.
  intros Hf w. cbn [run fst db]. unfold updateById. rewrite map_map.
  apply map_ext. intros r. destruct (jseqb _ _); [apply Hf | reflexivity].
Qed.

Lemma preserves_export {X} (columns : Work.t -> X) :
  preserves columns exportToJsonl.
Proof. intros w. now rewrite export_db. Qed.

Lemma fixed_setField (field value now : jsstring) (f : Work.t -> Work.t) :
  commands.setField field value now = Ok f -> forall r, fixed (f r) = fixed r.
Proof.
  unfold commands.setField. destruct (jseqb field (u "priority")).
  - intros H. apply rbind_ok in H as (z & _ & H). now injection H as <-.
  - destruct (jseqb field (u "title")); [|destruct (jseqb field (u "type"))];
      now intros [= <-].
Qed.

Lemma preserves_fixed (clk : nat -> jsstring) (args : argv) :
  preserves fixed (commands.start clk args)
  /\ preserves fixed (commands.close clk args)
  /\ preserves fixed (commands.reopen clk args)
  /\ preserves fixed (commands.log clk args)
  /\ preserves fixed (commands.block clk args)
  /\ preserves fixed (commands.unblock clk args)
  /\ preserves fixed (commands.edit clk args)
  /\ preserves fixed (commands.list args)
  /\ preserves fixed (commands.show args)
  /\ preserves fixed (commands.ready args)
  /\ preserves fixed (commands.blocked args)
  /\ preserves fixed (commands.export args).
Proof.
  repeat match goal with |- _ /\ _ => split end;
    unfold commands.start, commands.close, commands.reopen, commands.log,
      commands.block, commands.unblock, commands.edit, commands.list,
      commands.show, commands.ready, commands.blocked, commands.export;
    repeat first
      [ apply pure_preserves;
        first [ apply pure_ret | apply pure_exit1 | apply pure_lift
              | apply pure_query | apply pure_requireRow ]
      | apply preserves_export
      | apply preserves_update;
        first [ reflexivity
              | eapply fixed_setField; apply produces_lift; eassumption ]
      | apply preserves_bind; [|intros ? ?]
      | match goal with
        | |- preserves _ (match ?x with _ => _ end) => destruct x
        | |- preserves _ (if ?x then _ else _) => destruct x
        end ].
Qed.

Lemma preserves_content (clk : nat -> jsstring) (args : argv) :
  preserves content (commands.start clk args)
  /\ preserves content (commands.close clk args)
  /\ preserves content (commands.reopen clk args).
Proof.
  repeat match goal with |- _ /\ _ => split end;
    unfold commands.start, commands.close, commands.reopen;
    repeat first
      [ apply pure_preserves;
        first [ apply pure_ret | apply pure_exit1 | apply pure_requireRow ]
      | apply preserves_export
      | apply preserves_update; reflexivity
      | apply preserves_bind; [|intros ? ?]
      | match goal with
        | |- preserves _ (match ?x with _ => _ end) => destruct x
        end ].
Qed.

(** X17. No command but [import] rewrites the id, the creation time or the
    labels of a row, removes a row or moves one: the table after the
    command has these columns as before, row by row, with one more row at
    the end after a successful [add].  [start], [close] and [reopen] leave
    in addition the title, the priority, the type, the description, the
    blockers and the log of every row as they are. *)
Theorem untouched_columns (clk : nat -> jsstring) (cmd : jsstring)
  (args : argv) (w : World) :
  let t' := db (fst (commands.main clk (cmd :: args) w)) in
  (cmd <> u "import" ->
   List.map fixed t' = List.map fixed (db w)
   \/ (cmd = u "add" /\ exists r, t' = db w ++ [r]))
  /\ (In cmd status_commands ->
      List.map content t' = List.map content (db w)).
Proof.
  cbv zeta. split.
  - intros Hcmd. unfold commands.main.
    destruct (_ || _ || _ || _); [now left|].
    cbn [commands.lookup commands.entries].
    destruct (preserves_fixed clk args)
      as (K1 & K2 & K3 & K4 & K5 & K6 & K7 & K8 & K9 & K10 & K11 & K12).
    repeat match goal with
      | |- context [if jseqb ?k cmd then _ else _] =>
          destruct (jseqb k cmd) eqn:?
      end;
      try (left;
           first [ reflexivity | apply K1 | apply K2 | apply K3
                 | apply K4 | apply K5 | apply K6 | apply K7 | apply K8
                 | apply K9 | apply K10 | apply K11 | apply K12 ]; fail).
    + destruct (add_rows clk args w) as [E | (r & E & _)];
        [left; now rewrite E|].
      right. split; [|now exists r].
      symmetry. now apply jseqb_eq.
    + exfalso. apply Hcmd. symmetry. now apply jseqb_eq.
    + destruct (existsb _ _); now left.
  - intros Hcmd. destruct (preserves_content clk args) as (K1 & K2 & K3).
    cbn in Hcmd.
    repeat (destruct Hcmd as [<- | Hcmd]); try contradiction;
      [apply K1 | apply K2 | apply K3].
Qed.

(** ** The lines of a listing *)

Lemma String_of_number_digits (z : Z) :
  String_of_number z
  = (if (z <? 0)%Z then [45] else []) ++ uint_units (N.to_uint (Z.abs_N z)).
Proof. now destruct z. Qed.

(** A numeral followed by a closing bracket is read in one way only. *)
Lemma String_of_number_inj (z z' : Z) (s s' : jsstring) :
  String_of_number z ++ 93 :: s = String_of_number z' ++ 93 :: s' ->
  z = z' /\ s = s'.
Proof.
  rewrite !String_of_number_digits.
  set (n := Z.abs_N z). set (n' := Z.abs_N z').
  assert (forall m t, span_digits (uint_units (N.to_uint m) ++ 93 :: t)
                      = (uint_units (N.to_uint m), 93 :: t)) as Hspan.
  { intros m t. apply span_digits_app; [apply uint_units_digits | reflexivity]. }
  assert (forall m m' t t',
            uint_units (N.to_uint m) ++ 93 :: t
            = uint_units (N.to_uint m') ++ 93 :: t' -> m = m' /\ t = t') as Hmag.
  { intros m m' t t' E. pose proof (Hspan m t) as E1. rewrite E, Hspan in E1.
    injection E1 as E1 E2. split; [|now symmetry].
    rewrite <- (digits_value_to_uint m), <- (digits_value_to_uint m').
    now rewrite E1. }
  assert (forall m t, exists c r,
            uint_units (N.to_uint m) ++ t = c :: r /\ isDigit c = true) as Hhead.
  { intros m t. pose proof (uint_units_digits (N.to_uint m)) as Hd.
    destruct (uint_units (N.to_uint m)) as [|c r] eqn:E.
    - destruct m as [|p]; [discriminate|].
      destruct (pos_digits_head p) as (c & r & Ep & _). cbn [N.to_uint] in E.
      congruence.
    - exists c, (r ++ t). split; [reflexivity|]. now inversion Hd. }
  destruct (Z.ltb_spec z 0), (Z.ltb_spec z' 0); cbn [app]; intros E.
  - injection E as E. apply Hmag in E as [E ->]. split; [|reflexivity].
    unfold n, n' in E. lia.
  - exfalso. destruct (Hhead n' (93 :: s')) as (c & r & Ec & Hc).
    rewrite Ec in E. injection E as <- _. discriminate.
  - exfalso. destruct (Hhead n (93 :: s)) as (c & r & Ec & Hc).
    rewrite Ec in E. injection E as -> _. discriminate.
  - apply Hmag in E as [E ->]. split; [|reflexivity].
    unfold n, n' in E. lia.
Qed.

(** X18. A line of [list], [ready] or [blocked] tells the item: two items
    whose ids are made of digits and whose lines are equal have the same
    id, the same priority and the same title, and the same mark, that is
    both are closed, both are in progress or both are neither. *)
Theorem formatWork_identifies (a b : WorkItem) :
  forallb isDigit (id a) = true -> forallb isDigit (id b) = true ->
  formatWork a false = formatWork b false ->
  id a = id b /\ priority a = priority b /\ title a = title b
  /\ statusIcon (status a) = statusIcon (status b).
Proof.
  intros Ha Hb. unfold formatWork. intros E. injection E as Ei E.
  assert (forall x t, forallb isDigit x = true ->
                      span_digits (x ++ 32 :: t) = (x, 32 :: t))
    as Hspan.
  { intros x t Hx. apply span_digits_app; [|reflexivity].
    apply Forall_forall. now apply forallb_forall. }
  pose proof (Hspan (id a) (91 :: 80 :: String_of_number (priority a)
                              ++ 93 :: 32 :: title a) Ha) as E1.
  rewrite E, (Hspan (id b) _ Hb) in E1.
  injection E1 as E1 E2. apply String_of_number_inj in E2 as [Ep Et].
  injection Et as Et. repeat split; auto.
Qed.

Lemma formatWork_identifies_witness :
  forallb isDigit (id sample_plain) = true
  /\ formatWork sample_plain false
     = 9675 :: u " 002 [P2] Second".
Proof.
  split; [reflexivity|].
  pose proof (formatWork_identifies sample_plain sample_plain eq_refl eq_refl
                eq_refl) as H.
  reflexivity.
Defined.

(** ** The file is written whole or not at all *)

Lemma pure_whole {A} (m : M A) : pure m -> whole_file m.
Proof. intros H w. rewrite H. destruct (snd (m w)); auto. Qed.

Lemma whole_bind {A B} (m : M A) (k : A -> M B) :
  pure m -> (forall a, whole_file (k a)) -> whole_file (bind m k).
Proof.
  intros Hm Hk w. unfold bind. specialize (Hm w).
  destruct (m w) as [w1 [a|e]]; cbn [fst] in Hm; subst w1; [apply Hk|].
  reflexivity.
Qed.

Lemma whole_export {A} (a : A) :
  whole_file (bind exportToJsonl (fun _ => ret a)).
Proof.
  intros w. unfold bind, ret. rewrite exportToJsonl_run.
  destruct (allItems (db w)) as [items|e] eqn:E; cbn [fst snd]; [|reflexivity].
  right. exists items. split; [exact E | reflexivity].
Qed.

Lemma whole_after_write {A B} (m : M A) (b : B) :
  (forall w, jsonl (fst (m w)) = jsonl w) ->
  whole_file (bind m (fun _ => bind exportToJsonl (fun _ => ret b))).
Proof.
  intros Hm w. specialize (Hm w). pose proof (whole_export b) as He.
  unfold whole_file, bind in *.
  destruct (m w) as [w1 [a|e]]; cbn [fst snd] in *; [|exact Hm].
  specialize (He w1).
  destruct (exportToJsonl w1) as [w2 [[]|e]]; cbn [fst snd ret] in *;
    [|congruence].
  destruct He as [He | He]; [left; congruence | now right].
Qed.

Lemma run_jsonl (stmt : table -> table) (w : World) :
  jsonl (fst (run stmt w)) = jsonl w.
Proof. reflexivity. Qed.

Lemma runInsert_jsonl (r : Work.t) (w : World) :
  jsonl (fst (runInsert r w)) = jsonl w.
Proof. unfold runInsert. now destruct (insertRow r (db w)). Qed.

Lemma import_jsonl (args : argv) (w : World) :
  jsonl (fst (commands.import args w)) = jsonl w.
Proof.
  unfold commands.import. unfold bind at 1.
  destruct (jsonl w) as [text|] eqn:Ew; [|exact Ew].
  destruct (trim text); [exact Ew|].
  unfold bind at 1, lift. destruct (decodeJsonl text) as [items|e]; [|exact Ew].
  unfold bind at 1, run. unfold bind, ret.
  pose proof (insertAll_jsonl items {| db := []; jsonl := jsonl w |}) as E.
  destruct (commands.insertAll items _) as [w' [[]|e]]; cbn [fst jsonl] in *;
    congruence.
Qed.

Lemma whole_commands (clk : nat -> jsstring) (args : argv) :
  whole_file (commands.init args) /\ whole_file (commands.add clk args)
  /\ whole_file (commands.list args) /\ whole_file (commands.show args)
  /\ whole_file (commands.start clk args)
  /\ whole_file (commands.close clk args)
  /\ whole_file (commands.reopen clk args)
  /\ whole_file (commands.log clk args)
  /\ whole_file (commands.block clk args)
  /\ whole_file (commands.unblock clk args)
  /\ whole_file (commands.ready args) /\ whole_file (commands.blocked args)
  /\ whole_file (commands.edit clk args)
  /\ whole_file (commands.export args) /\ whole_file (commands.help args).
Proof.
  repeat match goal with |- _ /\ _ => split end;
    unfold commands.init, commands.add, commands.list, commands.show,
      commands.start, commands.close, commands.reopen, commands.log,
      commands.block, commands.unblock, commands.ready, commands.blocked,
      commands.edit, commands.export, commands.help;
    repeat first
      [ apply pure_whole;
        first [ apply pure_ret | apply pure_exit1 | apply pure_lift
              | apply pure_query | apply pure_requireRow ]
      | apply whole_export
      | apply whole_after_write;
        first [ apply run_jsonl | apply runInsert_jsonl ]
      | apply whole_bind;
        [ first [ apply pure_ret | apply pure_exit1 | apply pure_lift
                | apply pure_query | apply pure_requireRow ]
        | intros ? ]
      | match goal with
        | |- whole_file (match ?x with _ => _ end) => destruct x
        | |- whole_file (if ?x then _ else _) => destruct x
        end ].
Qed.

(** X19. The file is written whole or not at all.  Whatever the command,
    when it fails, with a diagnostic or with an exception, the file is as
    it was, even if the table has been updated by then; when it succeeds
    the file is as it was or it is the complete export of the table the
    command leaves.  [import] never writes the file. *)
Theorem file_written_whole (clk : nat -> jsstring) (argv : argv) (w : World) :
  let w' := fst (commands.main clk argv w) in
  match snd (commands.main clk argv w) with
  | Ok _ => jsonl w' = jsonl w \/ exported w'
  | Throw Unmodelled => True
  | Throw _ => jsonl w' = jsonl w
  end
  /\ forall args, jsonl (fst (commands.main clk (u "import" :: args) w)) = jsonl w.
Proof.
  cbv zeta. split; [|intros args; apply import_jsonl].
  assert (whole_file (commands.main clk argv)) as G;
    [|specialize (G w); destruct (snd _) as [o|[]]; auto].
  unfold commands.main. destruct argv as [|cmd args];
    [apply pure_whole, pure_ret|].
  destruct (_ || _ || _ || _); [apply pure_whole, pure_ret|].
  destruct (whole_commands clk args)
    as (G1 & G2 & G3 & G4 & G5 & G6 & G7 & G8 & G9 & G10 & G11 & G12 & G13
        & G14 & G15).
  cbn [commands.lookup commands.entries].
  repeat match goal with
    | |- context [if jseqb ?k cmd then _ else _] => destruct (jseqb k cmd)
    end; try assumption.
  - intros w0. pose proof (import_jsonl args w0) as E.
    destruct (snd _); auto.
  - destruct (existsb _ _); apply pure_whole; [apply pure_lift | apply pure_exit1].
Qed.

(** ** The queries together *)



Lemma listed_ready (l : list WorkItem) : listed (Ok (ready_output l)) = l.
Proof. now destruct l. Qed.




(** ** Closing a blocker *)

(** X21. Closing the last open blocker releases an item.  On a well-typed
    table, when every blocker of an open item is closed already or is the
    item being closed, then after [close] of that item [ready] lists the
    open item; [close] itself does not look at the blockers of what it
    closes. *)
Theorem close_releases (clk clk' : nat -> jsstring) (c : N) (key : jsstring)
  (why args : argv) (w : World) (r rb : Work.t) :
  forallb row_ok (db w) = true ->
  selectById (padId (c :: key)) (db w) = Some rb ->
  In r (db w) -> Work.id r <> padId (c :: key) -> isClosed r = false ->
  Forall (fun b => b = JStr (padId (c :: key)) \/ closedIn (db w) b)
    (blockers (item_of r)) ->
  exists w1,
    commands.main clk (u "close" :: (c :: key) :: why) w
    = (w1, Ok (Closed (padId (c :: key)) (Work.title rb)))
    /\ In (item_of r)
         (listed (snd (commands.main clk' (u "ready" :: args) w1))).
Proof.
  intros H Hb Hr Hid Hc Hl. set (pid := padId (c :: key)) in *.
  set (f := setStatusReason (u "closed") (clk 0%nat) (close_reason why)).
  destruct (status_run (c :: key) f (fun row => Closed pid (Work.title row))
              w rb H Hb) as (E1 & H1 & Hb1); [now intros x|].
  fold pid in E1, H1, Hb1.
  set (t1 := updateById pid f (db w)) in *.
  set (w1 := {| db := t1; jsonl := Some (exportOf t1) |}).
  exists w1.
  split.
  { change (commands.main clk (u "close" :: (c :: key) :: why) w)
      with (commands.close clk ((c :: key) :: why) w).
    unfold commands.close. cbn [nth_error]. rewrite close_reason_args.
    exact E1. }
  change (commands.main clk' (u "ready" :: args) w1)
    with (commands.ready args w1).
  rewrite (ready_runs args w1 H1). cbn [snd db w1]. rewrite listed_ready.
  assert (In r t1) as Hr1.
  { unfold t1, updateById. apply in_map_iff. exists r. split; [|exact Hr].
    apply jseqb_neq in Hid. now rewrite Hid. }
  apply filter_In. split.
  - apply in_map. unfold ready_rows. apply in_orderBy, filter_In.
    split; [exact Hr1 | now rewrite Hc].
  - apply ready_b_spec. rewrite Forall_forall in *. intros b Hin.
    destruct (Hl b Hin) as [-> | (x & Hx & -> & Hs)].
    + exists (f rb). apply selectById_some in Hb as [Hb Eb].
      split; [|split; [now rewrite <- Eb | reflexivity]].
      unfold t1, updateById. apply in_map_iff. exists rb. split; [|exact Hb].
      now rewrite Eb, jseqb_refl.
    + exists (if jseqb (Work.id x) pid then f x else x).
      split; [unfold t1, updateById; apply in_map_iff; now exists x|].
      destruct (jseqb (Work.id x) pid); split; auto.
Qed.

Lemma close_releases_witness :
  forallb row_ok (db sample_world) = true
  /\ isClosed (sample_row "002" "open" 1 ["001"; "003"]%string) = false
  /\ List.map id
       (listed (snd (commands.main (fun _ => u "T2") [u "ready"]
                       (fst (commands.main (fun _ => u "T1") [u "close"; u "3"]
                               sample_world)))))
     = [u "004"; u "002"].
Proof.
  split; [reflexivity|]. split; [reflexivity|].
  assert (Forall (fun b => b = JStr (padId (u "3")) \/ closedIn (db sample_world) b)
            (blockers (item_of (sample_row "002" "open" 1 ["001"; "003"]%string))))
    as Hl.
  { change (blockers (item_of (sample_row "002" "open" 1 ["001"; "003"]%string)))
      with [JStr (u "001"); JStr (u "003")].
    constructor; [|constructor; [left; reflexivity | constructor]].
    right. exists (sample_row "001" "closed" 2 []).
    split; [now left | split; reflexivity]. }
  destruct (close_releases (fun _ => u "T1") (fun _ => u "T2") 51 [] [] []
              sample_world (sample_row "002" "open" 1 ["001"; "003"]%string)
              (sample_row "003" "in_progress" 2 [])
              eq_refl eq_refl ltac:(right; now left) ltac:(discriminate)
              eq_refl Hl) as (w1 & E & _).
  reflexivity.
Defined.

(** ** The program in a directory *)

Lemma findWorkDir_exists (existsSync : path -> bool) (dir p : path) :
  findWorkDir existsSync dir = Some p -> existsSync p = true.
Proof.
  induction dir as [|c parent IH]; cbn [findWorkDir]; [discriminate|].
  destruct (existsSync (u ".work" :: c :: parent)) eqn:E; [|exact IH].
  now intros [= <-].
Qed.

Lemma getDb_found (d : checkout.Disk) (cwd workDir : path) (w : World) :
  checkout.getDb d cwd = checkout.Found (workDir, w) ->
  findWorkDir (checkout.existsSync d) cwd = Some workDir /\ d workDir = Some w.
Proof.
  unfold checkout.getDb, checkout.getWorkDir.
  destruct (findWorkDir _ cwd) as [p|]; [|discriminate].
  destruct (d p) as [w0|] eqn:E; [|discriminate].
  intros [= <- <-]. now split.
Qed.

Lemma getDb_total (d : checkout.Disk) (cwd workDir : path) :
  findWorkDir (checkout.existsSync d) cwd = Some workDir ->
  exists w, checkout.getDb d cwd = checkout.Found (workDir, w).
Proof.
  intros E. pose proof (findWorkDir_exists _ _ _ E) as Hex.
  unfold checkout.getDb, checkout.getWorkDir. rewrite E.
  unfold checkout.existsSync in Hex.
  destruct (d workDir) as [w|]; [now exists w | discriminate].
Qed.

(** The commands agree with [usageExit]: the usage message comes without a
    look at the store. *)
Lemma usageExit_run (clk : nat -> jsstring) (cmd : jsstring) (args : argv)
  (f : argv -> M output) (w : World) :
  commands.lookup cmd (commands.entries clk) = Some f ->
  checkout.usageExit cmd args = true ->
  f args w = (w, Throw (Exit1 (Usage cmd))).
Proof.
  intros H Hu. unfold commands.entries, commands.lookup in H.
  repeat match type of H with
         | context [jseqb ?k cmd] =>
             destruct (jseqb k cmd) eqn:E;
             [apply jseqb_eq in E; subst cmd; injection H as <- | clear E]
         end;
    try discriminate H; try discriminate Hu; revert Hu.
  - change (checkout.usageExit (u "add") args)
      with (match join [32] (filter notFlag args) with
            | [] => true | _ :: _ => false end).
    unfold commands.add. destruct (join [32] (filter notFlag args));
      [reflexivity | discriminate].
  - change (checkout.usageExit (u "show") args) with (missing (nth_error args 0)).
    unfold commands.show.
    destruct (nth_error args 0) as [[|]|]; cbn [missing];
      [reflexivity | discriminate | reflexivity].
  - change (checkout.usageExit (u "start") args) with (missing (nth_error args 0)).
    unfold commands.start.
    destruct (nth_error args 0) as [[|]|]; cbn [missing];
      [reflexivity | discriminate | reflexivity].
  - change (checkout.usageExit (u "close") args) with (missing (nth_error args 0)).
    unfold commands.close.
    destruct (nth_error args 0) as [[|]|]; cbn [missing];
      [reflexivity | discriminate | reflexivity].
  - change (checkout.usageExit (u "reopen") args) with (missing (nth_error args 0)).
    unfold commands.reopen.
    destruct (nth_error args 0) as [[|]|]; cbn [missing];
      [reflexivity | discriminate | reflexivity].
  - change (checkout.usageExit (u "log") args)
      with (missing (nth_error args 0)
            || match join [32] (filter notFlag (skipn 1 args)) with
               | [] => true | _ :: _ => false end).
    unfold commands.log.
    destruct (nth_error args 0) as [[|]|]; cbn [missing orb];
      destruct (join [32] (filter notFlag (skipn 1 args)));
      try reflexivity; discriminate.
  - change (checkout.usageExit (u "block") args)
      with (missing (nth_error args 0) || missing (nth_error args 1)).
    unfold commands.block.
    destruct (nth_error args 0) as [[|]|]; cbn [missing orb];
      destruct (nth_error args 1) as [[|]|]; cbn [missing orb];
      try reflexivity; discriminate.
  - change (checkout.usageExit (u "unblock") args)
      with (missing (nth_error args 0) || missing (nth_error args 1)).
    unfold commands.unblock.
    destruct (nth_error args 0) as [[|]|]; cbn [missing orb];
      destruct (nth_error args 1) as [[|]|]; cbn [missing orb];
      try reflexivity; discriminate.
  - change (checkout.usageExit (u "edit") args)
      with (missing (nth_error args 0) || missing (nth_error args 1)
            || match join [32] (skipn 2 args) with
               | [] => true | _ :: _ => false end).
    unfold commands.edit.
    destruct (nth_error args 0) as [[|]|]; cbn [missing orb];
      destruct (nth_error args 1) as [[|]|]; cbn [missing orb];
      destruct (join [32] (skipn 2 args));
      try reflexivity; discriminate.
Qed.

Lemma work_at_store (clk : nat -> jsstring) (cwd : path) (argv : argv)
  (d : checkout.Disk) (workDir : path) (w : World) :
  checkout.getDb d cwd = checkout.Found (workDir, w) ->
  hd_error argv <> Some (u "init") ->
  snd (checkout.work clk cwd argv d)
  = checkout.Ran (snd (commands.main clk argv w))
  /\ forall p,
       fst (checkout.work clk cwd argv d) p
       = if patheqb p workDir then Some (fst (commands.main clk argv w))
         else d p.
Proof.
  intros Hdb Hinit. destruct (getDb_found _ _ _ _ Hdb) as [_ Hw].
  assert (forall p, d p = if patheqb p workDir then Some w else d p) as Hsame.
  { intros p. destruct (patheqb p workDir) eqn:E; [|reflexivity].
    apply patheqb_eq in E. now subst p. }
  unfold checkout.work, commands.main.
  destruct argv as [|cmd args]; [now split|].
  destruct (_ || _ || _ || _); [now split|].
  destruct (jseqb cmd (u "init")) eqn:Ei.
  { apply jseqb_eq in Ei. subst cmd. now contradiction Hinit. }
  destruct (commands.lookup cmd (commands.entries clk)) as [f|] eqn:El.
  - destruct (checkout.usageExit cmd args) eqn:Eu.
    + rewrite (usageExit_run clk cmd args f w El Eu). now split.
    + rewrite Hdb. destruct (f args w) as [w' r]. now split.
  - destruct (existsb (jseqb cmd) commands.inherited); now split.
Qed.

(** X22. Started in a directory, a command other than [init] acts on the
    store of the nearest directory that has a [.work], among the starting
    directory and its ancestors below the root, also when directories
    further up have stores of their own: what it prints and what becomes
    of that store are what the command does on that store alone, and
    every other store stays as it was. *)
Theorem work_runs_nearest_store (clk : nat -> jsstring) (below above : path)
  (argv : argv) (d : checkout.Disk) (w : World) :
  above <> [] ->
  d (u ".work" :: above) = Some w ->
  (forall b1 b2, below = b1 ++ b2 -> b2 <> [] ->
     d (u ".work" :: b2 ++ above) = None) ->
  hd_error argv <> Some (u "init") ->
  snd (checkout.work clk (below ++ above) argv d)
  = checkout.Ran (snd (commands.main clk argv w))
  /\ forall p,
       fst (checkout.work clk (below ++ above) argv d) p
       = if patheqb p (u ".work" :: above)
         then Some (fst (commands.main clk argv w))
         else d p.
Proof.
  intros Hne Hw Hnear Hinit. apply work_at_store; [|exact Hinit].
  unfold checkout.getDb, checkout.getWorkDir.
  rewrite (findWorkDir_found (checkout.existsSync d) below above Hne).
  - now rewrite Hw.
  - unfold checkout.existsSync. now rewrite Hw.
  - intros b1 b2 E Hb2. unfold checkout.existsSync.
    now rewrite (Hnear b1 b2 E Hb2).
Qed.

Lemma work_runs_nearest_store_witness :
  [u "proj"; u "home"] <> []
  /\ nested_disk [u ".work"; u "proj"; u "home"] = Some checkout.fresh
  /\ nested_disk [u ".work"; u "src"; u "proj"; u "home"] = None
  /\ hd_error [u "add"; u "Fix"; u "it"] <> Some (u "init")
  /\ snd (checkout.work (fun _ => u "T") [u "src"; u "proj"; u "home"]
            [u "add"; u "Fix"; u "it"] nested_disk)
     = checkout.Ran (Ok (Created (u "001") (u "Fix it")))
  /\ fst (checkout.work (fun _ => u "T") [u "src"; u "proj"; u "home"]
            [u "add"; u "Fix"; u "it"] nested_disk) [u ".work"; u "home"]
     = Some sample_world.
Proof.
  split; [discriminate|]. split; [reflexivity|]. split; [reflexivity|].
  split; [discriminate|].
  assert (forall b1 b2, [u "src"] = b1 ++ b2 -> b2 <> [] ->
            nested_disk (u ".work" :: b2 ++ [u "proj"; u "home"]) = None)
    as Hnear.
  { intros [|x [|y b1]] b2 E Hb2; cbn [app] in E.
    - now subst b2.
    - injection E as _ E. now subst b2.
    - discriminate E. }
  destruct (work_runs_nearest_store (fun _ => u "T") [u "src"]
              [u "proj"; u "home"] [u "add"; u "Fix"; u "it"] nested_disk
              checkout.fresh ltac:(discriminate) eq_refl Hnear
              ltac:(discriminate)) as [E F].
  cbn [app] in E, F.
  split; [rewrite E; reflexivity|].
  rewrite (F [u ".work"; u "home"]). reflexivity.
Defined.

(** X23. No command but [init] creates a store.  When no directory from
    the current one up to the root (the root left out) has a [.work], the
    disk stays as it was, and a run ends with the help, with the usage
    message of the command, with the message for an unknown command, with
    "No .work directory found", or, when the first argument is a name that
    the object [commands] inherits (such as [toString]), with the call of
    what it inherits, which the model leaves open; [list], [ready],
    [blocked], [import] and [export] always end with "No .work directory
    found".  When a store is found that message never comes. *)
Theorem work_needs_store (clk : nat -> jsstring) (cwd : path) (argv : argv)
  (d : checkout.Disk) :
  hd_error argv <> Some (u "init") ->
  match findWorkDir (checkout.existsSync d) cwd with
  | None =>
      fst (checkout.work clk cwd argv d) = d
      /\ match snd (checkout.work clk cwd argv d) with
         | checkout.NoWorkDirectory => True
         | checkout.Ran (Ok o) => o = Help
         | checkout.Ran (Throw (Exit1 (Usage c))) => hd_error argv = Some c
         | checkout.Ran (Throw (Exit1 (UnknownCommand c))) =>
             hd_error argv = Some c
         | checkout.Ran (Throw Unmodelled) =>
             exists c, hd_error argv = Some c
                       /\ existsb (jseqb c) commands.inherited = true
         | _ => False
         end
      /\ forall cmd args,
           argv = cmd :: args ->
           In cmd [u "list"; u "ready"; u "blocked"; u "import"; u "export"] ->
           snd (checkout.work clk cwd argv d) = checkout.NoWorkDirectory
  | Some _ => snd (checkout.work clk cwd argv d) <> checkout.NoWorkDirectory
  end.
Proof.
  intros Hinit. destruct (findWorkDir _ cwd) as [p|] eqn:Ef.
  - destruct (getDb_total _ _ _ Ef) as [w Hdb].
    unfold checkout.work.
    destruct argv as [|cmd args]; [discriminate|].
    destruct (_ || _ || _ || _); [discriminate|].
    destruct (jseqb cmd (u "init")) eqn:Ei.
    { apply jseqb_eq in Ei. subst cmd. now contradiction Hinit. }
    destruct (commands.lookup cmd (commands.entries clk)) as [f|];
      [|discriminate].
    destruct (checkout.usageExit cmd args); [discriminate|].
    rewrite Hdb. destruct (f args w). discriminate.
  - assert (checkout.getDb d cwd = checkout.NotInitialized) as Hdb.
    { unfold checkout.getDb, checkout.getWorkDir. now rewrite Ef. }
    unfold checkout.work.
    destruct argv as [|cmd args].
    { cbn [fst snd]. repeat split. intros ? ? [=]. }
    destruct (_ || _ || _ || _) eqn:Eh.
    { cbn [fst snd]. repeat split. intros c a [= <- <-] Hin.
      cbn [In] in Hin.
      repeat (destruct Hin as [<-|Hin]; [discriminate Eh|]). contradiction. }
    destruct (jseqb cmd (u "init")) eqn:Ei.
    { apply jseqb_eq in Ei. subst cmd. now contradiction Hinit. }
    destruct (commands.lookup cmd (commands.entries clk)) as [f|] eqn:El.
    + destruct (checkout.usageExit cmd args) eqn:Eu.
      * cbn [fst snd]. repeat split. intros c a [= <- <-] Hin.
        cbn [In] in Hin.
        repeat (destruct Hin as [<-|Hin]; [discriminate Eu|]). contradiction.
      * rewrite Hdb. cbn [fst snd]. repeat split.
    + destruct (existsb (jseqb cmd) commands.inherited) eqn:Ex;
        cbn [fst snd]; repeat split.
      * exists cmd. now split.
      * intros c a [= <- <-] Hin. cbn [In] in Hin.
        repeat (destruct Hin as [<-|Hin]; [discriminate El|]). contradiction.
      * intros c a [= <- <-] Hin. cbn [In] in Hin.
        repeat (destruct Hin as [<-|Hin]; [discriminate El|]). contradiction.
Qed.

Lemma work_needs_store_witness :
  hd_error [u "list"] <> Some (u "init")
  /\ snd (checkout.work (fun _ => []) [u "proj"; u "home"] [u "list"]
            (fun _ => None))
     = checkout.NoWorkDirectory.
Proof.
  split; [discriminate|].
  pose proof (work_needs_store (fun _ => []) [u "proj"; u "home"] [u "list"]
                (fun _ => None) ltac:(discriminate)) as H.
  change (findWorkDir (checkout.existsSync (fun _ => None)) [u "proj"; u "home"])
    with (@None path) in H.
  destruct H as (_ & _ & H).
  apply (H (u "list") []); [reflexivity | now left].
Defined.
